(** * QVSPSocket: the VSP/BRSP byte-stream socket over Bluetooth LE GATT

    Shallow embedding of [src/qvspsocket.cpp] and [src/qvspsocket.h]
    (namespace [MiVSP]).  The socket is a record of its member fields; every
    member function and every lambda connected to a Qt signal is a computation
    in a small state/writer/failure monad:

    - the state is the [QVSPSocket] object,
    - the writer collects, in program order, the signals the socket emits and
      the operations it requests from the Bluetooth LE transport
      ([QLowEnergyController] / [QLowEnergyService]),
    - failure ([None]) is a dereference of a null [controller] or [service]
      pointer (undefined behaviour in the C++ program).

    The transport itself is external: its signals are the [Event]s fed to
    [dispatch], which runs the lambda connected to the signal. *)

From Stdlib Require Import ZArith List String Bool Lia.
From Stdlib Require Import Strings.Byte DecimalString.
Import ListNotations.
Local Open Scope string_scope.
Local Open Scope Z_scope.
Local Open Scope list_scope.

(** ** Qt value types *)

(** A [QBluetoothUuid] is written as the source writes it; two identifiers are
    equal when their texts are. *)
Definition QBluetoothUuid : Type := string.

(** A [QByteArray] is a finite sequence of bytes.  Its [size()] is an [int];
    all sums of sizes in the source are made in [qint64] and cannot wrap. *)
Definition QByteArray : Type := list byte.

Definition size (b : QByteArray) : Z := Z.of_nat (List.length b).

Definition isEmpty (b : QByteArray) : bool :=
  match b with [] => true | _ :: _ => false end.

Fixpoint QByteArray_eqb (a b : QByteArray) : bool :=
  match a, b with
  | [], [] => true
  | x :: a', y :: b' => Byte.eqb x y && QByteArray_eqb a' b'
  | _, _ => false
  end.

(** [QLowEnergyCharacteristic]: a handle on a characteristic of the service,
    identified by its UUID; [None] is the invalid (default-constructed)
    handle. *)
Definition QLowEnergyCharacteristic : Type := option QBluetoothUuid.

(** [QLowEnergyDescriptor]: the source only ever uses the
    ClientCharacteristicConfiguration descriptor of a characteristic, so a
    descriptor handle is identified by the characteristic that owns it. *)
Definition QLowEnergyDescriptor : Type := option QBluetoothUuid.

Definition isValid (h : option QBluetoothUuid) : bool :=
  match h with Some _ => true | None => false end.

(** [operator==] on handles. *)
Definition handle_eqb (a b : option QBluetoothUuid) : bool :=
  match a, b with
  | Some x, Some y => String.eqb x y
  | None, None => true
  | _, _ => false
  end.

(** [QBluetoothSocket::SocketState] *)
Inductive SocketState : Type :=
| UnconnectedState | ServiceLookupState | ConnectingState | ConnectedState
| BoundState | ClosingState | ListeningState.

(** [QLowEnergyService::ServiceError] *)
Inductive ServiceError : Type :=
| NoError | OperationError | CharacteristicWriteError | DescriptorWriteError
| UnknownError | CharacteristicReadError | DescriptorReadError.

(** [QLowEnergyService::ServiceState] *)
Inductive ServiceState : Type :=
| InvalidService | DiscoveryRequired | DiscoveringServices | ServiceDiscovered
| LocalService.

Inductive Manufacturer : Type := Laird | BlueRadios.

Definition Manufacturer_eqb (a b : Manufacturer) : bool :=
  match a, b with
  | Laird, Laird | BlueRadios, BlueRadios => true
  | _, _ => false
  end.

(** The device handed to [connectToDevice], by its address. *)
Definition QBluetoothDeviceInfo : Type := string.

(** ** The static tables of qvspsocket.cpp *)

(** [VSP_SERVICE]: [contains] is [Some _], [operator[]] the value. *)
Definition VSP_SERVICE (uuid : QBluetoothUuid) : option Manufacturer :=
  if String.eqb uuid "569a1101-b87f-490c-92cb-11ba5ea5167c" then Some Laird
  else if String.eqb uuid "da2b84f1-6279-48de-bdc0-afbea0226079"
       then Some BlueRadios
  else None.

Record Characteristic : Type := mkCharacteristic {
  MODEM_IN : QBluetoothUuid;   (* RTS *)
  MODEM_OUT : QBluetoothUuid;  (* CTS *)
  RX_FIFO : QBluetoothUuid;    (* Client TX *)
  TX_FIFO : QBluetoothUuid     (* Client RX *)
}.

Definition CHARACTERISTIC (mf : Manufacturer) : Characteristic :=
  match mf with
  | Laird =>
      mkCharacteristic "569a2003-b87f-490c-92cb-11ba5ea5167c"
                       "569a2002-b87f-490c-92cb-11ba5ea5167c"
                       "569a2001-b87f-490c-92cb-11ba5ea5167c"
                       "569a2000-b87f-490c-92cb-11ba5ea5167c"
  | BlueRadios =>
      mkCharacteristic "0A1934F5-24B8-4F13-9842-37BB167C6AFF"
                       "FDD6B4D3-046D-4330-BDEC-1FD0C90CB43B"
                       "BF03260C-7205-4C25-AF43-93B1C299D159"
                       "18CDA784-4BD3-4370-85BB-BFED91EC86AF"
  end.

(** only on BlueRadios *)
Definition BRSP_MODE_CHARACTERISTIC : QBluetoothUuid :=
  "A87988B9-694C-479C-900E-95DFA6C00A24"%string.
Definition BRSP_MODE_DATA : QByteArray := [x01].

(** descriptor *)
Definition DESC_NOTIFY_ON : QByteArray := [x01; x00].
Definition DESC_NOTIFY_OFF : QByteArray := [x00; x00].

(** RTS/CTS set/unset flags *)
Definition MODEM_SET_BIT (mf : Manufacturer) : QByteArray :=
  match mf with Laird => [x01] | BlueRadios => [x00] end.
Definition MODEM_CLEAR_BIT (mf : Manufacturer) : QByteArray :=
  match mf with Laird => [x00] | BlueRadios => [x01] end.

(** maximum packet data size (20 is the default for Bluetooth LE) *)
Definition PACKET_SIZE : Z := 20.

(** ** The transport objects and the socket object *)

(** The controller object created by [connectToDevice]; its three lambdas
    are connected as soon as it exists. *)
Record QLowEnergyController : Type := mkController {
  remoteDevice : QBluetoothDeviceInfo
}.

(** The service object created in the [discoveryFinished] lambda.
    [serviceSlots] records that the lambdas for [error] and [stateChanged]
    are connected to it, [detailSlots] that those for [descriptorWritten],
    [characteristicChanged], [characteristicRead] and
    [characteristicWritten] are.  The transport reaches [ServiceDiscovered]
    once per service object and finishes discovery once per controller, so a
    lambda that is connected is connected once. *)
Record QLowEnergyService : Type := mkService {
  serviceUuid : QBluetoothUuid;
  serviceSlots : bool;
  detailSlots : bool
}.

(** What a discovered service offers: its characteristics, each with the
    flag whether it carries a ClientCharacteristicConfiguration descriptor. *)
Definition ServiceDetails : Type := list (QBluetoothUuid * bool).

Fixpoint characteristic (details : ServiceDetails) (uuid : QBluetoothUuid)
  : QLowEnergyCharacteristic :=
  match details with
  | [] => None
  | (u, _) :: rest =>
      if String.eqb u uuid then Some uuid else characteristic rest uuid
  end.

Fixpoint hasNotify (details : ServiceDetails) (uuid : QBluetoothUuid) : bool :=
  match details with
  | [] => false
  | (u, n) :: rest => if String.eqb u uuid then n else hasNotify rest uuid
  end.

(** [c.descriptor(QBluetoothUuid::ClientCharacteristicConfiguration)] *)
Definition descriptor (details : ServiceDetails) (c : QLowEnergyCharacteristic)
  : QLowEnergyDescriptor :=
  match c with
  | Some u => if hasNotify details u then Some u else None
  | None => None
  end.

(** The member fields of [class QVSPSocket] (qvspsocket.h), with
    [errorString] and the open mode inherited from [QIODevice]. *)
Record QVSPSocket : Type := mkQVSPSocket {
  _state : SocketState;
  _error : ServiceError;
  errorString : string;
  openMode : bool;
  m : Manufacturer;
  controller : option QLowEnergyController;
  service : option QLowEnergyService;
  rxFifoChar : QLowEnergyCharacteristic;
  txFifoChar : QLowEnergyCharacteristic;
  modemInChar : QLowEnergyCharacteristic;
  modemOutChar : QLowEnergyCharacteristic;
  brspModeChar : QLowEnergyCharacteristic;
  txFifoNotify : QLowEnergyDescriptor;
  modemOutNotify : QLowEnergyDescriptor;
  cts : bool;   (* CTS = clear to send to device (set by device) *)
  rts : bool;   (* RTS = request to send from device (set by us) *)
  maxBufferSize : Z;   (* maximum input and output buffer size 21 .. INT_MAX *)
  readBuffer : QByteArray;
  writeBuffer : QByteArray
}.

(** The constructor taking [maxBufferSize]: the in-class member
    initialisers of qvspsocket.h. *)
Definition QVSPSocket_new (maxBufferSize : Z) : QVSPSocket :=
  mkQVSPSocket UnconnectedState NoError EmptyString false Laird None None
    None None None None None None None false false maxBufferSize [] [].

(** The default constructor: maximum buffer size 4096. *)
Definition QVSPSocket_default : QVSPSocket := QVSPSocket_new 4096.

Definition set_state (v : SocketState) (s : QVSPSocket) : QVSPSocket :=
  mkQVSPSocket v (_error s) (errorString s) (openMode s) (m s) (controller s)
    (service s) (rxFifoChar s) (txFifoChar s) (modemInChar s) (modemOutChar s)
    (brspModeChar s) (txFifoNotify s) (modemOutNotify s) (cts s) (rts s)
    (maxBufferSize s) (readBuffer s) (writeBuffer s).

Definition set_error (v : ServiceError) (s : QVSPSocket) : QVSPSocket :=
  mkQVSPSocket (_state s) v (errorString s) (openMode s) (m s) (controller s)
    (service s) (rxFifoChar s) (txFifoChar s) (modemInChar s) (modemOutChar s)
    (brspModeChar s) (txFifoNotify s) (modemOutNotify s) (cts s) (rts s)
    (maxBufferSize s) (readBuffer s) (writeBuffer s).

Definition set_errorString (v : string) (s : QVSPSocket) : QVSPSocket :=
  mkQVSPSocket (_state s) (_error s) v (openMode s) (m s) (controller s)
    (service s) (rxFifoChar s) (txFifoChar s) (modemInChar s) (modemOutChar s)
    (brspModeChar s) (txFifoNotify s) (modemOutNotify s) (cts s) (rts s)
    (maxBufferSize s) (readBuffer s) (writeBuffer s).

Definition set_openMode (v : bool) (s : QVSPSocket) : QVSPSocket :=
  mkQVSPSocket (_state s) (_error s) (errorString s) v (m s) (controller s)
    (service s) (rxFifoChar s) (txFifoChar s) (modemInChar s) (modemOutChar s)
    (brspModeChar s) (txFifoNotify s) (modemOutNotify s) (cts s) (rts s)
    (maxBufferSize s) (readBuffer s) (writeBuffer s).

Definition set_m (v : Manufacturer) (s : QVSPSocket) : QVSPSocket :=
  mkQVSPSocket (_state s) (_error s) (errorString s) (openMode s) v
    (controller s) (service s) (rxFifoChar s) (txFifoChar s) (modemInChar s)
    (modemOutChar s) (brspModeChar s) (txFifoNotify s) (modemOutNotify s) (cts
    s) (rts s) (maxBufferSize s) (readBuffer s) (writeBuffer s).

Definition set_controller (v : option QLowEnergyController) (s : QVSPSocket) : QVSPSocket :=
  mkQVSPSocket (_state s) (_error s) (errorString s) (openMode s) (m s) v
    (service s) (rxFifoChar s) (txFifoChar s) (modemInChar s) (modemOutChar s)
    (brspModeChar s) (txFifoNotify s) (modemOutNotify s) (cts s) (rts s)
    (maxBufferSize s) (readBuffer s) (writeBuffer s).

Definition set_service (v : option QLowEnergyService) (s : QVSPSocket) : QVSPSocket :=
  mkQVSPSocket (_state s) (_error s) (errorString s) (openMode s) (m s)
    (controller s) v (rxFifoChar s) (txFifoChar s) (modemInChar s)
    (modemOutChar s) (brspModeChar s) (txFifoNotify s) (modemOutNotify s) (cts
    s) (rts s) (maxBufferSize s) (readBuffer s) (writeBuffer s).

Definition set_rxFifoChar (v : QLowEnergyCharacteristic) (s : QVSPSocket) : QVSPSocket :=
  mkQVSPSocket (_state s) (_error s) (errorString s) (openMode s) (m s)
    (controller s) (service s) v (txFifoChar s) (modemInChar s) (modemOutChar
    s) (brspModeChar s) (txFifoNotify s) (modemOutNotify s) (cts s) (rts s)
    (maxBufferSize s) (readBuffer s) (writeBuffer s).

Definition set_txFifoChar (v : QLowEnergyCharacteristic) (s : QVSPSocket) : QVSPSocket :=
  mkQVSPSocket (_state s) (_error s) (errorString s) (openMode s) (m s)
    (controller s) (service s) (rxFifoChar s) v (modemInChar s) (modemOutChar
    s) (brspModeChar s) (txFifoNotify s) (modemOutNotify s) (cts s) (rts s)
    (maxBufferSize s) (readBuffer s) (writeBuffer s).

Definition set_modemInChar (v : QLowEnergyCharacteristic) (s : QVSPSocket) : QVSPSocket :=
  mkQVSPSocket (_state s) (_error s) (errorString s) (openMode s) (m s)
    (controller s) (service s) (rxFifoChar s) (txFifoChar s) v (modemOutChar
    s) (brspModeChar s) (txFifoNotify s) (modemOutNotify s) (cts s) (rts s)
    (maxBufferSize s) (readBuffer s) (writeBuffer s).

Definition set_modemOutChar (v : QLowEnergyCharacteristic) (s : QVSPSocket) : QVSPSocket :=
  mkQVSPSocket (_state s) (_error s) (errorString s) (openMode s) (m s)
    (controller s) (service s) (rxFifoChar s) (txFifoChar s) (modemInChar s) v
    (brspModeChar s) (txFifoNotify s) (modemOutNotify s) (cts s) (rts s)
    (maxBufferSize s) (readBuffer s) (writeBuffer s).

Definition set_brspModeChar (v : QLowEnergyCharacteristic) (s : QVSPSocket) : QVSPSocket :=
  mkQVSPSocket (_state s) (_error s) (errorString s) (openMode s) (m s)
    (controller s) (service s) (rxFifoChar s) (txFifoChar s) (modemInChar s)
    (modemOutChar s) v (txFifoNotify s) (modemOutNotify s) (cts s) (rts s)
    (maxBufferSize s) (readBuffer s) (writeBuffer s).

Definition set_txFifoNotify (v : QLowEnergyDescriptor) (s : QVSPSocket) : QVSPSocket :=
  mkQVSPSocket (_state s) (_error s) (errorString s) (openMode s) (m s)
    (controller s) (service s) (rxFifoChar s) (txFifoChar s) (modemInChar s)
    (modemOutChar s) (brspModeChar s) v (modemOutNotify s) (cts s) (rts s)
    (maxBufferSize s) (readBuffer s) (writeBuffer s).

Definition set_modemOutNotify (v : QLowEnergyDescriptor) (s : QVSPSocket) : QVSPSocket :=
  mkQVSPSocket (_state s) (_error s) (errorString s) (openMode s) (m s)
    (controller s) (service s) (rxFifoChar s) (txFifoChar s) (modemInChar s)
    (modemOutChar s) (brspModeChar s) (txFifoNotify s) v (cts s) (rts s)
    (maxBufferSize s) (readBuffer s) (writeBuffer s).

Definition set_cts (v : bool) (s : QVSPSocket) : QVSPSocket :=
  mkQVSPSocket (_state s) (_error s) (errorString s) (openMode s) (m s)
    (controller s) (service s) (rxFifoChar s) (txFifoChar s) (modemInChar s)
    (modemOutChar s) (brspModeChar s) (txFifoNotify s) (modemOutNotify s) v
    (rts s) (maxBufferSize s) (readBuffer s) (writeBuffer s).

Definition set_rts (v : bool) (s : QVSPSocket) : QVSPSocket :=
  mkQVSPSocket (_state s) (_error s) (errorString s) (openMode s) (m s)
    (controller s) (service s) (rxFifoChar s) (txFifoChar s) (modemInChar s)
    (modemOutChar s) (brspModeChar s) (txFifoNotify s) (modemOutNotify s) (cts
    s) v (maxBufferSize s) (readBuffer s) (writeBuffer s).

Definition set_readBuffer (v : QByteArray) (s : QVSPSocket) : QVSPSocket :=
  mkQVSPSocket (_state s) (_error s) (errorString s) (openMode s) (m s)
    (controller s) (service s) (rxFifoChar s) (txFifoChar s) (modemInChar s)
    (modemOutChar s) (brspModeChar s) (txFifoNotify s) (modemOutNotify s) (cts
    s) (rts s) (maxBufferSize s) v (writeBuffer s).

Definition set_writeBuffer (v : QByteArray) (s : QVSPSocket) : QVSPSocket :=
  mkQVSPSocket (_state s) (_error s) (errorString s) (openMode s) (m s)
    (controller s) (service s) (rxFifoChar s) (txFifoChar s) (modemInChar s)
    (modemOutChar s) (brspModeChar s) (txFifoNotify s) (modemOutNotify s) (cts
    s) (rts s) (maxBufferSize s) (readBuffer s) v.

(** ** Signals, transport requests and transport events *)

(** Signals emitted by the socket ([QIODevice]'s and its own). *)
Inductive Signal : Type :=
| connected
| disconnected
| stateChanged (state : SocketState)
| error (e : ServiceError)
| readyRead
| bytesWritten (bytes : Z)
| readChannelFinished
| aboutToClose.

(** Operations the socket requests from the transport. *)
Inductive Request : Type :=
| controller_connectToDevice (device : QBluetoothDeviceInfo)
| disconnectFromDevice
| discoverServices
| discoverDetails (serviceId : QBluetoothUuid)
| writeCharacteristic (c : QLowEnergyCharacteristic) (value : QByteArray)
| readCharacteristic (c : QLowEnergyCharacteristic)
| writeDescriptor (d : QLowEnergyDescriptor) (value : QByteArray).

(** Signals of the transport objects.  Handles reported by the transport are
    valid, so they are given by their UUID. *)
Inductive Event : Type :=
| controller_error (controllerErrorString : string)
| controller_connected
| discoveryFinished (services : list QBluetoothUuid)
| service_error (e : ServiceError)
| service_stateChanged (newState : ServiceState) (details : ServiceDetails)
| descriptorWritten (d : QBluetoothUuid) (newValue : QByteArray)
| characteristicChanged (info : QBluetoothUuid) (newValue : QByteArray)
| characteristicRead (info : QBluetoothUuid) (value : QByteArray)
| characteristicWritten (info : QBluetoothUuid) (value : QByteArray).

(** What an execution shows, in program order: an event delivered to the
    socket, a signal it emits, an operation it requests, the count returned
    by [readData] (with the bytes read) or by [writeData]. *)
Inductive Obs : Type :=
| Recv (e : Event)
| Emit (g : Signal)
| Req (r : Request)
| ReadReturned (r : Z) (data : QByteArray)
| WriteReturned (r : Z).

(** ** The monad of member functions *)

Definition M (A : Type) : Type :=
  QVSPSocket -> option (A * QVSPSocket * list Obs).

Definition ret {A} (a : A) : M A := fun s => Some (a, s, []).

Definition bind {A B} (c : M A) (f : A -> M B) : M B :=
  fun s =>
    match c s with
    | None => None
    | Some (a, s1, o1) =>
        match f a s1 with
        | None => None
        | Some (b, s2, o2) => Some (b, s2, o1 ++ o2)
        end
    end.

Notation "x <- c ;; k" := (bind c (fun x => k))
  (at level 61, c at next level, right associativity).
Notation "c ;; k" := (bind c (fun _ => k))
  (at level 61, right associativity).

Definition get : M QVSPSocket := fun s => Some (s, s, []).
Definition modify (f : QVSPSocket -> QVSPSocket) : M unit :=
  fun s => Some (tt, f s, []).
Definition tell (o : list Obs) : M unit := fun s => Some (tt, s, o).
Definition emit (g : Signal) : M unit := tell [Emit g].

(** Dereferencing a null pointer. *)
Definition nullDereference {A} : M A := fun _ => None.

Definition when (b : bool) (c : M unit) : M unit := if b then c else ret tt.

(** [controller->op(...)] *)
Definition controller_request (r : Request) : M unit :=
  s <- get ;;
  match controller s with
  | Some _ => tell [Req r]
  | None => nullDereference
  end.

(** [service->op(...)] *)
Definition service_request (r : Request) : M unit :=
  s <- get ;;
  match service s with
  | Some _ => tell [Req r]
  | None => nullDereference
  end.

(** [QIODevice::isOpen()] *)
Definition isOpen (s : QVSPSocket) : bool := openMode s.

(** [QIODevice::setErrorString] *)
Definition setErrorString (str : string) : M unit :=
  modify (set_errorString str).

(** [emit error(_error = e)] *)
Definition emit_error (e : ServiceError) : M unit :=
  modify (set_error e) ;; emit (error e).

(** [emit stateChanged(_state = st)] *)
Definition emit_stateChanged (st : SocketState) : M unit :=
  modify (set_state st) ;; emit (stateChanged st).

(** [QIODevice::open(ReadWrite)]: sets the open mode and clears the error
    string. *)
Definition QIODevice_open : M unit :=
  modify (set_openMode true) ;;
  modify (set_errorString "").

(** [QIODevice::close()]: on an open device, announces [aboutToClose],
    leaves the device not open and clears the error string. *)
Definition QIODevice_close : M unit :=
  s <- get ;;
  when (openMode s)
    (emit aboutToClose ;;
     modify (set_openMode false) ;;
     modify (set_errorString "")).

(** [tr(text).arg(n)] for the two messages with a [%1] place holder. *)
Definition arg1 (before : string) (n : Z) (after : string) : string :=
  String.append before
    (String.append (NilZero.string_of_int (Z.to_int n)) after).

(** ** Member functions *)

(** [QVSPSocket::writeInternal]: writes data to the RX FIFO characteristic *)
Definition writeInternal : M unit :=
  s <- get ;;
  when (cts s)
    (let buffer := firstn (Z.to_nat PACKET_SIZE) (writeBuffer s) in
     when (negb (isEmpty buffer))
       (service_request (writeCharacteristic (rxFifoChar s) buffer) ;;
        emit (bytesWritten (size buffer)) ;;
        modify (fun s' =>
          set_writeBuffer (skipn (List.length buffer) (writeBuffer s')) s'))).

(** *** The lambdas connected in [connectToDevice] *)

(** [QLowEnergyController::error] *)
Definition on_controller_error (controllerErrorString : string) : M unit :=
  setErrorString controllerErrorString ;;
  emit_error OperationError.

(** [QLowEnergyController::connected] *)
Definition on_controller_connected : M unit :=
  controller_request discoverServices.

(** The loop of the [discoveryFinished] lambda: the first VSP service. *)
Fixpoint firstVspService (uuids : list QBluetoothUuid)
  : option (QBluetoothUuid * Manufacturer) :=
  match uuids with
  | [] => None
  | uuid :: rest =>
      match VSP_SERVICE uuid with
      | Some mf => Some (uuid, mf)
      | None => firstVspService rest
      end
  end.

(** [QLowEnergyService::error] *)
Definition on_service_error (e : ServiceError) : M unit :=
  match e with
  | OperationError => setErrorString "Operation error"
  | CharacteristicWriteError => setErrorString "Characteristic write error"
  | DescriptorWriteError => setErrorString "Descriptor write error"
  | UnknownError => setErrorString "Unknown error"
  | CharacteristicReadError => setErrorString "Characteristic read error"
  | DescriptorReadError => setErrorString "Descriptor read error"
  | NoError => ret tt
  end ;;
  emit_error e.

(** [QLowEnergyService::descriptorWritten] *)
Definition on_descriptorWritten (d : QLowEnergyDescriptor)
    (newValue : QByteArray) : M unit :=
  s <- get ;;
  if handle_eqb d (txFifoNotify s) && QByteArray_eqb newValue DESC_NOTIFY_ON
  then (* enable notify on CTS *)
    service_request (writeDescriptor (modemOutNotify s) DESC_NOTIFY_ON)
  else if handle_eqb d (modemOutNotify s)
          && QByteArray_eqb newValue DESC_NOTIFY_ON
  then (* RTS set *)
    service_request (writeCharacteristic (modemInChar s) (MODEM_SET_BIT (m s)))
  else ret tt.

(** [QLowEnergyService::characteristicChanged] *)
Definition on_characteristicChanged (info : QLowEnergyCharacteristic)
    (newValue : QByteArray) : M unit :=
  s <- get ;;
  if handle_eqb info (txFifoChar s) then
    if size (readBuffer s) + size newValue + 1 >? maxBufferSize s then
      (* there is no space left, should not happen due to data loss *)
      service_request
        (writeCharacteristic (modemInChar s) (MODEM_CLEAR_BIT (m s))) ;;
      setErrorString
        (arg1 "Internal read buffer overflow (max. size " (maxBufferSize s)
              "), data packet dropped") ;;
      emit_error CharacteristicReadError
    else
      modify (fun s' => set_readBuffer (readBuffer s' ++ newValue) s') ;;
      s1 <- get ;;
      when (size (readBuffer s1) + PACKET_SIZE + 1 >? maxBufferSize s1)
        (* okay, now the buffer has become full *)
        (service_request
           (writeCharacteristic (modemInChar s1) (MODEM_CLEAR_BIT (m s1)))) ;;
      (* readyRead() emitted only after the handshake completed *)
      when (isOpen s1) (emit readyRead)
  else if handle_eqb info (modemOutChar s) then
    modify (set_cts (QByteArray_eqb newValue (MODEM_SET_BIT (m s)))) ;;
    writeInternal (* CTS set, now write *)
  else ret tt.

(** [QLowEnergyService::characteristicRead] *)
Definition on_characteristicRead (info : QLowEnergyCharacteristic)
    (value : QByteArray) : M unit :=
  s <- get ;;
  when (handle_eqb info (modemOutChar s) && negb (isOpen s))
    (modify (set_cts (QByteArray_eqb value (MODEM_SET_BIT (m s)))) ;;
     (* now finally ready to accept *)
     QIODevice_open ;;
     emit_stateChanged ConnectedState ;;
     emit connected ;;
     s1 <- get ;;
     (* there might be data left from the handshake *)
     when (negb (isEmpty (readBuffer s1))) (emit readyRead)).

(** [QLowEnergyService::characteristicWritten] *)
Definition on_characteristicWritten (info : QLowEnergyCharacteristic)
    (value : QByteArray) : M unit :=
  s <- get ;;
  if handle_eqb info (rxFifoChar s) then writeInternal
  else if handle_eqb info (modemInChar s) then
    modify (set_rts (QByteArray_eqb value (MODEM_SET_BIT (m s)))) ;;
    s1 <- get ;;
    (* first RTS written, now read CTS (we could have missed its
       notification) *)
    when (rts s1 && negb (isOpen s1))
      (service_request (readCharacteristic (modemOutChar s1)))
  else if handle_eqb info (brspModeChar s) then
    (* BlueRadios changed into data mode, now proceed as usual *)
    service_request (writeDescriptor (txFifoNotify s) DESC_NOTIFY_ON)
  else ret tt.

(** The four [connect] calls of the [stateChanged] lambda. *)
Definition connectDetailSlots : M unit :=
  modify (fun s =>
    match service s with
    | Some svc =>
        set_service (Some (mkService (serviceUuid svc) (serviceSlots svc) true)) s
    | None => s
    end).

(** [QLowEnergyService::stateChanged] *)
Definition on_service_stateChanged (newState : ServiceState)
    (details : ServiceDetails) : M unit :=
  match newState with
  | ServiceDiscovered =>
      s0 <- get ;;
      modify (set_rxFifoChar
                (characteristic details (RX_FIFO (CHARACTERISTIC (m s0))))) ;;
      modify (set_txFifoChar
                (characteristic details (TX_FIFO (CHARACTERISTIC (m s0))))) ;;
      modify (set_modemInChar
                (characteristic details (MODEM_IN (CHARACTERISTIC (m s0))))) ;;
      modify (set_modemOutChar
                (characteristic details (MODEM_OUT (CHARACTERISTIC (m s0))))) ;;
      s1 <- get ;;
      if negb (isValid (rxFifoChar s1)) || negb (isValid (txFifoChar s1))
         || negb (isValid (modemInChar s1)) || negb (isValid (modemOutChar s1))
      then
        setErrorString "Cannot retrieve the VSP service characteristics" ;;
        emit_error OperationError
      else
        (* BlueRadios needs to be changed into data mode first *)
        when (Manufacturer_eqb (m s1) BlueRadios)
          (modify (set_brspModeChar
                     (characteristic details BRSP_MODE_CHARACTERISTIC))) ;;
        s2 <- get ;;
        if Manufacturer_eqb (m s2) BlueRadios
           && negb (isValid (brspModeChar s2))
        then
          setErrorString "Cannot retrieve the VSP service characteristics" ;;
          emit_error OperationError
        else
          modify (set_txFifoNotify (descriptor details (txFifoChar s2))) ;;
          modify (set_modemOutNotify (descriptor details (modemOutChar s2))) ;;
          s3 <- get ;;
          if negb (isValid (txFifoNotify s3))
             || negb (isValid (modemOutNotify s3))
          then
            setErrorString "Cannot detect VSP service notifications" ;;
            emit_error OperationError
          else
            connectDetailSlots ;;
            if Manufacturer_eqb (m s3) BlueRadios then
              (* BlueRadios needs to be changed into data mode first *)
              service_request
                (writeCharacteristic (brspModeChar s3) BRSP_MODE_DATA)
            else (* enable notify on TX buffer *)
              service_request (writeDescriptor (txFifoNotify s3) DESC_NOTIFY_ON)
  | _ => ret tt (* wait until the service details have been discovered *)
  end.

(** [QLowEnergyController::discoveryFinished] *)
Definition on_discoveryFinished (services : list QBluetoothUuid) : M unit :=
  (* look for the first VSP service found *)
  match firstVspService services with
  | Some (uuid, mf) =>
      (* this one works, let us enable it *)
      modify (set_service (Some (mkService uuid false false))) ;;
      modify (set_m mf)
  | None => ret tt
  end ;;
  s <- get ;;
  match service s with
  | None =>
      setErrorString "No VSP service found" ;;
      emit_error OperationError
  | Some svc =>
      modify (set_service
                (Some (mkService (serviceUuid svc) true (detailSlots svc)))) ;;
      service_request (discoverDetails (serviceUuid svc))
  end.

(** Delivery of a transport signal: the lambdas connected to it run, if the
    sending object exists and they are connected. *)
Definition controllerExists (s : QVSPSocket) : bool :=
  match controller s with Some _ => true | None => false end.

Definition serviceSlotsConnected (s : QVSPSocket) : bool :=
  match service s with Some svc => serviceSlots svc | None => false end.

Definition detailSlotsConnected (s : QVSPSocket) : bool :=
  match service s with Some svc => detailSlots svc | None => false end.

Definition dispatch (e : Event) : M unit :=
  tell [Recv e] ;;
  s <- get ;;
  match e with
  | controller_error str =>
      when (controllerExists s)
        (on_controller_error str)
  | controller_connected =>
      when (controllerExists s)
        on_controller_connected
  | discoveryFinished services =>
      when (controllerExists s)
        (on_discoveryFinished services)
  | service_error e' =>
      when (serviceSlotsConnected s) (on_service_error e')
  | service_stateChanged newState details =>
      when (serviceSlotsConnected s) (on_service_stateChanged newState details)
  | descriptorWritten d newValue =>
      when (detailSlotsConnected s) (on_descriptorWritten (Some d) newValue)
  | characteristicChanged info newValue =>
      when (detailSlotsConnected s)
        (on_characteristicChanged (Some info) newValue)
  | characteristicRead info value =>
      when (detailSlotsConnected s) (on_characteristicRead (Some info) value)
  | characteristicWritten info value =>
      when (detailSlotsConnected s)
        (on_characteristicWritten (Some info) value)
  end.

(** [QAbstractEventDispatcher::processEvents]: the pending transport events
    are delivered, in order. *)
Fixpoint processEvents (pending : list Event) : M unit :=
  match pending with
  | [] => ret tt
  | e :: rest => dispatch e ;; processEvents rest
  end.

(** Assigning a new controller to the shared pointer [controller] destroys
    the controller held before, and with it the service object created as
    its child: the guarded pointer [service] becomes null. *)
Definition replaceController (c : QLowEnergyController) : M unit :=
  modify (set_controller (Some c)) ;;
  modify (set_service None).

(** [QVSPSocket::connectToDevice] *)
Definition connectToDevice (remoteDeviceInfo : QBluetoothDeviceInfo) : M unit :=
  s <- get ;;
  if isOpen s then ret tt
  else
    replaceController (mkController remoteDeviceInfo) ;;
    controller_request (controller_connectToDevice remoteDeviceInfo) ;;
    emit_stateChanged ConnectingState.

(** [QVSPSocket::close] *)
Definition close : M unit :=
  s <- get ;;
  if negb (isOpen s) then ret tt
  else
    emit_stateChanged ClosingState ;;
    emit readChannelFinished ;;
    controller_request disconnectFromDevice ;;
    QIODevice_close ;;
    (* re-init *)
    modify (set_controller None) ;;
    modify (set_service None) ;;
    modify (set_cts false) ;;
    modify (set_rts false) ;;
    modify (set_readBuffer []) ;;
    modify (set_writeBuffer []) ;;
    emit_stateChanged UnconnectedState ;;
    emit disconnected.

(** [QVSPSocket::disconnectFromService]: synonym for [close] *)
Definition disconnectFromService : M unit := close.

Definition bytesToWrite (s : QVSPSocket) : Z := size (writeBuffer s).

Definition state (s : QVSPSocket) : SocketState := _state s.

(** [QVSPSocket::readData]; [pending] are the transport events waiting in
    the event loop when the call is made.  The result is the count returned
    and the bytes copied to [data]. *)
Definition readData (pending : list Event) (maxlen : Z)
  : M (Z * QByteArray) :=
  s <- get ;;
  if negb (isOpen s) then
    setErrorString "Cannot read while not connected" ;;
    emit_error OperationError ;;
    ret (-1, [])
  else
    (* check for eventual incoming data *)
    processEvents pending ;;
    s1 <- get ;;
    let data := firstn (Z.to_nat maxlen) (readBuffer s1) in
    let res := if maxlen <? 0 then -1 else size data in
    modify (set_readBuffer (skipn (Z.to_nat res) (readBuffer s1))) ;;
    s2 <- get ;;
    when (negb (rts s2)
          && (size (readBuffer s2) + PACKET_SIZE + 1 <=? maxBufferSize s2))
      (* buffer flushed, send may continue *)
      (service_request
         (writeCharacteristic (modemInChar s2) (MODEM_SET_BIT (m s2)))) ;;
    ret (res, data).

(** [QVSPSocket::writeData] *)
Definition writeData (data : QByteArray) : M Z :=
  let len := size data in
  s <- get ;;
  if negb (isOpen s) then
    setErrorString "Cannot write while not connected" ;;
    emit_error OperationError ;;
    ret (-1)
  else if size (writeBuffer s) + len + 1 >? maxBufferSize s then
    setErrorString
      (arg1 "Internal write buffer overflow (max. size " (maxBufferSize s)
            "), write failed") ;;
    emit_error OperationError ;;
    ret (-1)
  else
    modify (set_writeBuffer (writeBuffer s ++ data)) ;;
    writeInternal ;; (* try to write immediately, otherwise after CTS is set *)
    ret len.

(** [QVSPSocket::unsetRTS] *)
Definition unsetRTS : M unit :=
  s <- get ;;
  when (rts s)
    (service_request
       (writeCharacteristic (modemInChar s) (MODEM_CLEAR_BIT (m s)))).

(** [QVSPSocket::setRTS] *)
Definition setRTS : M unit :=
  s <- get ;;
  when (negb (rts s)
        && (size (readBuffer s) + PACKET_SIZE + 1 <=? maxBufferSize s))
    (* buffer flushed, send may continue *)
    (service_request
       (writeCharacteristic (modemInChar s) (MODEM_SET_BIT (m s)))).

(** ** Executions *)

(** What happens to the socket: a member function is called or the event
    loop delivers a transport signal. *)
Inductive Input : Type :=
| call_connectToDevice (remoteDeviceInfo : QBluetoothDeviceInfo)
| call_close
| call_readData (pending : list Event) (maxlen : Z)
| call_writeData (data : QByteArray)
| call_unsetRTS
| call_setRTS
| deliver (e : Event).

Definition step (i : Input) : M unit :=
  match i with
  | call_connectToDevice dev => connectToDevice dev
  | call_close => close
  | call_readData pending maxlen =>
      r <- readData pending maxlen ;; tell [ReadReturned (fst r) (snd r)]
  | call_writeData data => r <- writeData data ;; tell [WriteReturned r]
  | call_unsetRTS => unsetRTS
  | call_setRTS => setRTS
  | deliver e => dispatch e
  end.

Fixpoint run (ins : list Input) : M unit :=
  match ins with
  | [] => ret tt
  | i :: rest => step i ;; run rest
  end.


(** ** Scenarios *)

Definition laird_details : ServiceDetails :=
  [ (RX_FIFO (CHARACTERISTIC Laird), false);
    (TX_FIFO (CHARACTERISTIC Laird), true);
    (MODEM_IN (CHARACTERISTIC Laird), false);
    (MODEM_OUT (CHARACTERISTIC Laird), true) ].

(** The handshake with a Laird device, the peer asserting CTS. *)
Definition laird_handshake : list Input :=
  [ call_connectToDevice "00:16:A4:00:00:01";
    deliver controller_connected;
    deliver (discoveryFinished
               ["00001800-0000-1000-8000-00805f9b34fb";
                "569a1101-b87f-490c-92cb-11ba5ea5167c"]);
    deliver (service_stateChanged ServiceDiscovered laird_details);
    deliver (descriptorWritten (TX_FIFO (CHARACTERISTIC Laird)) DESC_NOTIFY_ON);
    deliver (descriptorWritten (MODEM_OUT (CHARACTERISTIC Laird))
               DESC_NOTIFY_ON);
    deliver (characteristicWritten (MODEM_IN (CHARACTERISTIC Laird))
               (MODEM_SET_BIT Laird));
    deliver (characteristicRead (MODEM_OUT (CHARACTERISTIC Laird))
               (MODEM_SET_BIT Laird)) ].

(** The socket after [laird_handshake]. *)
Definition laird_connected (maxBufferSize : Z) : QVSPSocket :=
  mkQVSPSocket ConnectedState NoError EmptyString true Laird
    (Some (mkController "00:16:A4:00:00:01"))
    (Some (mkService "569a1101-b87f-490c-92cb-11ba5ea5167c" true true))
    (Some (RX_FIFO (CHARACTERISTIC Laird)))
    (Some (TX_FIFO (CHARACTERISTIC Laird)))
    (Some (MODEM_IN (CHARACTERISTIC Laird)))
    (Some (MODEM_OUT (CHARACTERISTIC Laird)))
    None
    (Some (TX_FIFO (CHARACTERISTIC Laird)))
    (Some (MODEM_OUT (CHARACTERISTIC Laird)))
    true true maxBufferSize [] [].

Definition finalState (r : option (unit * QVSPSocket * list Obs))
  : option QVSPSocket :=
  match r with Some (_, s, _) => Some s | None => None end.

Definition trace (r : option (unit * QVSPSocket * list Obs)) : list Obs :=
  match r with Some (_, _, tr) => tr | None => [] end.

(** The packet [writeInternal] takes from the front of a buffer. *)
Definition packet (b : QByteArray) : QByteArray :=
  firstn (Z.to_nat PACKET_SIZE) b.

(** The read buffer is below its bound. *)
Definition bounded (s : QVSPSocket) : Prop :=
  size (readBuffer s) < maxBufferSize s.

(** A 21-byte socket connected to a Laird device that has received one full
    packet. *)
Definition laird_one_packet : list Input :=
  laird_handshake
  ++ [deliver (characteristicChanged (TX_FIFO (CHARACTERISTIC Laird))
                 (repeat x41 20))].

Definition laird_full : QVSPSocket :=
  set_readBuffer (repeat x41 20) (laird_connected 21).

(** The part of [readData] that follows the pumping of the event loop. *)
Definition drain (maxlen : Z) : M (Z * QByteArray) :=
  s1 <- get ;;
  let data := firstn (Z.to_nat maxlen) (readBuffer s1) in
  let res := if maxlen <? 0 then -1 else size data in
  modify (set_readBuffer (skipn (Z.to_nat res) (readBuffer s1))) ;;
  s2 <- get ;;
  when (negb (rts s2)
        && (size (readBuffer s2) + PACKET_SIZE + 1 <=? maxBufferSize s2))
    (service_request
       (writeCharacteristic (modemInChar s2) (MODEM_SET_BIT (m s2)))) ;;
  ret (res, data).

(** The fields of the socket fit together: it is open exactly in
    [ConnectedState], an open socket has its service object, and a service
    object comes with its controller. *)
Definition coherent (s : QVSPSocket) : Prop :=
  (isOpen s = true <-> _state s = ConnectedState)
  /\ (isOpen s = true -> service s <> None)
  /\ (service s <> None -> controller s <> None).

(** The socket [close] leaves behind; [QIODevice::close] has cleared the
    error string. *)
Definition closed (s : QVSPSocket) : QVSPSocket :=
  mkQVSPSocket UnconnectedState (_error s) "" false (m s)
    None None
    (rxFifoChar s) (txFifoChar s) (modemInChar s) (modemOutChar s)
    (brspModeChar s) (txFifoNotify s) (modemOutNotify s)
    false false (maxBufferSize s) [] [].

(** What [close] shows of an open socket, in order. *)
Definition teardown : list Obs :=
  [ Emit (stateChanged ClosingState);
    Emit readChannelFinished;
    Req disconnectFromDevice;
    Emit aboutToClose;
    Emit (stateChanged UnconnectedState);
    Emit disconnected ].

(** A Laird handshake interrupted after the TX FIFO notifications were
    enabled, with one byte already received. *)
Definition laird_connecting : list Input :=
  [ call_connectToDevice "00:16:A4:00:00:01";
    deliver controller_connected;
    deliver (discoveryFinished ["569a1101-b87f-490c-92cb-11ba5ea5167c"]);
    deliver (service_stateChanged ServiceDiscovered laird_details);
    deliver (descriptorWritten (TX_FIFO (CHARACTERISTIC Laird)) DESC_NOTIFY_ON);
    deliver (characteristicChanged (TX_FIFO (CHARACTERISTIC Laird)) [x41]) ].


(** The writes to MODEM_IN that clear and set RTS. *)
Definition rtsClear (s : QVSPSocket) : Obs :=
  Req (writeCharacteristic (modemInChar s) (MODEM_CLEAR_BIT (m s))).

Definition rtsSet (s : QVSPSocket) : Obs :=
  Req (writeCharacteristic (modemInChar s) (MODEM_SET_BIT (m s))).

(** *** Steady state: the socket is connected to a device of one
    manufacturer *)

(** Transport signals that arrive on an established connection: all but the
    two that belong to service discovery. *)
Definition steadyEvent (e : Event) : bool :=
  match e with
  | discoveryFinished _ | service_stateChanged _ _ => false
  | _ => true
  end.

Definition steadyInput (i : Input) : bool :=
  match i with
  | call_close => false
  | call_readData pending _ => forallb steadyEvent pending
  | deliver e => steadyEvent e
  | _ => true
  end.

(** The socket is open on a service of manufacturer [mf] whose
    characteristics it has resolved. *)
Definition connectedTo (mf : Manufacturer) (s : QVSPSocket) : Prop :=
  isOpen s = true
  /\ detailSlotsConnected s = true
  /\ m s = mf
  /\ rxFifoChar s = Some (RX_FIFO (CHARACTERISTIC mf))
  /\ txFifoChar s = Some (TX_FIFO (CHARACTERISTIC mf))
  /\ modemInChar s = Some (MODEM_IN (CHARACTERISTIC mf))
  /\ modemOutChar s = Some (MODEM_OUT (CHARACTERISTIC mf)).

(** The chunk an observation hands to the RX FIFO characteristic, if it
    does. *)
Definition dataWrite (mf : Manufacturer) (o : Obs) : option QByteArray :=
  match o with
  | Req (writeCharacteristic c v) =>
      if handle_eqb c (Some (RX_FIFO (CHARACTERISTIC mf))) then Some v
      else None
  | _ => None
  end.

(** The chunks handed to the RX FIFO characteristic, in order. *)
Fixpoint dataWrites (mf : Manufacturer) (tr : list Obs) : list QByteArray :=
  match tr with
  | [] => []
  | o :: rest =>
      match dataWrite mf o with
      | Some v => v :: dataWrites mf rest
      | None => dataWrites mf rest
      end
  end.

(** The bytes given to the [writeData] calls of an execution, in order. *)
Fixpoint submitted (ins : list Input) : QByteArray :=
  match ins with
  | [] => []
  | call_writeData data :: rest => data ++ submitted rest
  | _ :: rest => submitted rest
  end.

(** The sizes of the [writeData] calls of an execution. *)
Fixpoint writeSizes (ins : list Input) : list Z :=
  match ins with
  | [] => []
  | call_writeData data :: rest => size data :: writeSizes rest
  | _ :: rest => writeSizes rest
  end.

(** The values the [writeData] calls returned. *)
Fixpoint writeReturns (tr : list Obs) : list Z :=
  match tr with
  | [] => []
  | WriteReturned r :: rest => r :: writeReturns rest
  | _ :: rest => writeReturns rest
  end.

(** The transport signals after which [writeInternal] runs: the
    confirmation of a write to RX FIFO and a notification of MODEM_OUT. *)
Definition isConfirmation (mf : Manufacturer) (e : Event) : bool :=
  match e with
  | characteristicWritten info _ =>
      String.eqb info (RX_FIFO (CHARACTERISTIC mf))
  | _ => false
  end.

Definition isCtsNotification (mf : Manufacturer) (e : Event) : bool :=
  match e with
  | characteristicChanged info _ =>
      String.eqb info (MODEM_OUT (CHARACTERISTIC mf))
  | _ => false
  end.

Definition count {A : Type} (p : A -> bool) (l : list A) : nat :=
  List.length (filter p l).

(** How often an input makes [writeInternal] run. *)
Definition triggers (mf : Manufacturer) (i : Input) : nat :=
  match i with
  | call_writeData _ => 1
  | call_readData pending _ =>
      count (fun e => isConfirmation mf e || isCtsNotification mf e) pending
  | deliver e =>
      if isConfirmation mf e || isCtsNotification mf e then 1 else 0
  | _ => 0
  end.

(** Inputs that make [writeInternal] run only on a write confirmation. *)
Definition confirmationGated (mf : Manufacturer) (i : Input) : bool :=
  match i with
  | call_writeData _ => false
  | call_readData pending _ =>
      forallb (fun e => negb (isCtsNotification mf e)) pending
  | deliver e => negb (isCtsNotification mf e)
  | _ => true
  end.

(** At most one write to RX FIFO is outstanding: between two chunks handed
    to the transport, the confirmation of a write to RX FIFO is received. *)
Definition one_write_in_flight (mf : Manufacturer) (tr : list Obs) : Prop :=
  forall pre v1 mid v2 post,
    tr = pre
         ++ Req (writeCharacteristic (Some (RX_FIFO (CHARACTERISTIC mf))) v1)
         :: mid
         ++ Req (writeCharacteristic (Some (RX_FIFO (CHARACTERISTIC mf))) v2)
         :: post ->
    exists v,
      In (Recv (characteristicWritten (RX_FIFO (CHARACTERISTIC mf)) v)) mid.

(** The check behind [one_write_in_flight]: every chunk comes directly
    after the delivery of a write confirmation for RX FIFO. *)
Definition confirmationObs (mf : Manufacturer) (o : Obs) : bool :=
  match o with
  | Recv e => isConfirmation mf e
  | _ => false
  end.

Fixpoint gated (mf : Manufacturer) (prev : bool) (tr : list Obs) : bool :=
  match tr with
  | [] => true
  | o :: rest =>
      (match dataWrite mf o with Some _ => prev | None => true end)
      && gated mf (confirmationObs mf o) rest
  end.

Fixpoint triggerCount (mf : Manufacturer) (ins : list Input) : nat :=
  match ins with
  | [] => 0
  | i :: rest => (triggers mf i + triggerCount mf rest)%nat
  end.

(** [writeData] would accept [data] now. *)
Definition accepts (s : QVSPSocket) (data : QByteArray) : bool :=
  negb (size (writeBuffer s) + size data + 1 >? maxBufferSize s).

(** Summary of a stretch of a steady execution from [s] to [s'] showing
    [o]: the socket stays connected; the chunks written and the write buffer
    left make up the old write buffer and the bytes [acc] accepted meanwhile;
    chunks are at most a packet long and at most [n]; the write calls
    returned [rets]; if [g] holds every chunk follows a confirmation. *)
Definition piece (mf : Manufacturer) (s s' : QVSPSocket) (o : list Obs)
    (acc : QByteArray) (n : nat) (rets : list Z) (g : bool) : Prop :=
  connectedTo mf s'
  /\ maxBufferSize s' = maxBufferSize s
  /\ List.concat (dataWrites mf o) ++ writeBuffer s' = writeBuffer s ++ acc
  /\ Forall (fun c => size c <= PACKET_SIZE) (dataWrites mf o)
  /\ (List.length (dataWrites mf o) <= n)%nat
  /\ writeReturns o = rets
  /\ (g = true -> gated mf false o = true).

(** Two writes on a connected Laird socket: 30 bytes, then 15. *)
Definition two_writes : list Input :=
  [ call_writeData (repeat x61 30); call_writeData (repeat x62 15) ].

(** Two writes in a row right after the Laird handshake. *)
Definition handshake_then_two_writes : list Input :=
  laird_handshake ++ [ call_writeData [x68]; call_writeData [x69] ].

(** *** The socket and a transport that confirms what it is given *)

(** What happens in an exchange: the application calls [writeData], the
    transport confirms the oldest write to RX FIFO it has been given and has
    not confirmed yet, or the device notifies that it has set or cleared
    CTS. *)
Inductive Action : Type :=
| submit (data : QByteArray)
| confirm
| signalCts (asserted : bool).

(** The confirmation of a write of [v] to RX FIFO. *)
Definition confirmation (mf : Manufacturer) (v : QByteArray) : Event :=
  characteristicWritten (RX_FIFO (CHARACTERISTIC mf)) v.

(** The notification of MODEM_OUT that CTS is set, or cleared. *)
Definition ctsNotification (mf : Manufacturer) (asserted : bool) : Event :=
  characteristicChanged (MODEM_OUT (CHARACTERISTIC mf))
    (if asserted then MODEM_SET_BIT mf else MODEM_CLEAR_BIT mf).

(** Runs [c] and hands the chunks it has written to RX FIFO to what
    follows. *)
Definition answered {A : Type} (mf : Manufacturer) (c : M unit)
    (k : list QByteArray -> M A) : M A :=
  fun s =>
    match c s with
    | Some (_, s1, o1) =>
        match k (dataWrites mf o1) s1 with
        | Some (a, s2, o2) => Some (a, s2, o1 ++ o2)
        | None => None
        end
    | None => None
    end.

(** The exchange [acts] between the application, the socket and the
    transport; [outstanding] are the chunks the transport holds and has not
    confirmed, oldest first.  A [confirm] with nothing outstanding is no
    event.  The result is what is outstanding at the end. *)
Fixpoint exchange (mf : Manufacturer) (acts : list Action)
    (outstanding : list QByteArray) : M (list QByteArray) :=
  match acts with
  | [] => ret outstanding
  | submit data :: rest =>
      answered mf (step (call_writeData data))
        (fun new => exchange mf rest (outstanding ++ new))
  | confirm :: rest =>
      match outstanding with
      | [] => exchange mf rest []
      | v :: others =>
          answered mf (dispatch (confirmation mf v))
            (fun new => exchange mf rest (others ++ new))
      end
  | signalCts asserted :: rest =>
      answered mf (dispatch (ctsNotification mf asserted))
        (fun new => exchange mf rest (outstanding ++ new))
  end.

(** The transport confirms what is outstanding, write by write, until
    nothing is, for at most [fuel] confirmations. *)
Fixpoint settle (mf : Manufacturer) (fuel : nat)
    (outstanding : list QByteArray) : M (list QByteArray) :=
  match fuel, outstanding with
  | S fuel', v :: others =>
      answered mf (dispatch (confirmation mf v))
        (fun new => settle mf fuel' (others ++ new))
  | _, _ => ret outstanding
  end.

(** An exchange, after which the transport confirms what is left. *)
Definition transmit (mf : Manufacturer) (acts : list Action) (fuel : nat)
  : M (list QByteArray) :=
  out <- exchange mf acts [] ;; settle mf fuel out.

(** The bytes given to the [writeData] calls of an exchange, and their
    sizes. *)
Fixpoint offered (acts : list Action) : QByteArray :=
  match acts with
  | [] => []
  | submit data :: rest => data ++ offered rest
  | _ :: rest => offered rest
  end.

Fixpoint offeredSizes (acts : list Action) : list Z :=
  match acts with
  | [] => []
  | submit data :: rest => size data :: offeredSizes rest
  | _ :: rest => offeredSizes rest
  end.

(** What the device has said of CTS last, [asserted] before the
    exchange. *)
Fixpoint ctsAfter (acts : list Action) (asserted : bool) : bool :=
  match acts with
  | [] => asserted
  | signalCts b :: rest => ctsAfter rest b
  | _ :: rest => ctsAfter rest asserted
  end.

(** What one step of an exchange does, from [s] to [s'] showing [o]: the
    socket stays connected; the chunks written and the write buffer left
    make up the old write buffer and the [data] accepted; chunks are at most
    a packet long; and if CTS is set afterwards, either nothing is queued
    or a chunk was written. *)
Definition sent (mf : Manufacturer) (s s' : QVSPSocket) (o : list Obs)
    (data : QByteArray) (rets : list Z) : Prop :=
  connectedTo mf s'
  /\ maxBufferSize s' = maxBufferSize s
  /\ writeReturns o = rets
  /\ List.concat (dataWrites mf o) ++ writeBuffer s' = writeBuffer s ++ data
  /\ Forall (fun c => size c <= PACKET_SIZE) (dataWrites mf o)
  /\ (cts s' = true -> writeBuffer s' = [] \/ dataWrites mf o <> []).

(** What is outstanding accounts for what is queued: while CTS is set,
    bytes wait in the write buffer only if a write to RX FIFO is
    unconfirmed. *)
Definition inFlight (mf : Manufacturer) (s : QVSPSocket)
    (outstanding : list QByteArray) : Prop :=
  connectedTo mf s
  /\ (cts s = true -> writeBuffer s = [] \/ outstanding <> []).

(** The device clears CTS, 30 bytes and 15 are written, one write is
    confirmed though none is outstanding, and the device sets CTS. *)
Definition two_writes_confirmed : list Action :=
  [ signalCts false; submit (repeat x61 30); submit (repeat x62 15);
    confirm; signalCts true ].

(** A connected Laird socket with 50 bytes queued, and two write
    confirmations. *)
Definition laird_queued : QVSPSocket :=
  set_writeBuffer (repeat x61 50) (laird_connected 4096).

Definition two_confirmations : list Input :=
  [ deliver (characteristicWritten (RX_FIFO (CHARACTERISTIC Laird))
               (repeat x61 20));
    deliver (characteristicWritten (RX_FIFO (CHARACTERISTIC Laird))
               (repeat x61 20)) ].

(** *** The BlueRadios handshake *)

(** The write that switches a BlueRadios device into data mode. *)
Definition modeSwitch : Obs :=
  Req (writeCharacteristic (Some BRSP_MODE_CHARACTERISTIC) BRSP_MODE_DATA).

(** The write that enables notifications on TX FIFO. *)
Definition notifyOnTxFifo (mf : Manufacturer) : Obs :=
  Req (writeDescriptor (Some (TX_FIFO (CHARACTERISTIC mf))) DESC_NOTIFY_ON).

Definition isRecv (o : Obs) : bool :=
  match o with Recv _ => true | _ => false end.

(** In a trace, notifications on the BlueRadios TX FIFO are enabled only in
    the slot run for a write confirmation of the mode characteristic, and
    the mode switch was written before that confirmation was received. *)
Definition modeSwitchFirst (tr : list Obs) : Prop :=
  forall pre post,
    tr = pre ++ notifyOnTxFifo BlueRadios :: post ->
    exists pre1 v outs,
      pre = pre1 ++ Recv (characteristicWritten BRSP_MODE_CHARACTERISTIC v)
                 :: outs
      /\ forallb (fun o => negb (isRecv o)) outs = true
      /\ In modeSwitch pre1.

(** The handles the socket holds are those of the tables. *)
Definition handlesResolved (s : QVSPSocket) : Prop :=
  (brspModeChar s = None \/ brspModeChar s = Some BRSP_MODE_CHARACTERISTIC)
  /\ (modemOutNotify s = None
      \/ exists mf, modemOutNotify s = Some (MODEM_OUT (CHARACTERISTIC mf)))
  /\ (detailSlotsConnected s = true ->
      txFifoNotify s = None
      \/ txFifoNotify s = Some (TX_FIFO (CHARACTERISTIC (m s)))).

Definition handshakeInv (s : QVSPSocket) (tr : list Obs) : Prop :=
  handlesResolved s
  /\ (detailSlotsConnected s = true -> m s = BlueRadios -> In modeSwitch tr)
  /\ modeSwitchFirst tr.

Definition blueradios_details : ServiceDetails :=
  [ (RX_FIFO (CHARACTERISTIC BlueRadios), false);
    (TX_FIFO (CHARACTERISTIC BlueRadios), true);
    (MODEM_IN (CHARACTERISTIC BlueRadios), false);
    (MODEM_OUT (CHARACTERISTIC BlueRadios), true);
    (BRSP_MODE_CHARACTERISTIC, false) ].

(** The handshake with a BlueRadios device up to the enabling of the TX FIFO
    notifications. *)
Definition blueradios_handshake : list Input :=
  [ call_connectToDevice "EC:FE:7E:00:00:01";
    deliver controller_connected;
    deliver (discoveryFinished ["da2b84f1-6279-48de-bdc0-afbea0226079"]);
    deliver (service_stateChanged ServiceDiscovered blueradios_details);
    deliver (characteristicWritten BRSP_MODE_CHARACTERISTIC BRSP_MODE_DATA) ].

(** The discovered service offers everything the handshake with a device of
    manufacturer [mf] resolves. *)
Definition offers (details : ServiceDetails) (mf : Manufacturer) : bool :=
  isValid (characteristic details (RX_FIFO (CHARACTERISTIC mf)))
  && isValid (characteristic details (TX_FIFO (CHARACTERISTIC mf)))
  && isValid (characteristic details (MODEM_IN (CHARACTERISTIC mf)))
  && isValid (characteristic details (MODEM_OUT (CHARACTERISTIC mf)))
  && isValid (descriptor details
                (characteristic details (TX_FIFO (CHARACTERISTIC mf))))
  && isValid (descriptor details
                (characteristic details (MODEM_OUT (CHARACTERISTIC mf))))
  && match mf with
     | BlueRadios =>
         isValid (characteristic details BRSP_MODE_CHARACTERISTIC)
     | Laird => true
     end.

(** *** Further properties *)

(** The error and the state that the signals emitted so far announce. *)
Fixpoint lastError (e0 : ServiceError) (tr : list Obs) : ServiceError :=
  match tr with
  | [] => e0
  | Emit (error e) :: rest => lastError e rest
  | _ :: rest => lastError e0 rest
  end.

Fixpoint lastState (st0 : SocketState) (tr : list Obs) : SocketState :=
  match tr with
  | [] => st0
  | Emit (stateChanged st) :: rest => lastState st rest
  | _ :: rest => lastState st0 rest
  end.

(** A connected Laird socket whose peer cleared CTS, and a write of 30
    bytes. *)
Definition laird_cts_cleared_write : list Input :=
  laird_handshake
  ++ [ deliver (characteristicChanged (MODEM_OUT (CHARACTERISTIC Laird))
                  (MODEM_CLEAR_BIT Laird));
       call_writeData (repeat x61 30) ].


(** A socket whose discovery has found the Laird service, and a Laird
    service that cannot notify on MODEM_OUT. *)
Definition laird_discovering : QVSPSocket :=
  set_service (Some (mkService "569a1101-b87f-490c-92cb-11ba5ea5167c" true false))
    (set_controller (Some (mkController "00:16:A4:00:00:01"))
       (set_state ConnectingState QVSPSocket_default)).

Definition laird_details_no_cts_notify : ServiceDetails :=
  [ (RX_FIFO (CHARACTERISTIC Laird), false);
    (TX_FIFO (CHARACTERISTIC Laird), true);
    (MODEM_IN (CHARACTERISTIC Laird), false);
    (MODEM_OUT (CHARACTERISTIC Laird), false) ].

(** *** The life cycle of a connection *)

(** The phases of a connection, as the signals show them.  [Idle],
    [Attempting] and [Established] are the phases in which the socket rests
    between calls and deliveries; in each of the others one signal is owed,
    and the next observation has to be that signal. *)
Inductive Phase : Type :=
| Idle         (* unconnected *)
| Attempting   (* ConnectingState announced *)
| Opening      (* ConnectedState announced, connected owed *)
| Established  (* connected emitted *)
| Closing      (* ClosingState announced, readChannelFinished owed *)
| Draining     (* readChannelFinished emitted, aboutToClose owed *)
| Shut         (* aboutToClose emitted, UnconnectedState owed *)
| Leaving.     (* UnconnectedState announced, disconnected owed *)

(** The phase after an observation, if the observation can be made in the
    phase. *)
Definition advance (p : Phase) (o : Obs) : option Phase :=
  match p with
  | Idle =>
      match o with
      | Emit (stateChanged ConnectingState) => Some Attempting
      | Emit (error _) => Some Idle
      | Emit _ => None
      | _ => Some Idle
      end
  | Attempting =>
      match o with
      | Emit (stateChanged ConnectingState) => Some Attempting
      | Emit (stateChanged ConnectedState) => Some Opening
      | Emit (error _) => Some Attempting
      | Emit _ => None
      | _ => Some Attempting
      end
  | Opening =>
      match o with
      | Emit connected => Some Established
      | _ => None
      end
  | Established =>
      match o with
      | Emit (stateChanged ClosingState) => Some Closing
      | Emit readyRead | Emit (bytesWritten _) | Emit (error _) =>
          Some Established
      | Emit _ => None
      | _ => Some Established
      end
  | Closing =>
      match o with
      | Emit readChannelFinished => Some Draining
      | _ => None
      end
  | Draining =>
      match o with
      | Req disconnectFromDevice => Some Draining
      | Emit aboutToClose => Some Shut
      | _ => None
      end
  | Shut =>
      match o with
      | Emit (stateChanged UnconnectedState) => Some Leaving
      | _ => None
      end
  | Leaving =>
      match o with
      | Emit disconnected => Some Idle
      | _ => None
      end
  end.

(** The phase a trace leads to from phase [p], if every observation of the
    trace can be made in its turn. *)
Fixpoint phases (p : Phase) (tr : list Obs) : option Phase :=
  match tr with
  | [] => Some p
  | o :: rest =>
      match advance p o with
      | Some q => phases q rest
      | None => None
      end
  end.

(** The phase in which a socket in state [st] rests. *)
Definition restingPhase (st : SocketState) : Phase :=
  match st with
  | ConnectingState => Attempting
  | ConnectedState => Established
  | _ => Idle
  end.

(** What holds of the socket between calls and deliveries. *)
Definition atRest (s : QVSPSocket) : Prop :=
  (isOpen s = true <-> _state s = ConnectedState)
  /\ (isOpen s = false -> writeBuffer s = [])
  /\ (_state s = UnconnectedState \/ _state s = ConnectingState
      \/ _state s = ConnectedState)
  /\ (service s <> None -> controller s <> None)
  /\ (controller s <> None -> _state s <> UnconnectedState).


(** *** The handshake *)

(** The socket is in the middle of the handshake with a device of
    manufacturer [mf]: not open yet, the detail slots connected, the
    characteristics and the notification descriptors resolved. *)
Definition handshaking (mf : Manufacturer) (s : QVSPSocket) : Prop :=
  isOpen s = false
  /\ detailSlotsConnected s = true
  /\ m s = mf
  /\ rxFifoChar s = Some (RX_FIFO (CHARACTERISTIC mf))
  /\ txFifoChar s = Some (TX_FIFO (CHARACTERISTIC mf))
  /\ modemInChar s = Some (MODEM_IN (CHARACTERISTIC mf))
  /\ modemOutChar s = Some (MODEM_OUT (CHARACTERISTIC mf))
  /\ txFifoNotify s = Some (TX_FIFO (CHARACTERISTIC mf))
  /\ modemOutNotify s = Some (MODEM_OUT (CHARACTERISTIC mf)).

(** The calls and transport signals of a handshake with a device of
    manufacturer [mf] that answers every request: [services] is what the
    discovery reports, [details] the discovered service, [ctsValue] the
    value read from MODEM_OUT. *)
Definition handshake (dev : QBluetoothDeviceInfo)
    (services : list QBluetoothUuid) (details : ServiceDetails)
    (mf : Manufacturer) (ctsValue : QByteArray) : list Input :=
  [ call_connectToDevice dev;
    deliver controller_connected;
    deliver (discoveryFinished services);
    deliver (service_stateChanged ServiceDiscovered details) ]
  ++ match mf with
     | BlueRadios =>
         [deliver (characteristicWritten BRSP_MODE_CHARACTERISTIC
                     BRSP_MODE_DATA)]
     | Laird => []
     end
  ++ [ deliver (descriptorWritten (TX_FIFO (CHARACTERISTIC mf))
                  DESC_NOTIFY_ON);
       deliver (descriptorWritten (MODEM_OUT (CHARACTERISTIC mf))
                  DESC_NOTIFY_ON);
       deliver (characteristicWritten (MODEM_IN (CHARACTERISTIC mf))
                  (MODEM_SET_BIT mf));
       deliver (characteristicRead (MODEM_OUT (CHARACTERISTIC mf))
                  ctsValue) ].

(** What the handshake shows; [dataLeft] tells whether the read buffer
    holds data when the socket opens. *)
Definition handshakeTrace (dev : QBluetoothDeviceInfo)
    (services : list QBluetoothUuid) (details : ServiceDetails)
    (uuid : QBluetoothUuid) (mf : Manufacturer) (ctsValue : QByteArray)
    (dataLeft : bool) : list Obs :=
  [ Req (controller_connectToDevice dev);
    Emit (stateChanged ConnectingState);
    Recv controller_connected;
    Req discoverServices;
    Recv (discoveryFinished services);
    Req (discoverDetails uuid);
    Recv (service_stateChanged ServiceDiscovered details) ]
  ++ match mf with
     | BlueRadios =>
         [ modeSwitch;
           Recv (characteristicWritten BRSP_MODE_CHARACTERISTIC
                   BRSP_MODE_DATA) ]
     | Laird => []
     end
  ++ [ notifyOnTxFifo mf;
       Recv (descriptorWritten (TX_FIFO (CHARACTERISTIC mf)) DESC_NOTIFY_ON);
       Req (writeDescriptor (Some (MODEM_OUT (CHARACTERISTIC mf)))
              DESC_NOTIFY_ON);
       Recv (descriptorWritten (MODEM_OUT (CHARACTERISTIC mf))
               DESC_NOTIFY_ON);
       Req (writeCharacteristic (Some (MODEM_IN (CHARACTERISTIC mf)))
              (MODEM_SET_BIT mf));
       Recv (characteristicWritten (MODEM_IN (CHARACTERISTIC mf))
               (MODEM_SET_BIT mf));
       Req (readCharacteristic (Some (MODEM_OUT (CHARACTERISTIC mf))));
       Recv (characteristicRead (MODEM_OUT (CHARACTERISTIC mf)) ctsValue);
       Emit (stateChanged ConnectedState);
       Emit connected ]
  ++ (if dataLeft then [Emit readyRead] else []).

(** *** The inbound stream *)

(** The bytes the device has notified on TX FIFO, and the bytes [readData]
    has handed out, in the order of the trace. *)
Fixpoint arrived (mf : Manufacturer) (tr : list Obs) : QByteArray :=
  match tr with
  | [] => []
  | Recv (characteristicChanged info newValue) :: rest =>
      if String.eqb info (TX_FIFO (CHARACTERISTIC mf))
      then newValue ++ arrived mf rest
      else arrived mf rest
  | _ :: rest => arrived mf rest
  end.

Fixpoint readOut (tr : list Obs) : QByteArray :=
  match tr with
  | [] => []
  | ReadReturned _ data :: rest => data ++ readOut rest
  | _ :: rest => readOut rest
  end.

(** The signal of a dropped packet. *)
Definition readOverflow : Obs := Emit (error CharacteristicReadError).

(** Reads interleaved with notifications, some of them delivered by the
    event loop that [readData] pumps. *)
Definition laird_reads : list Input :=
  [ deliver (characteristicChanged (TX_FIFO (CHARACTERISTIC Laird))
               [x41; x42; x43]);
    call_readData
      [characteristicChanged (TX_FIFO (CHARACTERISTIC Laird)) [x44; x45]] 4;
    deliver (characteristicChanged (MODEM_OUT (CHARACTERISTIC Laird))
               (MODEM_CLEAR_BIT Laird));
    call_readData [] (-1);
    call_readData [] 10 ].

(** *** Flow control of the outbound stream *)

(** Inputs that bring no news of CTS: no notification of MODEM_OUT is
    delivered, neither directly nor by the event loop inside [readData]. *)
Definition noCtsNews (mf : Manufacturer) (i : Input) : bool :=
  match i with
  | deliver e => negb (isCtsNotification mf e)
  | call_readData pending _ =>
      forallb (fun e => negb (isCtsNotification mf e)) pending
  | _ => true
  end.

(** Writes, a stray write confirmation and a read on a socket whose peer
    has cleared CTS. *)
Definition laird_writes_held : list Input :=
  [ call_writeData (repeat x61 30);
    deliver (characteristicWritten (RX_FIFO (CHARACTERISTIC Laird))
               (repeat x61 20));
    call_readData
      [characteristicWritten (RX_FIFO (CHARACTERISTIC Laird)) []] 5;
    call_writeData (repeat x62 5) ].

(** The number of notifications of TX FIFO received and of [readyRead]
    signals emitted. *)
Fixpoint notifications (mf : Manufacturer) (tr : list Obs) : nat :=
  match tr with
  | [] => 0
  | Recv (characteristicChanged info _) :: rest =>
      if String.eqb info (TX_FIFO (CHARACTERISTIC mf))
      then S (notifications mf rest)
      else notifications mf rest
  | _ :: rest => notifications mf rest
  end.

Fixpoint readyReads (tr : list Obs) : nat :=
  match tr with
  | [] => 0
  | Emit readyRead :: rest => S (readyReads rest)
  | _ :: rest => readyReads rest
  end.

(** *** One connection attempt at a time *)

(** Every [connectToDevice] of the execution [ins] from [s] is called in
    [UnconnectedState], or on an open socket, where it does nothing: no
    attempt is started while an earlier one is under way.  In such an
    execution the service object the socket holds was created by its
    current controller. *)
Fixpoint connectsWhenUnconnected (ins : list Input) (s : QVSPSocket) : bool :=
  match ins with
  | [] => true
  | i :: rest =>
      match i with
      | call_connectToDevice _ =>
          match state s with
          | UnconnectedState => true
          | _ => isOpen s
          end
      | _ => true
      end
      && match step i s with
         | Some (_, s1, _) => connectsWhenUnconnected rest s1
         | None => true
         end
  end.

(** The socket holds a service object only together with its controller
    and never in [UnconnectedState]; without a service object nothing was
    received and RTS is not set. *)
Definition unserviced (s : QVSPSocket) : Prop :=
  (service s = None -> readBuffer s = [] /\ rts s = false)
  /\ (service s <> None -> controller s <> None)
  /\ (controller s <> None -> _state s <> UnconnectedState).

(** *** The writes to MODEM_IN *)







(** * Properties *)

Example laird_handshake_connects :
  finalState (run laird_handshake QVSPSocket_default)
  = Some (laird_connected 4096).
Proof. vm_compute. reflexivity. Qed.

(** ** Equations of the member functions *)

Arguments firstn : simpl never.
Arguments skipn : simpl never.
Arguments Z.to_nat : simpl never.
Arguments Z.of_nat : simpl never.
Arguments String.eqb : simpl never.
Arguments arg1 : simpl never.

Ltac unfold_monad :=
  unfold emit_error, emit_stateChanged, setErrorString, QIODevice_open,
    QIODevice_close, replaceController, service_request, controller_request,
    emit, when,
    bind, get, modify, tell, ret, nullDereference in *.

Lemma writeInternal_eq (s : QVSPSocket) :
  writeInternal s =
  let buffer := firstn (Z.to_nat PACKET_SIZE) (writeBuffer s) in
  if cts s && negb (isEmpty buffer) then
    match service s with
    | Some _ =>
        Some (tt, set_writeBuffer (skipn (List.length buffer) (writeBuffer s)) s,
              [Req (writeCharacteristic (rxFifoChar s) buffer);
               Emit (bytesWritten (size buffer))])
    | None => None
    end
  else Some (tt, s, []).
Proof.
  unfold writeInternal. unfold_monad. cbn.
  destruct (cts s); cbn; [|reflexivity].
  destruct (isEmpty _); cbn; [reflexivity|].
  destruct (service s); reflexivity.
Qed.

Lemma size_nonneg (b : QByteArray) : 0 <= size b.
Proof. unfold size. lia. Qed.

Lemma size_app (a b : QByteArray) : size (a ++ b) = size a + size b.
Proof. unfold size. rewrite length_app. lia. Qed.

Lemma isEmpty_size (b : QByteArray) : isEmpty b = true <-> size b = 0.
Proof.
  destruct b; unfold size; cbn [isEmpty List.length]; split;
    intros; try reflexivity; try discriminate; lia.
Qed.

Lemma gtb_true (a b : Z) : a > b -> (a >? b) = true.
Proof. intros. apply Z.gtb_lt. lia. Qed.

Lemma gtb_false (a b : Z) : a <= b -> (a >? b) = false.
Proof. intros. rewrite Z.gtb_ltb. apply Z.ltb_ge. lia. Qed.

Lemma leb_true (a b : Z) : a <= b -> (a <=? b) = true.
Proof. intros. apply Z.leb_le. lia. Qed.


Lemma packet_size (b : QByteArray) : size (packet b) <= PACKET_SIZE.
Proof.
  unfold packet, size, PACKET_SIZE. rewrite length_firstn. lia.
Qed.

Lemma packet_rest (b : QByteArray) :
  packet b ++ skipn (List.length (packet b)) b = b.
Proof.
  unfold packet. rewrite length_firstn.
  destruct (Nat.le_ge_cases (Z.to_nat PACKET_SIZE) (List.length b)) as [H|H].
  - rewrite Nat.min_l by exact H. apply firstn_skipn.
  - rewrite Nat.min_r by exact H.
    rewrite firstn_all2 by exact H. rewrite skipn_all. apply app_nil_r.
Qed.

Lemma writeData_eq (data : QByteArray) (s : QVSPSocket) :
  writeData data s =
  if negb (isOpen s) then
    Some (-1,
          set_error OperationError
            (set_errorString "Cannot write while not connected" s),
          [Emit (error OperationError)])
  else if size (writeBuffer s) + size data + 1 >? maxBufferSize s then
    Some (-1,
          set_error OperationError
            (set_errorString
               (arg1 "Internal write buffer overflow (max. size "
                     (maxBufferSize s) "), write failed") s),
          [Emit (error OperationError)])
  else
    match writeInternal (set_writeBuffer (writeBuffer s ++ data) s) with
    | Some (_, s', out) => Some (size data, s', out)
    | None => None
    end.
Proof.
  unfold writeData. unfold_monad.
  destruct (negb (isOpen s)); [reflexivity|].
  destruct (_ >? _); [reflexivity|].
  destruct (writeInternal _) as [[[[] s'] out]|]; [|reflexivity].
  rewrite app_nil_r. reflexivity.
Qed.

(** ** C5: capacity check of [writeData] *)

(** C5. A [writeData] of [size data] bytes on an open socket: when
    [size writeBuffer + size data + 1 > maxBufferSize] the call returns [-1],
    emits [error] with the write-overflow message and leaves [writeBuffer]
    exactly as it was; otherwise every byte is appended, the call returns
    [size data], and the only bytes that leave the buffer again are the one
    packet that [writeInternal] hands to the transport at once when CTS is
    set.  With the default size 4096 a write of 4097 bytes is rejected. *)
Theorem writeData_capacity (s : QVSPSocket) (data : QByteArray) :
  isOpen s = true ->
  (size (writeBuffer s) + size data + 1 > maxBufferSize s ->
   exists s',
     writeData data s = Some (-1, s', [Emit (error OperationError)])
     /\ writeBuffer s' = writeBuffer s
     /\ _error s' = OperationError
     /\ errorString s'
        = arg1 "Internal write buffer overflow (max. size " (maxBufferSize s)
               "), write failed"
     /\ s' = set_error (_error s') (set_errorString (errorString s') s))
  /\
  (size (writeBuffer s) + size data + 1 <= maxBufferSize s ->
   service s <> None ->
   let queued := writeBuffer s ++ data in
   let sent := if cts s then packet queued else [] in
   writeData data s
   = Some (size data,
           set_writeBuffer (skipn (List.length sent) queued) s,
           if isEmpty sent then []
           else [Req (writeCharacteristic (rxFifoChar s) sent);
                 Emit (bytesWritten (size sent))])
   /\ sent ++ skipn (List.length sent) queued = writeBuffer s ++ data)
  /\
  (maxBufferSize s = 4096 -> size data = 4096 + 1 ->
   exists s',
     writeData data s = Some (-1, s', [Emit (error OperationError)])
     /\ writeBuffer s' = writeBuffer s).
Proof.
  intros Hopen.
  assert (Hover : size (writeBuffer s) + size data + 1 > maxBufferSize s ->
     exists s',
       writeData data s = Some (-1, s', [Emit (error OperationError)])
       /\ writeBuffer s' = writeBuffer s
       /\ _error s' = OperationError
       /\ errorString s'
          = arg1 "Internal write buffer overflow (max. size "
                 (maxBufferSize s) "), write failed"
       /\ s' = set_error (_error s') (set_errorString (errorString s') s)).
  { intros Hgt. rewrite writeData_eq, Hopen. cbn [negb].
    rewrite gtb_true by lia.
    eexists. split; [reflexivity|]. repeat split. }
  split; [exact Hover|]. split.
  - intros Hfit Hsvc queued sent.
    rewrite writeData_eq, Hopen. cbn [negb].
    rewrite gtb_false by lia.
    rewrite writeInternal_eq. cbn.
    fold queued. fold (packet queued).
    subst sent. destruct (cts s); cbn.
    + destruct (isEmpty (packet queued)) eqn:E; cbn.
      * apply isEmpty_size in E. destruct (packet queued); [|discriminate E].
        split; reflexivity.
      * destruct (service s); [|congruence].
        split; [reflexivity|]. apply packet_rest.
    + split; reflexivity.
  - intros Hmax Hlen.
    destruct Hover as [s' [H1 [H2 _]]].
    + pose proof (size_nonneg (writeBuffer s)). lia.
    + exists s'. split; assumption.
Qed.

Lemma writeData_capacity_witness :
  isOpen (laird_connected 4096) = true
  /\ (exists s',
        writeData (repeat x41 4097) (laird_connected 4096)
        = Some (-1, s', [Emit (error OperationError)])
        /\ writeBuffer s' = writeBuffer (laird_connected 4096))
  /\ writeData [x68; x69] (laird_connected 4096)
     = Some (2, laird_connected 4096,
             [Req (writeCharacteristic
                     (Some (RX_FIFO (CHARACTERISTIC Laird))) [x68; x69]);
              Emit (bytesWritten 2)]).
Proof.
  split; [reflexivity|].
  destruct (writeData_capacity (laird_connected 4096) (repeat x41 4097)
              eq_refl) as [_ [_ H3]].
  destruct (writeData_capacity (laird_connected 4096) [x68; x69]
              eq_refl) as [_ [H2 _]].
  split.
  - apply H3; reflexivity.
  - apply H2; [vm_compute; discriminate | discriminate].
Defined.

(** ** [close], [connectToDevice] and the manual flow control *)

Lemma close_not_open (s : QVSPSocket) :
  isOpen s = false -> close s = Some (tt, s, []).
Proof.
  intros H. unfold close. unfold_monad. rewrite H. reflexivity.
Qed.

Lemma close_open (s : QVSPSocket) :
  isOpen s = true -> controller s <> None ->
  close s = Some (tt, closed s, teardown).
Proof.
  intros H Hc. unfold close. unfold_monad. rewrite H. cbn.
  destruct (controller s); [|congruence]. cbn.
  unfold isOpen in H. rewrite H. reflexivity.
Qed.

Lemma connectToDevice_not_open (dev : QBluetoothDeviceInfo) (s : QVSPSocket) :
  isOpen s = false ->
  connectToDevice dev s
  = Some (tt,
          set_state ConnectingState
            (set_service None (set_controller (Some (mkController dev)) s)),
          [Req (controller_connectToDevice dev);
           Emit (stateChanged ConnectingState)]).
Proof.
  intros H. unfold connectToDevice. unfold_monad. rewrite H. reflexivity.
Qed.

Lemma unsetRTS_eq (s : QVSPSocket) :
  unsetRTS s =
  if rts s then
    match service s with
    | Some _ =>
        Some (tt, s,
              [Req (writeCharacteristic (modemInChar s)
                      (MODEM_CLEAR_BIT (m s)))])
    | None => None
    end
  else Some (tt, s, []).
Proof.
  unfold unsetRTS. unfold_monad.
  destruct (rts s); [|reflexivity]. destruct (service s); reflexivity.
Qed.

Lemma setRTS_eq (s : QVSPSocket) :
  setRTS s =
  if negb (rts s)
     && (size (readBuffer s) + PACKET_SIZE + 1 <=? maxBufferSize s)
  then
    match service s with
    | Some _ =>
        Some (tt, s,
              [Req (writeCharacteristic (modemInChar s)
                      (MODEM_SET_BIT (m s)))])
    | None => None
    end
  else Some (tt, s, []).
Proof.
  unfold setRTS. unfold_monad.
  destruct (_ && _); [|reflexivity]. destruct (service s); reflexivity.
Qed.

Lemma connectToDevice_open (dev : QBluetoothDeviceInfo) (s : QVSPSocket) :
  isOpen s = true -> connectToDevice dev s = Some (tt, s, []).
Proof.
  intros H. unfold connectToDevice. unfold_monad. rewrite H. reflexivity.
Qed.

(** C10. [connectToDevice] on a socket that is already open returns at
    once: nothing is requested from the transport, no signal (so no error)
    is emitted, and the socket, with its state, flags and both buffers, is
    what it was. *)
Theorem connectToDevice_open_noop
    (remoteDeviceInfo : QBluetoothDeviceInfo) (s : QVSPSocket) :
  isOpen s = true ->
  connectToDevice remoteDeviceInfo s = Some (tt, s, []).
Proof. apply connectToDevice_open. Qed.

Lemma connectToDevice_open_noop_witness :
  isOpen (laird_connected 4096) = true
  /\ connectToDevice "00:16:A4:00:00:02" (laird_connected 4096)
     = Some (tt, laird_connected 4096, []).
Proof.
  split; [reflexivity|].
  apply (connectToDevice_open_noop "00:16:A4:00:00:02" (laird_connected 4096)).
  reflexivity.
Defined.

(** ** Case analysis of an execution step *)

Ltac unfold_slots :=
  unfold dispatch, on_controller_error, on_controller_connected,
    on_discoveryFinished, on_service_error, on_service_stateChanged,
    on_descriptorWritten, on_characteristicChanged, on_characteristicRead,
    on_characteristicWritten, connectDetailSlots, writeInternal in *.

Ltac unfold_calls :=
  unfold step, connectToDevice, close, writeData, unsetRTS, setRTS,
    writeInternal in *.

(** Splits the computation in hypothesis [H : c s = Some _] into its paths. *)
Ltac innermost c :=
  lazymatch c with
  | context [match ?d with _ => _ end] => innermost d
  | _ => c
  end.

Ltac split_paths H :=
  repeat (cbn in H;
    lazymatch type of H with
    | context [match ?c with _ => _ end] =>
        let d := innermost c in destruct d eqn:?
    end);
  cbn in H; try discriminate H.

Ltac finish_path H :=
  match type of H with
  | Some _ = Some _ => inversion H; subst; clear H
  end.

Ltac zbool :=
  repeat match goal with
  | H : (_ >? _) = true |- _ => apply Z.gtb_lt in H
  | H : (_ >? _) = false |- _ => rewrite Z.gtb_ltb in H; apply Z.ltb_ge in H
  | H : (_ <=? _) = true |- _ => apply Z.leb_le in H
  | H : (_ <=? _) = false |- _ => apply Z.leb_gt in H
  | H : (_ <? _) = true |- _ => apply Z.ltb_lt in H
  | H : (_ <? _) = false |- _ => apply Z.ltb_ge in H
  end.

Lemma size_skipn (n : nat) (b : QByteArray) : size (skipn n b) <= size b.
Proof. unfold size. rewrite length_skipn. lia. Qed.

(** ** C2: the read buffer stays below [maxBufferSize] *)

Lemma dispatch_bounded (e : Event) (s s' : QVSPSocket) (o : list Obs) :
  bounded s -> dispatch e s = Some (tt, s', o) ->
  bounded s' /\ maxBufferSize s' = maxBufferSize s.
Proof.
  unfold bounded. intros Hb H.
  destruct e; unfold_slots; unfold_monad; split_paths H; finish_path H; cbn.
  all: try (split; [assumption|reflexivity]).
  all: zbool; rewrite size_app; split; [lia|reflexivity].
Qed.

Lemma processEvents_bounded (pending : list Event) :
  forall (s s' : QVSPSocket) (o : list Obs),
  bounded s -> processEvents pending s = Some (tt, s', o) ->
  bounded s' /\ maxBufferSize s' = maxBufferSize s.
Proof.
  induction pending as [|e rest IH]; intros s s' o Hb H; cbn in H.
  - inversion H; subst. split; [assumption|reflexivity].
  - unfold bind in H.
    destruct (dispatch e s) as [[[[] s1] o1]|] eqn:E1; [|discriminate].
    destruct (processEvents rest s1) as [[[[] s2] o2]|] eqn:E2;
      [|discriminate].
    inversion H; subst.
    destruct (dispatch_bounded _ _ _ _ Hb E1) as [Hb1 Hm1].
    destruct (IH _ _ _ Hb1 E2) as [Hb2 Hm2].
    split; [assumption|congruence].
Qed.

Lemma readData_bounded (pending : list Event) (maxlen : Z)
    (s s' : QVSPSocket) (r : Z * QByteArray) (o : list Obs) :
  bounded s -> readData pending maxlen s = Some (r, s', o) ->
  bounded s' /\ maxBufferSize s' = maxBufferSize s.
Proof.
  intros Hb H. unfold readData in H. unfold bind at 1 in H. unfold get at 1 in H.
  destruct (negb (isOpen s)).
  - unfold_monad. cbn in H. inversion H; subst. split; [assumption|reflexivity].
  - unfold bind at 1 in H.
    destruct (processEvents pending s) as [[[[] s1] o1]|] eqn:E1;
      [|discriminate].
    destruct (processEvents_bounded _ _ _ _ Hb E1) as [Hb1 Hm1].
    unfold bounded in *. unfold_monad. split_paths H; finish_path H; cbn.
    all: split; [|assumption].
    all: match goal with |- size (skipn ?n ?b) < _ =>
           pose proof (size_skipn n b) end; lia.
Qed.

Lemma step_bounded (i : Input) (s s' : QVSPSocket) (o : list Obs) :
  bounded s -> step i s = Some (tt, s', o) ->
  bounded s' /\ maxBufferSize s' = maxBufferSize s.
Proof.
  intros Hb H. destruct i.
  - unfold bounded in *. unfold_calls; unfold_monad; split_paths H;
      finish_path H; cbn; split; auto.
  - unfold bounded in *. unfold_calls; unfold_monad; split_paths H;
      finish_path H; cbn; split; auto.
    all: pose proof (size_nonneg (readBuffer s)); unfold size at 1; cbn; lia.
  - cbn [step] in H. unfold bind at 1 in H.
    destruct (readData pending maxlen s) as [[[r s1] o1]|] eqn:E1;
      [|discriminate].
    cbn in H. inversion H; subst. eapply readData_bounded; eauto.
  - unfold bounded in *. unfold_calls; unfold_monad; split_paths H;
      finish_path H; cbn; split; auto.
  - unfold bounded in *. unfold_calls; unfold_monad; split_paths H;
      finish_path H; cbn; split; auto.
  - unfold bounded in *. unfold_calls; unfold_monad; split_paths H;
      finish_path H; cbn; split; auto.
  - cbn [step] in H. eapply dispatch_bounded; eauto.
Qed.

Lemma run_bounded (ins : list Input) :
  forall (s s' : QVSPSocket) (o : list Obs),
  bounded s -> run ins s = Some (tt, s', o) ->
  bounded s' /\ maxBufferSize s' = maxBufferSize s.
Proof.
  induction ins as [|i rest IH]; intros s s' o Hb H; cbn in H.
  - inversion H; subst. split; [assumption|reflexivity].
  - unfold bind in H.
    destruct (step i s) as [[[[] s1] o1]|] eqn:E1; [|discriminate].
    destruct (run rest s1) as [[[[] s2] o2]|] eqn:E2; [|discriminate].
    inversion H; subst.
    destruct (step_bounded _ _ _ _ Hb E1) as [Hb1 Hm1].
    destruct (IH _ _ _ Hb1 E2) as [Hb2 Hm2].
    split; [assumption|congruence].
Qed.

(** C2. At every point an execution of a socket built with a positive
    [maxBufferSize] can reach, [readBuffer] is shorter than [maxBufferSize];
    and a TX FIFO notification delivered there whose payload would make
    [size readBuffer + size payload + 1] exceed [maxBufferSize] is dropped:
    [readBuffer] is unchanged, the variant's clear value is written to
    MODEM_IN, [error(CharacteristicReadError)] is emitted, and the socket is
    as open, and in the same state, as it was. *)
Theorem readBuffer_bounded_overflow_dropped
    (max : Z) (ins : list Input) (s : QVSPSocket) (tr : list Obs) :
  0 < max ->
  run ins (QVSPSocket_new max) = Some (tt, s, tr) ->
  maxBufferSize s = max
  /\ size (readBuffer s) < maxBufferSize s
  /\ forall (info : QBluetoothUuid) (payload : QByteArray),
       detailSlotsConnected s = true ->
       txFifoChar s = Some info ->
       size (readBuffer s) + size payload + 1 > maxBufferSize s ->
       exists s',
         dispatch (characteristicChanged info payload) s
         = Some (tt, s',
                 [Recv (characteristicChanged info payload);
                  Req (writeCharacteristic (modemInChar s)
                         (MODEM_CLEAR_BIT (m s)));
                  Emit (error CharacteristicReadError)])
         /\ readBuffer s' = readBuffer s
         /\ _error s' = CharacteristicReadError
         /\ isOpen s' = isOpen s
         /\ _state s' = _state s
         /\ controller s' = controller s
         /\ service s' = service s.
Proof.
  intros Hmax Hrun.
  assert (Hinit : bounded (QVSPSocket_new max)) by exact Hmax.
  destruct (run_bounded _ _ _ _ Hinit Hrun) as [Hb Hm].
  split; [exact Hm|]. split; [exact Hb|].
  intros info payload Hslots Htx Hover.
  unfold dispatch, on_characteristicChanged. unfold_monad.
  rewrite Hslots, Htx. cbn. rewrite String.eqb_refl.
  rewrite gtb_true by lia.
  unfold detailSlotsConnected in Hslots.
  destruct (service s) eqn:Es; [|discriminate].
  eexists. split; [reflexivity|]. cbn. repeat split. exact Es.
Qed.

Lemma readBuffer_bounded_overflow_dropped_witness :
  0 < 21
  /\ run laird_one_packet (QVSPSocket_new 21)
     = Some (tt, laird_full, trace (run laird_one_packet (QVSPSocket_new 21)))
  /\ size (readBuffer laird_full) < 21
  /\ exists s',
       dispatch (characteristicChanged (TX_FIFO (CHARACTERISTIC Laird)) [x42])
         laird_full
       = Some (tt, s',
               [Recv (characteristicChanged (TX_FIFO (CHARACTERISTIC Laird))
                        [x42]);
                Req (writeCharacteristic
                       (Some (MODEM_IN (CHARACTERISTIC Laird)))
                       (MODEM_CLEAR_BIT Laird));
                Emit (error CharacteristicReadError)])
       /\ readBuffer s' = repeat x41 20
       /\ isOpen s' = true.
Proof.
  assert (Hrun : run laird_one_packet (QVSPSocket_new 21)
                 = Some (tt, laird_full,
                         trace (run laird_one_packet (QVSPSocket_new 21))))
    by (vm_compute; reflexivity).
  split; [reflexivity|]. split; [exact Hrun|].
  destruct (@readBuffer_bounded_overflow_dropped 21 laird_one_packet _ _
              (eq_refl : 0 < 21) Hrun)
    as [_ [Hb Hdrop]].
  split; [exact Hb|].
  destruct (Hdrop (TX_FIFO (CHARACTERISTIC Laird)) [x42]
              eq_refl eq_refl eq_refl)
    as [s' [H1 [H2 [_ [H4 _]]]]].
  exists s'. split; [exact H1|]. split; [exact H2 | exact H4].
Defined.

(** ** Invariants of executions *)

Lemma readData_eq (pending : list Event) (maxlen : Z) (s : QVSPSocket) :
  readData pending maxlen s =
  if negb (isOpen s) then
    Some ((-1, []),
          set_error OperationError
            (set_errorString "Cannot read while not connected" s),
          [Emit (error OperationError)])
  else
    match processEvents pending s with
    | Some (_, s1, o1) =>
        match drain maxlen s1 with
        | Some (r, s2, o2) => Some (r, s2, o1 ++ o2)
        | None => None
        end
    | None => None
    end.
Proof.
  unfold readData. fold (drain maxlen).
  unfold bind at 1. unfold get at 1.
  destruct (negb (isOpen s)); [reflexivity|].
  unfold bind at 1.
  destruct (processEvents pending s) as [[[[] s1] o1]|]; [|reflexivity].
  destruct (drain maxlen s1) as [[[r s2] o2]|]; reflexivity.
Qed.

Lemma drain_eq (maxlen : Z) (s : QVSPSocket) :
  drain maxlen s =
  let data := firstn (Z.to_nat maxlen) (readBuffer s) in
  let res := if maxlen <? 0 then -1 else size data in
  let s' := set_readBuffer (skipn (Z.to_nat res) (readBuffer s)) s in
  if negb (rts s)
     && (size (readBuffer s') + PACKET_SIZE + 1 <=? maxBufferSize s)
  then
    match service s with
    | Some _ =>
        Some ((res, data), s',
              [Req (writeCharacteristic (modemInChar s) (MODEM_SET_BIT (m s)))])
    | None => None
    end
  else Some ((res, data), s', []).
Proof.
  unfold drain. unfold_monad. cbn.
  destruct (_ && _); cbn; [|reflexivity].
  destruct (service s); reflexivity.
Qed.

Section Invariant.

(** An invariant may speak of the socket and of what has been observed. *)
Variable Inv : QVSPSocket -> list Obs -> Prop.

Hypothesis Inv_dispatch :
  forall e s tr s' o,
    Inv s tr -> dispatch e s = Some (tt, s', o) -> Inv s' (tr ++ o).

Hypothesis Inv_drain :
  forall maxlen s tr r s' o,
    Inv s tr -> drain maxlen s = Some (r, s', o) ->
    Inv s' (tr ++ o ++ [ReadReturned (fst r) (snd r)]).

Hypothesis Inv_call :
  forall i s tr s' o,
    match i with
    | call_readData _ _ => isOpen s = false
    | deliver _ => False
    | _ => True
    end ->
    Inv s tr -> step i s = Some (tt, s', o) -> Inv s' (tr ++ o).

Lemma Inv_processEvents (pending : list Event) :
  forall s tr s' o,
    Inv s tr -> processEvents pending s = Some (tt, s', o) ->
    Inv s' (tr ++ o).
Proof.
  induction pending as [|e rest IH]; intros s tr s' o HI H; cbn in H.
  - inversion H; subst. rewrite app_nil_r. exact HI.
  - unfold bind in H.
    destruct (dispatch e s) as [[[[] s1] o1]|] eqn:E1; [|discriminate].
    destruct (processEvents rest s1) as [[[[] s2] o2]|] eqn:E2;
      [|discriminate].
    inversion H; subst. rewrite app_assoc.
    eapply IH; [|exact E2]. eapply Inv_dispatch; eauto.
Qed.

Lemma Inv_step (i : Input) (s : QVSPSocket) (tr : list Obs)
    (s' : QVSPSocket) (o : list Obs) :
  Inv s tr -> step i s = Some (tt, s', o) -> Inv s' (tr ++ o).
Proof.
  intros HI H.
  destruct i; try (eapply Inv_call; [|exact HI|exact H]; exact I).
  - destruct (isOpen s) eqn:Hopen.
    + cbn [step] in H. unfold bind in H. rewrite readData_eq in H.
      rewrite Hopen in H. cbn [negb] in H.
      destruct (processEvents pending s) as [[[[] s1] o1]|] eqn:E1;
        [|discriminate].
      destruct (drain maxlen s1) as [[[r s2] o2]|] eqn:E2; [|discriminate].
      cbn in H. inversion H; subst.
      rewrite <- app_assoc, app_assoc.
      eapply Inv_drain; [|exact E2].
      eapply Inv_processEvents; eauto.
    + eapply Inv_call; [|exact HI|exact H]. exact Hopen.
  - cbn [step] in H. eapply Inv_dispatch; eauto.
Qed.

Lemma Inv_run (ins : list Input) :
  forall s tr s' o,
    Inv s tr -> run ins s = Some (tt, s', o) -> Inv s' (tr ++ o).
Proof.
  induction ins as [|i rest IH]; intros s tr s' o HI H; cbn in H.
  - inversion H; subst. rewrite app_nil_r. exact HI.
  - unfold bind in H.
    destruct (step i s) as [[[[] s1] o1]|] eqn:E1; [|discriminate].
    destruct (run rest s1) as [[[[] s2] o2]|] eqn:E2; [|discriminate].
    inversion H; subst. rewrite app_assoc.
    eapply IH; [|exact E2]. eapply Inv_step; eauto.
Qed.

End Invariant.

Lemma coherent_new (max : Z) : coherent (QVSPSocket_new max).
Proof.
  unfold coherent. cbn. repeat split; intros; try discriminate; congruence.
Qed.

Ltac coherent_solve :=
  try match goal with
      | H : controllerExists ?s = true |- _ =>
          unfold controllerExists in H;
          destruct (controller s) eqn:?; [|discriminate H]
      end;
  try match goal with
      | H : detailSlotsConnected ?s = true |- _ =>
          unfold detailSlotsConnected in H;
          destruct (service s) eqn:?; [|discriminate H]
      end;
  lazymatch goal with
  | HI : coherent _ |- _ =>
      let H1 := fresh "H1" in let H1' := fresh "H1'" in
      let H2 := fresh "H2" in let H3 := fresh "H3" in
      destruct HI as [[H1 H1'] [H2 H3]];
      unfold coherent, isOpen in *; cbn;
      repeat match goal with
             | H : negb _ = true |- _ => apply negb_true_iff in H
             | H : negb _ = false |- _ => apply negb_false_iff in H
             end;
      repeat split; intros; try discriminate; try congruence;
      try (apply H3; congruence);
      try (apply H2; congruence);
      try (apply H1; congruence);
      try (apply H1'; congruence)
  end.

Lemma coherent_run (max : Z) (ins : list Input) (s : QVSPSocket)
    (tr : list Obs) :
  run ins (QVSPSocket_new max) = Some (tt, s, tr) -> coherent s.
Proof.
  intros H.
  apply (Inv_run (fun s _ => coherent s)) with (tr := []) in H;
    [exact H| | | |apply coherent_new].
  - intros e s0 _ s' o HI E.
    destruct e; unfold_slots; unfold_monad; split_paths E; finish_path E.
    all: try exact HI.
    all: solve [coherent_solve].
  - intros maxlen s0 _ r s' o HI E. rewrite drain_eq in E. cbn zeta in E.
    split_paths E; finish_path E; coherent_solve.
  - intros i s0 _ s' o Hi HI E.
    destruct i; try contradiction;
      try (cbn [step] in E; unfold bind in E; rewrite readData_eq, Hi in E);
      unfold_calls; unfold_monad; split_paths E; finish_path E.
    all: try exact HI.
    all: solve [coherent_solve].
Qed.

(** ** C7, C3: teardown *)

(** C7 (amended). [close] on a socket that is not open does nothing.  On an
    open socket it emits [stateChanged(ClosingState)] and
    [readChannelFinished], requests the transport disconnect, closes the
    [QIODevice], resets [controller], [service], [cts], [rts], [readBuffer]
    and [writeBuffer] to their initial values, emits
    [stateChanged(UnconnectedState)] and [disconnected], in that order; the
    characteristic and descriptor handles, the manufacturer and the last
    error keep their values ([closed]). *)
Theorem close_teardown
    (max : Z) (ins : list Input) (s : QVSPSocket) (tr : list Obs) :
  run ins (QVSPSocket_new max) = Some (tt, s, tr) ->
  (isOpen s = false -> close s = Some (tt, s, []))
  /\ (isOpen s = true ->
      close s = Some (tt, closed s, teardown)
      /\ controller (closed s) = controller (QVSPSocket_new max)
      /\ service (closed s) = service (QVSPSocket_new max)
      /\ cts (closed s) = cts (QVSPSocket_new max)
      /\ rts (closed s) = rts (QVSPSocket_new max)
      /\ readBuffer (closed s) = readBuffer (QVSPSocket_new max)
      /\ writeBuffer (closed s) = writeBuffer (QVSPSocket_new max)
      /\ _state (closed s) = UnconnectedState
      /\ isOpen (closed s) = false
      /\ rxFifoChar (closed s) = rxFifoChar s
      /\ txFifoChar (closed s) = txFifoChar s
      /\ modemInChar (closed s) = modemInChar s
      /\ modemOutChar (closed s) = modemOutChar s
      /\ brspModeChar (closed s) = brspModeChar s
      /\ txFifoNotify (closed s) = txFifoNotify s
      /\ modemOutNotify (closed s) = modemOutNotify s
      /\ m (closed s) = m s).
Proof.
  intros Hrun. split.
  - apply close_not_open.
  - intros Hopen. destruct (@coherent_run _ _ _ _ Hrun) as [_ [H2 H3]].
    split; [apply close_open; auto|]. cbn. repeat split.
Qed.

Lemma close_teardown_witness :
  run laird_handshake (QVSPSocket_new 4096)
  = Some (tt, laird_connected 4096,
          trace (run laird_handshake (QVSPSocket_new 4096)))
  /\ isOpen (laird_connected 4096) = true
  /\ close (laird_connected 4096)
     = Some (tt, closed (laird_connected 4096), teardown).
Proof.
  assert (Hrun : run laird_handshake (QVSPSocket_new 4096)
                 = Some (tt, laird_connected 4096,
                         trace (run laird_handshake (QVSPSocket_new 4096))))
    by (vm_compute; reflexivity).
  split; [exact Hrun|]. split; [reflexivity|].
  destruct (@close_teardown _ _ _ _ Hrun) as [_ H].
  destruct (H eq_refl) as [Hc _]. exact Hc.
Defined.

(** C7, as stated, fails: after [close] the resolved characteristics are
    still those of the connection that was closed, not the invalid handles a
    new socket has. *)
Lemma close_keeps_characteristics :
  run laird_handshake QVSPSocket_default
  = Some (tt, laird_connected 4096,
          trace (run laird_handshake QVSPSocket_default))
  /\ exists s',
       close (laird_connected 4096) = Some (tt, s', teardown)
       /\ rxFifoChar s' = Some (RX_FIFO (CHARACTERISTIC Laird))
       /\ rxFifoChar s' <> rxFifoChar QVSPSocket_default
       /\ modemInChar s' <> modemInChar QVSPSocket_default
       /\ txFifoNotify s' <> txFifoNotify QVSPSocket_default.
Proof.
  split; [vm_compute; reflexivity|].
  eexists. split; [vm_compute; reflexivity|].
  cbn. repeat split; discriminate.
Qed.

(** C3 (amended). [close] may be called in any state, but it runs the
    teardown only on an open socket, that is, in [ConnectedState].  In any
    other state, [ConnectingState] included, it returns at once: no
    transport disconnect is requested and the state is what it was.  A
    [connectToDevice] that follows creates a new controller, requests the
    transport connection and enters [ConnectingState] (step 1 of the
    handshake), leaving both buffers as they are. *)
Theorem close_only_when_open
    (max : Z) (ins : list Input) (s : QVSPSocket) (tr : list Obs) :
  run ins (QVSPSocket_new max) = Some (tt, s, tr) ->
  (isOpen s = true <-> _state s = ConnectedState)
  /\ (_state s <> ConnectedState ->
      close s = Some (tt, s, [])
      /\ forall remoteDeviceInfo,
           exists s',
             connectToDevice remoteDeviceInfo s
             = Some (tt, s',
                     [Req (controller_connectToDevice remoteDeviceInfo);
                      Emit (stateChanged ConnectingState)])
             /\ _state s' = ConnectingState
             /\ controller s' = Some (mkController remoteDeviceInfo)
             /\ readBuffer s' = readBuffer s
             /\ writeBuffer s' = writeBuffer s)
  /\ (_state s = ConnectedState ->
      close s = Some (tt, closed s, teardown)
      /\ In (Req disconnectFromDevice) teardown
      /\ _state (closed s) = UnconnectedState
      /\ readBuffer (closed s) = []
      /\ writeBuffer (closed s) = []).
Proof.
  intros Hrun. destruct (@coherent_run _ _ _ _ Hrun) as [H1 [H2 H3]].
  split; [exact H1|]. split.
  - intros Hst.
    assert (Hopen : isOpen s = false).
    { destruct (isOpen s) eqn:E; [|reflexivity].
      exfalso. apply Hst, H1. reflexivity. }
    split; [apply close_not_open; exact Hopen|].
    intros dev. eexists. split.
    + apply connectToDevice_not_open. exact Hopen.
    + cbn. repeat split.
  - intros Hst. apply H1 in Hst.
    split; [apply close_open; auto|].
    split; [cbn; tauto|]. cbn. repeat split.
Qed.

Lemma close_only_when_open_witness :
  exists s tr,
    run laird_connecting QVSPSocket_default = Some (tt, s, tr)
    /\ _state s = ConnectingState
    /\ close s = Some (tt, s, []).
Proof.
  eexists. eexists.
  assert (Hrun : run laird_connecting (QVSPSocket_new 4096)
                 = Some (tt, _, _)) by (vm_compute; reflexivity).
  split; [exact Hrun|]. split; [reflexivity|].
  destruct (@close_only_when_open _ _ _ _ Hrun) as [_ [H _]].
  apply H. discriminate.
Defined.

(** C3, as stated, fails: [close] in [ConnectingState] requests no
    disconnect and leaves the state [ConnectingState]; the [connectToDevice]
    that follows starts from a read buffer that still holds the byte received
    during the first handshake. *)
Lemma close_while_connecting_is_noop :
  exists s tr,
    run laird_connecting QVSPSocket_default = Some (tt, s, tr)
    /\ _state s = ConnectingState
    /\ readBuffer s = [x41]
    /\ close s = Some (tt, s, [])
    /\ exists s2 tr2,
         run [call_close; call_connectToDevice "00:16:A4:00:00:01"] s
         = Some (tt, s2, tr2)
         /\ ~ In (Req disconnectFromDevice) tr2
         /\ ~ In (Emit (stateChanged UnconnectedState)) tr2
         /\ readBuffer s2 = [x41].
Proof.
  eexists. eexists. split; [vm_compute; reflexivity|].
  split; [reflexivity|]. split; [reflexivity|]. split; [reflexivity|].
  eexists. eexists. split; [vm_compute; reflexivity|].
  split; [|split; [|reflexivity]];
    cbn; intros H; repeat (destruct H as [H|H]; [discriminate H|]); exact H.
Qed.

(** ** C9, C6: RTS *)




Lemma dispatch_service (e : Event) (s s' : QVSPSocket) (o : list Obs) :
  service s <> None -> dispatch e s = Some (tt, s', o) -> service s' <> None.
Proof.
  intros Hs H.
  destruct e; unfold_slots; unfold_monad; split_paths H; finish_path H; cbn;
    try assumption; try discriminate; congruence.
Qed.

Lemma processEvents_service (pending : list Event) :
  forall (s s' : QVSPSocket) (o : list Obs),
  service s <> None -> processEvents pending s = Some (tt, s', o) ->
  service s' <> None.
Proof.
  induction pending as [|e rest IH]; intros s s' o Hs H; cbn in H.
  - inversion H; subst. assumption.
  - unfold bind in H.
    destruct (dispatch e s) as [[[[] s1] o1]|] eqn:E1; [|discriminate].
    destruct (processEvents rest s1) as [[[[] s2] o2]|] eqn:E2;
      [|discriminate].
    inversion H; subst. eapply IH; [|exact E2].
    eapply dispatch_service; eauto.
Qed.

Lemma dispatch_total (e : Event) (s : QVSPSocket) :
  exists s' o, dispatch e s = Some (tt, s', o).
Proof.
  destruct (dispatch e s) as [[[[] s'] o]|] eqn:H; [eauto|].
  exfalso.
  destruct e; unfold_slots; unfold_monad; unfold controllerExists,
    serviceSlotsConnected, detailSlotsConnected in H;
    repeat (cbn in H;
      lazymatch type of H with
      | context [match ?c with _ => _ end] =>
          let d := innermost c in destruct d eqn:?
      end);
    cbn in H; try discriminate H; congruence.
Qed.

Lemma processEvents_total (pending : list Event) :
  forall s, exists s' o, processEvents pending s = Some (tt, s', o).
Proof.
  induction pending as [|e rest IH]; intros s; cbn.
  - eexists. eexists. reflexivity.
  - unfold bind. destruct (dispatch_total e s) as [s1 [o1 E1]]. rewrite E1.
    destruct (IH s1) as [s2 [o2 E2]]. rewrite E2. eauto.
Qed.

Lemma set_clear_differ (mf : Manufacturer) :
  MODEM_SET_BIT mf <> MODEM_CLEAR_BIT mf.
Proof. destruct mf; discriminate. Qed.

Lemma rtsSet_not_rtsClear (s : QVSPSocket) : rtsSet s <> rtsClear s.
Proof.
  unfold rtsSet, rtsClear. intros H. inversion H as [H1].
  exact (set_clear_differ _ H1).
Qed.

Ltac notin Hne :=
  let H := fresh "Hin" in
  cbn; intros H;
  repeat (destruct H as [H|H];
          [try discriminate H;
           try (apply Hne; first [exact H | symmetry; exact H])|]);
  try contradiction.



Lemma QByteArray_eqb_refl (b : QByteArray) : QByteArray_eqb b b = true.
Proof.
  induction b as [|x b IH]; [reflexivity|]. cbn [QByteArray_eqb].
  rewrite IH, andb_true_r. apply Byte.byte_dec_lb. reflexivity.
Qed.















(** ** Steady state *)

Lemma dataWrites_app (mf : Manufacturer) (l1 l2 : list Obs) :
  dataWrites mf (l1 ++ l2) = dataWrites mf l1 ++ dataWrites mf l2.
Proof.
  induction l1 as [|o l1 IH]; [reflexivity|].
  cbn [app dataWrites]. destruct (dataWrite mf o); rewrite IH; reflexivity.
Qed.

Lemma writeReturns_app (l1 l2 : list Obs) :
  writeReturns (l1 ++ l2) = writeReturns l1 ++ writeReturns l2.
Proof.
  induction l1 as [|o l1 IH]; [reflexivity|].
  cbn [app writeReturns]. destruct o; rewrite IH; reflexivity.
Qed.

Ltac use_connected Hc :=
  let Hopen := fresh "Hopen" in let Hslots := fresh "Hslots" in
  let Hm := fresh "Hm" in let Hrx := fresh "Hrx" in let Htx := fresh "Htx" in
  let Hmi := fresh "Hmi" in let Hmo := fresh "Hmo" in
  destruct Hc as [Hopen [Hslots [Hm [Hrx [Htx [Hmi Hmo]]]]]].

(** What the delivery of a steady event does to a connected socket: either
    no chunk leaves and the write buffer is untouched, or the event is one
    of the two that run [writeInternal], CTS is set, and exactly the first
    packet of the write buffer leaves. *)
Lemma dispatch_steady (mf : Manufacturer) (e : Event) (s : QVSPSocket) :
  connectedTo mf s -> steadyEvent e = true ->
  exists s' o,
    dispatch e s = Some (tt, s', o)
    /\ connectedTo mf s'
    /\ maxBufferSize s' = maxBufferSize s
    /\ writeReturns o = []
    /\ ((dataWrites mf o = [] /\ writeBuffer s' = writeBuffer s)
        \/ ((isConfirmation mf e || isCtsNotification mf e) = true
            /\ cts s' = true
            /\ isEmpty (packet (writeBuffer s)) = false
            /\ o = [Recv e;
                    Req (writeCharacteristic
                           (Some (RX_FIFO (CHARACTERISTIC mf)))
                           (packet (writeBuffer s)));
                    Emit (bytesWritten (size (packet (writeBuffer s))))]
            /\ writeBuffer s'
               = skipn (List.length (packet (writeBuffer s))) (writeBuffer s))).
Proof.
  intros Hc Hsteady.
  destruct (dispatch_total e s) as [s' [o H]]. exists s', o.
  split; [exact H|].
  use_connected Hc.
  unfold connectedTo.
  destruct e; try discriminate Hsteady; unfold_slots; unfold_monad;
    unfold isOpen, packet in *;
    rewrite ?Hslots, ?Hopen, ?Hrx, ?Htx, ?Hmi, ?Hmo in H;
    split_paths H; finish_path H; cbn;
    rewrite ?Hslots, ?Hopen, ?Hrx, ?Htx, ?Hmi, ?Hmo.
  all: try (repeat split; try assumption; left; split; reflexivity).
  all: repeat match goal with
              | H : negb _ = true |- _ => apply negb_true_iff in H
              | H : negb _ = false |- _ => apply negb_false_iff in H
              | H : _ && _ = true |- _ => apply andb_true_iff in H; destruct H
              end.
  all: unfold detailSlotsConnected in *; cbn in *.
  all: destruct (m _) eqn:?; cbn in *.
  all: repeat match goal with |- _ /\ _ => split end;
       try assumption; try reflexivity.
  all: try (left; split; reflexivity).
  all: try (right; repeat split; try assumption; try reflexivity;
            rewrite ?orb_true_r, ?orb_false_r; try reflexivity;
            assumption).
  all: discriminate.
Qed.

Lemma gated_weaken (mf : Manufacturer) (tr : list Obs) (b : bool) :
  gated mf false tr = true -> gated mf b tr = true.
Proof.
  destruct tr as [|o tr]; [reflexivity|]. cbn [gated].
  destruct (dataWrite mf o); [discriminate|]. intros H. exact H.
Qed.

Lemma gated_app (mf : Manufacturer) (l1 l2 : list Obs) :
  forall b,
    gated mf b l1 = true -> gated mf false l2 = true ->
    gated mf b (l1 ++ l2) = true.
Proof.
  induction l1 as [|o l1 IH]; intros b H1 H2.
  - apply gated_weaken. exact H2.
  - cbn [app gated] in *. apply andb_true_iff in H1. destruct H1 as [Ha Hb].
    rewrite Ha. cbn [andb]. apply IH; assumption.
Qed.

Lemma gated_no_data (mf : Manufacturer) (tr : list Obs) :
  forall b, dataWrites mf tr = [] -> gated mf b tr = true.
Proof.
  induction tr as [|o tr IH]; intros b H; [reflexivity|].
  cbn [gated dataWrites] in *.
  destruct (dataWrite mf o); [discriminate|]. cbn [andb]. apply IH. exact H.
Qed.

Lemma piece_refl (mf : Manufacturer) (s : QVSPSocket) :
  connectedTo mf s -> piece mf s s [] [] 0 [] true.
Proof.
  intros Hc. unfold piece. cbn [dataWrites List.concat writeReturns gated app].
  rewrite app_nil_r.
  split; [exact Hc|]. repeat split; auto.
Qed.

Lemma piece_trans (mf : Manufacturer) (s s1 s2 : QVSPSocket)
    (o1 o2 : list Obs) (acc1 acc2 : QByteArray) (n1 n2 : nat)
    (r1 r2 : list Z) (g1 g2 : bool) :
  piece mf s s1 o1 acc1 n1 r1 g1 ->
  piece mf s1 s2 o2 acc2 n2 r2 g2 ->
  piece mf s s2 (o1 ++ o2) (acc1 ++ acc2) (n1 + n2) (r1 ++ r2) (g1 && g2).
Proof.
  intros [_ [Hm1 [Hw1 [Hf1 [Hn1 [Hr1 Hg1]]]]]]
         [Hc2 [Hm2 [Hw2 [Hf2 [Hn2 [Hr2 Hg2]]]]]].
  unfold piece. rewrite dataWrites_app, writeReturns_app, concat_app.
  split; [exact Hc2|]. split; [congruence|]. split.
  { rewrite <- app_assoc, Hw2, app_assoc, Hw1, app_assoc. reflexivity. }
  split; [apply Forall_app; split; assumption|].
  split; [rewrite length_app; lia|].
  split; [congruence|].
  intros Hg. apply andb_true_iff in Hg. destruct Hg as [Ha Hb].
  apply gated_app; auto.
Qed.

Arguments piece_trans {mf s s1 s2 o1 o2 acc1 acc2 n1 n2 r1 r2 g1 g2}.

Lemma dispatch_piece (mf : Manufacturer) (e : Event) (s : QVSPSocket) :
  connectedTo mf s -> steadyEvent e = true ->
  exists s' o,
    dispatch e s = Some (tt, s', o)
    /\ piece mf s s' o []
         (if isConfirmation mf e || isCtsNotification mf e then 1 else 0) []
         (negb (isCtsNotification mf e)).
Proof.
  intros Hc Hst.
  destruct (dispatch_steady mf e s Hc Hst)
    as [s' [o [H [Hc' [Hmax [Hret Hshape]]]]]].
  exists s', o. split; [exact H|]. unfold piece.
  split; [exact Hc'|]. split; [exact Hmax|]. rewrite app_nil_r.
  destruct Hshape as [[Hd Hw] | [Htrig [Hcts [Hne [Ho Hw]]]]].
  - rewrite Hd, Hw. cbn. repeat split; auto; try lia.
    intros _. apply gated_no_data. exact Hd.
  - subst o. rewrite Htrig, Hw.
    assert (Hrx : dataWrite mf
              (Req (writeCharacteristic (Some (RX_FIFO (CHARACTERISTIC mf)))
                      (packet (writeBuffer s))))
            = Some (packet (writeBuffer s))).
    { cbn. rewrite String.eqb_refl. reflexivity. }
    cbn [dataWrites gated]. rewrite Hrx. cbn [dataWrite List.concat].
    rewrite app_nil_r.
    split; [apply packet_rest|].
    split; [constructor; [apply packet_size|constructor]|].
    split; [cbn; lia|]. split; [reflexivity|].
    intros Hg. cbn [confirmationObs andb].
    destruct (isCtsNotification mf e); [discriminate|].
    rewrite orb_false_r in Htrig. rewrite Htrig. reflexivity.
Qed.

Lemma processEvents_piece (mf : Manufacturer) (pending : list Event) :
  forall s,
    connectedTo mf s -> forallb steadyEvent pending = true ->
    exists s' o,
      processEvents pending s = Some (tt, s', o)
      /\ piece mf s s' o []
           (count (fun e => isConfirmation mf e || isCtsNotification mf e)
              pending)
           []
           (forallb (fun e => negb (isCtsNotification mf e)) pending).
Proof.
  induction pending as [|e rest IH]; intros s Hc Hst.
  - exists s, []. split; [reflexivity|]. apply piece_refl. exact Hc.
  - cbn [forallb] in Hst. apply andb_true_iff in Hst. destruct Hst as [He Hr].
    destruct (dispatch_piece mf e s Hc He) as [s1 [o1 [E1 P1]]].
    destruct (IH s1 (proj1 P1) Hr) as [s2 [o2 [E2 P2]]].
    exists s2, (o1 ++ o2). split.
    + cbn [processEvents]. unfold bind. rewrite E1, E2. reflexivity.
    + pose proof (piece_trans P1 P2) as P. cbn [app] in P.
      unfold count in *. cbn [filter forallb].
      destruct (isConfirmation mf e || isCtsNotification mf e);
        cbn [List.length]; exact P.
Qed.

Lemma modemIn_not_rxFifo (mf : Manufacturer) :
  String.eqb (MODEM_IN (CHARACTERISTIC mf)) (RX_FIFO (CHARACTERISTIC mf))
  = false.
Proof. destruct mf; reflexivity. Qed.

Lemma piece_quiet (mf : Manufacturer) (s s' : QVSPSocket) (o : list Obs) :
  connectedTo mf s' ->
  maxBufferSize s' = maxBufferSize s ->
  writeBuffer s' = writeBuffer s ->
  dataWrites mf o = [] ->
  writeReturns o = [] ->
  piece mf s s' o [] 0 [] true.
Proof.
  intros Hc Hm Hw Hd Hr. unfold piece. rewrite Hd, Hw, Hr, app_nil_r.
  cbn [List.concat app List.length].
  split; [exact Hc|]. repeat split; auto.
  intros _. apply gated_no_data. exact Hd.
Qed.

Lemma connectedTo_service (mf : Manufacturer) (s : QVSPSocket) :
  connectedTo mf s -> exists svc, service s = Some svc.
Proof.
  intros [_ [H _]]. unfold detailSlotsConnected in H.
  destruct (service s); [eauto|discriminate].
Qed.

Ltac connected_frame Hc :=
  let H := fresh in
  pose proof Hc as H; unfold connectedTo, detailSlotsConnected, isOpen in H |- *;
  cbn; exact H.

Lemma step_piece (mf : Manufacturer) (i : Input) (s : QVSPSocket) :
  connectedTo mf s -> steadyInput i = true ->
  exists s' o acc rets,
    step i s = Some (tt, s', o)
    /\ piece mf s s' o acc (triggers mf i) rets (confirmationGated mf i)
    /\ (size (writeBuffer s) + size (submitted [i]) + 1 <= maxBufferSize s ->
        acc = submitted [i] /\ rets = writeSizes [i]).
Proof.
  intros Hc Hst.
  destruct (connectedTo_service mf s Hc) as [svc Hsvc].
  assert (Hmi : modemInChar s = Some (MODEM_IN (CHARACTERISTIC mf)))
    by (apply Hc).
  assert (Hopen : isOpen s = true) by (apply Hc).
  destruct i; cbn [steadyInput] in Hst; try discriminate Hst; cbn [step].
  - (* connectToDevice *)
    rewrite (connectToDevice_open _ _ Hopen).
    exists s, [], [], []. split; [reflexivity|].
    split; [apply piece_refl; exact Hc|]. intros _. split; reflexivity.
  - (* readData *)
    destruct (processEvents_piece mf pending s Hc Hst) as [s1 [o1 [E1 P1]]].
    pose proof (proj1 P1) as Hc1.
    destruct (connectedTo_service mf s1 Hc1) as [svc1 Hsvc1].
    assert (Hmi1 : modemInChar s1 = Some (MODEM_IN (CHARACTERISTIC mf)))
      by (apply Hc1).
    unfold bind. rewrite readData_eq, Hopen, E1. cbn [negb].
    rewrite drain_eq. cbn zeta. rewrite Hsvc1, Hmi1.
    match goal with
    | |- context [if ?c then _ else _] => destruct c
    end.
    all: cbn [tell fst snd].
    all: eexists; eexists; exists [], []; split; [reflexivity|].
    all: (split; [|intros _; split; reflexivity]).
    all: rewrite <- app_assoc.
    all: match goal with
         | |- piece _ _ _ (_ ++ ?o2) _ _ _ _ =>
             assert (P2 : piece mf s1
                       (set_readBuffer
                          (skipn
                             (Z.to_nat
                                (if maxlen <? 0 then -1
                                 else size (firstn (Z.to_nat maxlen)
                                              (readBuffer s1))))
                             (readBuffer s1)) s1)
                       o2 [] 0 [] true)
         end.
    all: try (apply piece_quiet;
              [connected_frame Hc1 | reflexivity | reflexivity
              | cbn; rewrite ?modemIn_not_rxFifo; reflexivity | reflexivity]).
    all: pose proof (piece_trans P1 P2) as P;
         rewrite Nat.add_0_r, andb_true_r in P; exact P.
  - (* writeData *)
    unfold bind. rewrite writeData_eq, Hopen. cbn [negb].
    unfold submitted, writeSizes. rewrite app_nil_r.
    destruct (size (writeBuffer s) + size data + 1 >? maxBufferSize s) eqn:Eov.
    + cbn [tell]. eexists; eexists; exists [], [-1].
      split; [reflexivity|]. split.
      * unfold piece. cbn. rewrite app_nil_r.
        split; [connected_frame Hc|]. repeat split; auto; try discriminate.
      * intros Hfit. zbool. lia.
    + rewrite writeInternal_eq. cbn zeta.
      change (writeBuffer (set_writeBuffer (writeBuffer s ++ data) s))
        with (writeBuffer s ++ data).
      change (cts (set_writeBuffer (writeBuffer s ++ data) s)) with (cts s).
      change (service (set_writeBuffer (writeBuffer s ++ data) s))
        with (service s).
      change (rxFifoChar (set_writeBuffer (writeBuffer s ++ data) s))
        with (rxFifoChar s).
      fold (packet (writeBuffer s ++ data)).
      rewrite Hsvc. rewrite (proj1 (proj2 (proj2 (proj2 Hc)))).
      destruct (cts s && negb (isEmpty (packet (writeBuffer s ++ data))));
        cbn [tell].
      * eexists; eexists; exists data, [size data].
        split; [reflexivity|]. split; [|intros _; split; reflexivity].
        unfold piece. cbn [dataWrites dataWrite app writeReturns handle_eqb].
        rewrite String.eqb_refl. cbn [List.concat List.length].
        rewrite app_nil_r.
        split; [connected_frame Hc|]. split; [reflexivity|].
        split; [cbn; apply packet_rest|].
        split; [constructor; [apply packet_size|constructor]|].
        split; [cbn; lia|]. split; [reflexivity|try discriminate].
      * eexists; eexists; exists data, [size data].
        split; [reflexivity|]. split; [|intros _; split; reflexivity].
        unfold piece. cbn.
        split; [connected_frame Hc|]. repeat split; auto; try discriminate.
  - (* unsetRTS *)
    rewrite unsetRTS_eq, Hsvc, Hmi.
    destruct (rts s); eexists; eexists; exists [], [];
      (split; [reflexivity|]); (split; [|intros _; split; reflexivity]);
      apply piece_quiet; auto; cbn; rewrite ?modemIn_not_rxFifo; reflexivity.
  - (* setRTS *)
    rewrite setRTS_eq, Hsvc, Hmi.
    match goal with
    | |- context [if ?c then _ else _] => destruct c
    end; eexists; eexists; exists [], [];
      (split; [reflexivity|]); (split; [|intros _; split; reflexivity]);
      apply piece_quiet; auto; cbn; rewrite ?modemIn_not_rxFifo; reflexivity.
  - (* delivery of a transport signal *)
    destruct (dispatch_piece mf e s Hc Hst) as [s' [o [E P]]].
    exists s', o, [], []. split; [exact E|]. split; [exact P|].
    intros _. split; reflexivity.
Qed.

Lemma submitted_cons (i : Input) (rest : list Input) :
  submitted (i :: rest) = submitted [i] ++ submitted rest.
Proof.
  destruct i; cbn [submitted]; rewrite ?app_nil_r; reflexivity.
Qed.

Lemma writeSizes_cons (i : Input) (rest : list Input) :
  writeSizes (i :: rest) = writeSizes [i] ++ writeSizes rest.
Proof. destruct i; reflexivity. Qed.

Lemma size_concat_le (l : list QByteArray) (b c : QByteArray) :
  List.concat l ++ b = c -> size b <= size c.
Proof.
  intros H. rewrite <- H, size_app.
  pose proof (size_nonneg (List.concat l)). lia.
Qed.

Lemma run_steady (mf : Manufacturer) (ins : list Input) :
  forall s,
    connectedTo mf s -> forallb steadyInput ins = true ->
    exists s' o acc rets,
      run ins s = Some (tt, s', o)
      /\ piece mf s s' o acc (triggerCount mf ins) rets
           (forallb (confirmationGated mf) ins)
      /\ (size (writeBuffer s) + size (submitted ins) + 1 <= maxBufferSize s ->
          acc = submitted ins /\ rets = writeSizes ins).
Proof.
  induction ins as [|i rest IH]; intros s Hc Hst.
  - exists s, [], [], []. split; [reflexivity|].
    split; [apply piece_refl; exact Hc|]. intros _. split; reflexivity.
  - cbn [forallb] in Hst. apply andb_true_iff in Hst. destruct Hst as [Hi Hr].
    destruct (step_piece mf i s Hc Hi) as [s1 [o1 [acc1 [r1 [E1 [P1 F1]]]]]].
    destruct (IH s1 (proj1 P1) Hr) as [s2 [o2 [acc2 [r2 [E2 [P2 F2]]]]]].
    exists s2, (o1 ++ o2), (acc1 ++ acc2), (r1 ++ r2).
    split; [cbn [run]; unfold bind; rewrite E1, E2; reflexivity|].
    split; [exact (piece_trans P1 P2)|].
    rewrite submitted_cons, writeSizes_cons, size_app.
    intros Hfit.
    pose proof (size_nonneg (submitted rest)) as Hn.
    destruct F1 as [Ha1 Hr1]; [lia|].
    destruct P1 as [_ [Hm1 [Hw1 _]]].
    apply size_concat_le in Hw1. rewrite size_app, Ha1 in Hw1.
    destruct F2 as [Ha2 Hr2]; [lia|].
    subst. split; reflexivity.
Qed.

Lemma skipn_packet (b : QByteArray) :
  skipn (List.length (packet b)) b = skipn (Z.to_nat PACKET_SIZE) b.
Proof.
  unfold packet. rewrite length_firstn.
  destruct (Nat.le_ge_cases (Z.to_nat PACKET_SIZE) (List.length b)) as [H|H].
  - rewrite Nat.min_l by exact H. reflexivity.
  - rewrite Nat.min_r by exact H.
    rewrite skipn_all. symmetry. apply skipn_all2. exact H.
Qed.

(** A write confirmation for RX FIFO while CTS is set takes the next packet
    out of the write buffer. *)
Lemma dispatch_confirmation (mf : Manufacturer) (v : QByteArray)
    (s : QVSPSocket) :
  connectedTo mf s -> cts s = true ->
  exists s' o,
    dispatch (characteristicWritten (RX_FIFO (CHARACTERISTIC mf)) v) s
    = Some (tt, s', o)
    /\ cts s' = true
    /\ writeBuffer s' = skipn (Z.to_nat PACKET_SIZE) (writeBuffer s).
Proof.
  intros Hc Hcts.
  destruct (connectedTo_service mf s Hc) as [svc Hsvc].
  destruct Hc as [Hopen [Hslots [Hm [Hrx _]]]].
  unfold dispatch, on_characteristicWritten. unfold bind at 1 2.
  unfold tell at 1, get at 1. rewrite Hslots. cbn [when].
  unfold bind at 1, get at 1. rewrite Hrx. cbn [handle_eqb].
  rewrite String.eqb_refl, writeInternal_eq. cbn zeta.
  rewrite Hcts, Hsvc. fold (packet (writeBuffer s)). cbn [andb].
  destruct (isEmpty (packet (writeBuffer s))) eqn:E; cbn [negb].
  - eexists. eexists. split; [reflexivity|]. split; [exact Hcts|].
    rewrite <- skipn_packet.
    apply isEmpty_size in E. destruct (packet (writeBuffer s));
      [reflexivity|discriminate E].
  - eexists. eexists. split; [reflexivity|]. split; [exact Hcts|].
    cbn. apply skipn_packet.
Qed.

Lemma confirmations_drain (mf : Manufacturer) (v : QByteArray) (k : nat) :
  forall s,
    connectedTo mf s -> cts s = true ->
    exists s' o acc rets,
      run (repeat (deliver (characteristicWritten
                              (RX_FIFO (CHARACTERISTIC mf)) v)) k) s
      = Some (tt, s', o)
      /\ piece mf s s' o acc
           (triggerCount mf
              (repeat (deliver (characteristicWritten
                                  (RX_FIFO (CHARACTERISTIC mf)) v)) k))
           rets true
      /\ acc = []
      /\ writeBuffer s' = skipn (k * Z.to_nat PACKET_SIZE) (writeBuffer s).
Proof.
  induction k as [|k IH]; intros s Hc Hcts.
  - exists s, [], [], []. split; [reflexivity|].
    split; [apply piece_refl; exact Hc|]. split; reflexivity.
  - cbn [repeat].
    destruct (dispatch_confirmation mf v s Hc Hcts) as [s1 [o1 [E1 [C1 W1]]]].
    destruct (dispatch_piece mf _ s Hc
                (eq_refl : steadyEvent
                   (characteristicWritten (RX_FIFO (CHARACTERISTIC mf)) v)
                   = true))
      as [s1' [o1' [E1' P1]]].
    rewrite E1 in E1'. inversion E1'; subst s1' o1'. clear E1'.
    destruct (IH s1 (proj1 P1) C1) as [s2 [o2 [acc2 [r2 [E2 [P2 [A2 W2]]]]]]].
    exists s2, (o1 ++ o2), ([] ++ acc2), ([] ++ r2).
    split; [cbn [run step]; unfold bind; rewrite E1, E2; reflexivity|].
    split.
    + exact (piece_trans P1 P2).
    + split; [subst; reflexivity|].
      rewrite W2, W1, skipn_skipn. f_equal. lia.
Qed.

(** ** C1: the bytes written reach the transport, in order, in packets *)

Lemma isEmpty_packet (b : QByteArray) : isEmpty (packet b) = isEmpty b.
Proof. destruct b; reflexivity. Qed.

Lemma isEmpty_nil (b : QByteArray) : isEmpty b = true -> b = [].
Proof. destruct b; [reflexivity|discriminate]. Qed.

Lemma length_rest (b : QByteArray) :
  isEmpty b = false ->
  (List.length (skipn (List.length (packet b)) b) < List.length b)%nat.
Proof.
  intros H. destruct b as [|x b]; [discriminate|].
  rewrite length_skipn. unfold packet. rewrite length_firstn.
  cbn [List.length]. unfold PACKET_SIZE. lia.
Qed.

Lemma modemOut_not_txFifo (mf : Manufacturer) :
  String.eqb (MODEM_OUT (CHARACTERISTIC mf)) (TX_FIFO (CHARACTERISTIC mf))
  = false.
Proof. destruct mf; reflexivity. Qed.

Lemma ctsValue (mf : Manufacturer) (asserted : bool) :
  QByteArray_eqb (if asserted then MODEM_SET_BIT mf else MODEM_CLEAR_BIT mf)
    (MODEM_SET_BIT mf)
  = asserted.
Proof. destruct mf, asserted; reflexivity. Qed.

(** [writeInternal] on a connected socket. *)
Lemma writeInternal_sends (mf : Manufacturer) (s : QVSPSocket) :
  connectedTo mf s ->
  exists s' o,
    writeInternal s = Some (tt, s', o)
    /\ sent mf s s' o [] []
    /\ cts s' = cts s
    /\ (cts s = true ->
        (List.length (writeBuffer s')
         <= Nat.pred (List.length (writeBuffer s)))%nat).
Proof.
  intros Hc.
  destruct (connectedTo_service mf s Hc) as [svc Hsvc].
  assert (Hrx : rxFifoChar s = Some (RX_FIFO (CHARACTERISTIC mf)))
    by (apply Hc).
  rewrite writeInternal_eq. cbn zeta.
  fold (packet (writeBuffer s)). rewrite Hsvc, Hrx, isEmpty_packet.
  destruct (cts s) eqn:Hcts; cbn [andb];
    [destruct (isEmpty (writeBuffer s)) eqn:E; cbn [negb]|].
  - eexists. eexists. split; [reflexivity|]. unfold sent.
    rewrite (isEmpty_nil _ E). cbn.
    repeat split; try exact Hc; try (apply Hc); auto.
  - eexists. eexists. split; [reflexivity|]. unfold sent.
    cbn [dataWrites dataWrite app writeReturns handle_eqb].
    rewrite String.eqb_refl. cbn [List.concat]. rewrite !app_nil_r.
    split; [|split; [exact Hcts|]].
    + split; [connected_frame Hc|]. split; [reflexivity|].
      split; [reflexivity|]. split; [cbn; apply packet_rest|].
      split; [constructor; [apply packet_size|constructor]|].
      intros _. right. discriminate.
    + intros _. pose proof (length_rest (writeBuffer s) E) as L. cbn. lia.
  - eexists. eexists. split; [reflexivity|]. unfold sent. cbn.
    rewrite app_nil_r.
    split; [|split; [exact Hcts|discriminate]].
    split; [exact Hc|]. repeat split; auto. congruence.
Qed.

(** [writeData]: the bytes are queued and, if CTS is set, the first packet
    of the queue is written at once. *)
Lemma writeData_sends (mf : Manufacturer) (data : QByteArray)
    (s : QVSPSocket) :
  connectedTo mf s ->
  size (writeBuffer s) + size data + 1 <= maxBufferSize s ->
  exists s' o,
    step (call_writeData data) s = Some (tt, s', o)
    /\ sent mf s s' o data [size data]
    /\ cts s' = cts s.
Proof.
  intros Hc Hfit.
  assert (Hopen : isOpen s = true) by (apply Hc).
  assert (Hc1 : connectedTo mf (set_writeBuffer (writeBuffer s ++ data) s))
    by (connected_frame Hc).
  destruct (writeInternal_sends mf _ Hc1) as [s' [o [E [S [C _]]]]].
  cbn [step]. unfold bind. rewrite writeData_eq, Hopen. cbn [negb].
  rewrite gtb_false by lia. rewrite E. cbn [tell].
  exists s', (o ++ [WriteReturned (size data)]).
  split; [reflexivity|]. split; [|exact C].
  destruct S as [S1 [S2 [S3 [S4 [S5 S6]]]]]. unfold sent.
  rewrite writeReturns_app, dataWrites_app, S3.
  cbn [writeReturns dataWrites app]. rewrite !app_nil_r.
  cbn [writeBuffer set_writeBuffer maxBufferSize] in S2, S4.
  rewrite app_nil_r in S4.
  split; [exact S1|]. split; [exact S2|]. split; [reflexivity|].
  split; [exact S4|]. split; [exact S5|exact S6].
Qed.

Ltac detail_slot Hslots :=
  unfold dispatch; unfold bind at 1 2; unfold tell at 1, get at 1;
  rewrite Hslots; cbn [when].

(** A confirmation: if CTS is set, the next packet of the queue is
    written, if there is one. *)
Lemma confirmation_sends (mf : Manufacturer) (v : QByteArray)
    (s : QVSPSocket) :
  connectedTo mf s ->
  exists s' o,
    dispatch (confirmation mf v) s = Some (tt, s', o)
    /\ sent mf s s' o [] []
    /\ cts s' = cts s
    /\ (cts s = true ->
        (List.length (writeBuffer s')
         <= Nat.pred (List.length (writeBuffer s)))%nat).
Proof.
  intros Hc.
  destruct (writeInternal_sends mf s Hc) as [s' [o [E [S [C L]]]]].
  pose proof Hc as [Hopen [Hslots [Hm [Hrx _]]]].
  unfold confirmation. detail_slot Hslots.
  unfold on_characteristicWritten. unfold bind at 1, get at 1.
  rewrite Hrx. cbn [handle_eqb]. rewrite String.eqb_refl, E.
  exists s', (Recv (characteristicWritten (RX_FIFO (CHARACTERISTIC mf)) v)
              :: o).
  split; [reflexivity|]. split; [|split; [exact C|exact L]].
  exact S.
Qed.

(** A notification of MODEM_OUT: the [cts] flag follows it, and if CTS is
    set the first packet of the queue is written. *)
Lemma ctsNotification_sends (mf : Manufacturer) (asserted : bool)
    (s : QVSPSocket) :
  connectedTo mf s ->
  exists s' o,
    dispatch (ctsNotification mf asserted) s = Some (tt, s', o)
    /\ sent mf s s' o [] []
    /\ cts s' = asserted.
Proof.
  intros Hc.
  assert (Hc1 : connectedTo mf (set_cts asserted s))
    by (connected_frame Hc).
  destruct (writeInternal_sends mf _ Hc1) as [s' [o [E [S [C _]]]]].
  pose proof Hc as [Hopen [Hslots [Hm [Hrx [Htx [Hmi Hmo]]]]]].
  unfold ctsNotification. detail_slot Hslots.
  unfold on_characteristicChanged. unfold bind at 1, get at 1.
  rewrite Htx, Hmo. cbn [handle_eqb].
  rewrite modemOut_not_txFifo, String.eqb_refl.
  unfold bind, modify. rewrite Hm, ctsValue, E.
  exists s', (Recv (characteristicChanged (MODEM_OUT (CHARACTERISTIC mf))
                      (if asserted then MODEM_SET_BIT mf
                       else MODEM_CLEAR_BIT mf)) :: o).
  split; [reflexivity|]. split; [exact S|exact C].
Qed.

Lemma inFlight_next (mf : Manufacturer) (s s' : QVSPSocket) (o : list Obs)
    (data : QByteArray) (rets : list Z) (out : list QByteArray) :
  sent mf s s' o data rets -> inFlight mf s' (out ++ dataWrites mf o).
Proof.
  intros (Hc & _ & _ & _ & _ & Hq). split; [exact Hc|].
  intros Hcts. destruct (Hq Hcts) as [Hn|Hn]; [left; exact Hn|right].
  intros Hnil. apply app_eq_nil in Hnil. apply Hn, Hnil.
Qed.

Lemma exchange_conserves (mf : Manufacturer) (acts : list Action) :
  forall (out : list QByteArray) (s : QVSPSocket),
    inFlight mf s out ->
    size (writeBuffer s) + size (offered acts) + 1 <= maxBufferSize s ->
    exists out' s' o,
      exchange mf acts out s = Some (out', s', o)
      /\ inFlight mf s' out'
      /\ cts s' = ctsAfter acts (cts s)
      /\ maxBufferSize s' = maxBufferSize s
      /\ writeReturns o = offeredSizes acts
      /\ List.concat (dataWrites mf o) ++ writeBuffer s'
         = writeBuffer s ++ offered acts
      /\ Forall (fun c => size c <= PACKET_SIZE) (dataWrites mf o).
Proof.
  induction acts as [|a rest IH]; intros out s HK Hfit.
  - exists out, s, []. split; [reflexivity|]. split; [exact HK|].
    cbn. rewrite app_nil_r. repeat split. constructor.
  - pose proof HK as [Hc Hq].
    assert (Hstep : forall (c : M unit) (s1 : QVSPSocket) (o1 : list Obs)
                      (data : QByteArray) (rets : list Z)
                      (out1 : list QByteArray),
              c s = Some (tt, s1, o1) ->
              sent mf s s1 o1 data rets ->
              size (writeBuffer s) + size data + size (offered rest) + 1
              <= maxBufferSize s ->
              exists out' s' o,
                answered mf c
                  (fun new => exchange mf rest (out1 ++ new)) s
                = Some (out', s', o)
                /\ inFlight mf s' out'
                /\ cts s' = ctsAfter rest (cts s1)
                /\ maxBufferSize s' = maxBufferSize s
                /\ writeReturns o = rets ++ offeredSizes rest
                /\ List.concat (dataWrites mf o) ++ writeBuffer s'
                   = writeBuffer s ++ data ++ offered rest
                /\ Forall (fun c => size c <= PACKET_SIZE)
                     (dataWrites mf o)).
    { intros c s1 o1 data rets out1 E1 S1 Hf.
      pose proof (inFlight_next mf s s1 o1 data rets out1 S1) as HK1.
      destruct S1 as [Hc1 [Hm1 [Hr1 [Hw1 [Hf1 _]]]]].
      assert (Hfit1 : size (writeBuffer s1) + size (offered rest) + 1
                      <= maxBufferSize s1).
      { pose proof (size_concat_le _ _ _ Hw1) as L.
        rewrite size_app in L. lia. }
      destruct (IH _ s1 HK1 Hfit1)
        as [out2 [s2 [o2 [E2 [HK2 [Hc2 [Hm2 [Hr2 [Hw2 Hf2]]]]]]]]].
      exists out2, s2, (o1 ++ o2).
      split; [unfold answered; rewrite E1, E2; reflexivity|].
      split; [exact HK2|]. split; [exact Hc2|]. split; [congruence|].
      rewrite writeReturns_app, dataWrites_app, concat_app, Hr1, Hr2.
      split; [reflexivity|]. split.
      - rewrite <- app_assoc, Hw2, app_assoc, Hw1, app_assoc. reflexivity.
      - apply Forall_app. split; assumption. }
    destruct a as [data| |asserted];
      cbn [offered offeredSizes exchange ctsAfter] in *.
    + rewrite size_app in Hfit.
      pose proof (size_nonneg (offered rest)) as Hn.
      destruct (writeData_sends mf data s Hc ltac:(lia))
        as [s1 [o1 [E1 [S1 C1]]]].
      destruct (Hstep _ s1 o1 data [size data] out E1 S1 ltac:(lia))
        as [out2 [s2 [o2 [E2 R]]]].
      exists out2, s2, o2. split; [exact E2|].
      rewrite C1 in R. exact R.
    + destruct out as [|v others].
      * apply IH; [exact HK|exact Hfit].
      * destruct (confirmation_sends mf v s Hc) as [s1 [o1 [E1 [S1 [C1 _]]]]].
        change (size []) with 0 in *.
        destruct (Hstep _ s1 o1 [] [] others E1 S1
                    ltac:(change (size []) with 0; lia))
          as [out2 [s2 [o2 [E2 R]]]].
        exists out2, s2, o2. split; [exact E2|].
        rewrite C1 in R. exact R.
    + destruct (ctsNotification_sends mf asserted s Hc)
        as [s1 [o1 [E1 [S1 C1]]]].
      destruct (Hstep _ s1 o1 [] [] out E1 S1
                  ltac:(change (size []) with 0; lia))
        as [out2 [s2 [o2 [E2 R]]]].
      exists out2, s2, o2. split; [exact E2|].
      rewrite C1 in R. exact R.
Qed.

Lemma settle_drains (mf : Manufacturer) (fuel : nat) :
  forall (out : list QByteArray) (s : QVSPSocket),
    inFlight mf s out -> cts s = true ->
    (List.length (writeBuffer s) <= fuel)%nat ->
    exists out' s' o,
      settle mf fuel out s = Some (out', s', o)
      /\ writeReturns o = []
      /\ List.concat (dataWrites mf o) = writeBuffer s
      /\ Forall (fun c => size c <= PACKET_SIZE) (dataWrites mf o)
      /\ writeBuffer s' = [].
Proof.
  induction fuel as [|fuel IH]; intros out s HK Hcts Hfuel.
  - assert (Hnil : writeBuffer s = [])
      by (destruct (writeBuffer s); [reflexivity|cbn in Hfuel; lia]).
    exists out, s, []. cbn. rewrite Hnil.
    destruct out; repeat split; constructor.
  - destruct HK as [Hc Hq].
    destruct out as [|v others].
    + destruct (Hq Hcts) as [Hnil|Hne]; [|congruence].
      exists [], s, []. cbn. rewrite Hnil. repeat split. constructor.
    + cbn [settle].
      destruct (confirmation_sends mf v s Hc) as [s1 [o1 [E1 [S1 [C1 L1]]]]].
      pose proof (inFlight_next mf s s1 o1 [] [] others S1) as HK1.
      destruct S1 as [Hc1 [Hm1 [Hr1 [Hw1 [Hf1 _]]]]].
      rewrite app_nil_r in Hw1. specialize (L1 Hcts).
      destruct (IH _ s1 HK1 ltac:(congruence) ltac:(lia))
        as [out2 [s2 [o2 [E2 [Hr2 [Hw2 [Hf2 Hn2]]]]]]].
      exists out2, s2, (o1 ++ o2).
      split; [unfold answered; rewrite E1, E2; reflexivity|].
      rewrite writeReturns_app, dataWrites_app, concat_app, Hr1, Hr2, Hw2.
      split; [reflexivity|]. split; [exact Hw1|].
      split; [apply Forall_app; split; assumption|exact Hn2].
Qed.

(** C1. Take a connected socket with nothing queued, and a transport that
    confirms each write to RX FIFO it is given, and only those, oldest
    first.  For every sequence of [writeData] calls that submit at most
    [maxBufferSize - 1] bytes in total, with the confirmations and the
    device's CTS notifications arriving at any time between the calls, if
    the device has set CTS in the end: every call returns the size it was
    given; once the transport has confirmed what it was given, nothing is
    left in the write buffer; the chunks written to RX FIFO, concatenated
    in the order of the writes, are the bytes submitted in call order; and
    no chunk is longer than [PACKET_SIZE] = 20. *)
Theorem write_stream_delivered
    (mf : Manufacturer) (s0 : QVSPSocket) (acts : list Action)
    (fuel : nat) :
  connectedTo mf s0 ->
  writeBuffer s0 = [] ->
  size (offered acts) <= maxBufferSize s0 - 1 ->
  ctsAfter acts (cts s0) = true ->
  (List.length (offered acts) <= fuel)%nat ->
  exists out s tr,
    transmit mf acts fuel s0 = Some (out, s, tr)
    /\ writeReturns tr = offeredSizes acts
    /\ List.concat (dataWrites mf tr) = offered acts
    /\ Forall (fun c => size c <= PACKET_SIZE) (dataWrites mf tr)
    /\ writeBuffer s = [].
Proof.
  intros Hc Hempty Htotal Hcts Hfuel.
  assert (HK : inFlight mf s0 [])
    by (split; [exact Hc|intros _; left; exact Hempty]).
  destruct (exchange_conserves mf acts [] s0 HK)
    as [out1 [s1 [o1 [E1 [HK1 [Hc1 [Hm1 [Hr1 [Hw1 Hf1]]]]]]]]].
  { rewrite Hempty. change (size []) with 0. lia. }
  rewrite Hempty in Hw1. cbn [app] in Hw1.
  assert (Hlen : (List.length (writeBuffer s1) <= fuel)%nat).
  { apply (f_equal (@List.length byte)) in Hw1.
    rewrite length_app in Hw1. lia. }
  destruct (settle_drains mf fuel out1 s1 HK1 ltac:(congruence) Hlen)
    as [out2 [s2 [o2 [E2 [Hr2 [Hw2 [Hf2 Hn2]]]]]]].
  exists out2, s2, (o1 ++ o2).
  split; [unfold transmit, bind; rewrite E1, E2; reflexivity|].
  rewrite writeReturns_app, dataWrites_app, concat_app, Hr1, Hr2, Hw2.
  split; [apply app_nil_r|]. split; [exact Hw1|].
  split; [apply Forall_app; split; assumption|exact Hn2].
Qed.

Lemma write_stream_delivered_witness :
  exists out s tr,
    transmit Laird two_writes_confirmed 45 (laird_connected 4096)
    = Some (out, s, tr)
    /\ writeReturns tr = [30; 15]
    /\ dataWrites Laird tr
       = [repeat x61 20; repeat x61 10 ++ repeat x62 10; repeat x62 5]
    /\ List.concat (dataWrites Laird tr) = repeat x61 30 ++ repeat x62 15
    /\ writeBuffer s = [].
Proof.
  assert (H1 : connectedTo Laird (laird_connected 4096))
    by (repeat split; reflexivity).
  assert (H4 : size (offered two_writes_confirmed)
               <= maxBufferSize (laird_connected 4096) - 1)
    by (vm_compute; discriminate).
  assert (H5 : (List.length (offered two_writes_confirmed) <= 45)%nat)
    by (vm_compute; lia).
  destruct (write_stream_delivered Laird (laird_connected 4096)
              two_writes_confirmed 45 H1 eq_refl H4 eq_refl H5)
    as [out [s [tr [E [Hr [Hw [Hf Hn]]]]]]].
  exists out, s, tr. split; [exact E|]. split; [exact Hr|].
  split; [|split; [exact Hw|exact Hn]].
  assert (E' : exists out' s' tr',
            transmit Laird two_writes_confirmed 45 (laird_connected 4096)
            = Some (out', s', tr')
            /\ dataWrites Laird tr'
               = [repeat x61 20; repeat x61 10 ++ repeat x62 10;
                  repeat x62 5]).
  { eexists. eexists. eexists. split; [vm_compute; reflexivity|].
    vm_compute. reflexivity. }
  destruct E' as [out' [s' [tr' [E' D]]]].
  rewrite E in E'. inversion E'; subst. exact D.
Defined.

(** ** C4: when chunks are handed to the transport *)

Lemma gated_suffix (mf : Manufacturer) (l1 l2 : list Obs) :
  forall b, gated mf b (l1 ++ l2) = true -> exists b', gated mf b' l2 = true.
Proof.
  induction l1 as [|o l1 IH]; intros b H.
  - exists b. exact H.
  - cbn [app gated] in H. apply andb_true_iff in H. destruct H as [_ H].
    eapply IH. exact H.
Qed.

Lemma gated_needs_confirmation (mf : Manufacturer) (mid : list Obs)
    (o : Obs) (post : list Obs) :
  forall b,
    gated mf b (mid ++ o :: post) = true ->
    dataWrite mf o <> None ->
    b = true \/ exists c, In c mid /\ confirmationObs mf c = true.
Proof.
  induction mid as [|c mid IH]; intros b H Hd.
  - cbn [app gated] in H. apply andb_true_iff in H. destruct H as [H _].
    destruct (dataWrite mf o); [left; exact H|congruence].
  - cbn [app gated] in H. apply andb_true_iff in H. destruct H as [_ H].
    right. destruct (IH _ H Hd) as [Hc | [c' [Hin Hc']]].
    + exists c. split; [left; reflexivity|exact Hc].
    + exists c'. split; [right; exact Hin|exact Hc'].
Qed.

Lemma gated_in_flight (mf : Manufacturer) (tr : list Obs) (b : bool) :
  gated mf b tr = true -> one_write_in_flight mf tr.
Proof.
  intros H pre v1 mid v2 post Htr. subst tr.
  destruct (gated_suffix mf _ _ _ H) as [b' H1].
  cbn [gated] in H1. apply andb_true_iff in H1. destruct H1 as [_ H1].
  cbn [confirmationObs] in H1.
  apply gated_needs_confirmation in H1.
  - destruct H1 as [H1 | [c [Hin Hc]]]; [discriminate|].
    destruct c as [e| | | |]; try discriminate Hc.
    destruct e; try discriminate Hc.
    cbn in Hc. apply String.eqb_eq in Hc. subst info.
    exists value. exact Hin.
  - cbn. rewrite String.eqb_refl. discriminate.
Qed.

(** C4 (amended). On a connected socket a chunk is handed to the transport
    only by [writeInternal], which runs once per [writeData] call, once per
    write confirmation for RX FIFO and once per MODEM_OUT notification, and
    hands over at most one chunk of at most [PACKET_SIZE] bytes each time:
    there are never more chunks than such triggers.  In an execution without
    [writeData] calls and MODEM_OUT notifications, a write confirmation for
    RX FIFO is received between any two chunks. *)
Theorem data_writes_follow_triggers
    (mf : Manufacturer) (s0 : QVSPSocket) (ins : list Input)
    (s : QVSPSocket) (tr : list Obs) :
  connectedTo mf s0 ->
  forallb steadyInput ins = true ->
  run ins s0 = Some (tt, s, tr) ->
  (List.length (dataWrites mf tr) <= triggerCount mf ins)%nat
  /\ Forall (fun c => size c <= PACKET_SIZE) (dataWrites mf tr)
  /\ (forallb (confirmationGated mf) ins = true ->
      one_write_in_flight mf tr).
Proof.
  intros Hc Hst Hrun.
  destruct (run_steady mf ins s0 Hc Hst) as [s' [o [acc [rets [E [P _]]]]]].
  rewrite Hrun in E. inversion E; subst s' o. clear E.
  destruct P as [_ [_ [_ [Hf [Hn [_ Hg]]]]]].
  split; [exact Hn|]. split; [exact Hf|].
  intros Hgated. eapply gated_in_flight. apply Hg. exact Hgated.
Qed.

Lemma data_writes_follow_triggers_witness :
  connectedTo Laird laird_queued
  /\ forallb steadyInput two_confirmations = true
  /\ forallb (confirmationGated Laird) two_confirmations = true
  /\ exists s tr,
       run two_confirmations laird_queued = Some (tt, s, tr)
       /\ dataWrites Laird tr = [repeat x61 20; repeat x61 20]
       /\ one_write_in_flight Laird tr.
Proof.
  assert (H1 : connectedTo Laird laird_queued) by (repeat split; reflexivity).
  split; [exact H1|]. split; [reflexivity|]. split; [reflexivity|].
  eexists. eexists.
  assert (Hrun : run two_confirmations laird_queued = Some (tt, _, _))
    by (vm_compute; reflexivity).
  split; [exact Hrun|]. split; [reflexivity|].
  destruct (data_writes_follow_triggers Laird laird_queued two_confirmations
              _ _ H1 eq_refl Hrun) as [_ [_ H]].
  apply H. reflexivity.
Defined.

(** C4, as stated, fails: right after the handshake, with CTS set, two
    [writeData] calls in a row hand two chunks to the transport, and no
    write confirmation is received between them. *)
Lemma writes_do_not_wait_for_confirmation :
  exists s tr,
    run handshake_then_two_writes QVSPSocket_default = Some (tt, s, tr)
    /\ dataWrites Laird tr = [[x68]; [x69]]
    /\ ~ one_write_in_flight Laird tr.
Proof.
  eexists. eexists. split; [vm_compute; reflexivity|].
  split; [reflexivity|].
  intros H.
  destruct (H (trace (run laird_handshake QVSPSocket_default))
              [x68] [Emit (bytesWritten 1); WriteReturned 1]
              [x69] [Emit (bytesWritten 1); WriteReturned 1])
    as [v Hin].
  - vm_compute. reflexivity.
  - cbn in Hin. destruct Hin as [Hin|[Hin|[]]]; discriminate Hin.
Qed.

(** ** C8: the BlueRadios mode switch comes first *)

Lemma characteristic_cases (details : ServiceDetails) (uuid : QBluetoothUuid) :
  characteristic details uuid = None
  \/ characteristic details uuid = Some uuid.
Proof.
  induction details as [|[u n] rest IH]; cbn [characteristic]; [left; reflexivity|].
  destruct (String.eqb u uuid); [right; reflexivity|exact IH].
Qed.

Lemma descriptor_cases (details : ServiceDetails)
    (c : QLowEnergyCharacteristic) :
  descriptor details c = None \/ descriptor details c = c.
Proof.
  destruct c as [u|]; cbn [descriptor]; [|left; reflexivity].
  destruct (hasNotify details u); [right|left]; reflexivity.
Qed.

Lemma descriptor_characteristic_cases (details : ServiceDetails)
    (uuid : QBluetoothUuid) :
  descriptor details (characteristic details uuid) = None
  \/ descriptor details (characteristic details uuid) = Some uuid.
Proof.
  destruct (descriptor_cases details (characteristic details uuid)) as [H|H];
    [left; exact H|].
  rewrite H. apply characteristic_cases.
Qed.

Lemma isValid_Some (h : option QBluetoothUuid) (u : QBluetoothUuid) :
  isValid h = true -> h = None \/ h = Some u -> h = Some u.
Proof. intros Hv [H|H]; [rewrite H in Hv; discriminate|exact H]. Qed.

Ltac bool_hyps :=
  repeat match goal with
         | H : negb _ = true |- _ => apply negb_true_iff in H
         | H : negb _ = false |- _ => apply negb_false_iff in H
         | H : _ && _ = true |- _ => apply andb_true_iff in H; destruct H
         | H : _ || _ = false |- _ => apply orb_false_iff in H; destruct H
         end.

Ltac rewrite_fields :=
  repeat match goal with
         | H : service ?x = _ |- context [service ?x] => rewrite H
         | H : txFifoNotify ?x = _ |- context [txFifoNotify ?x] => rewrite H
         | H : modemOutNotify ?x = _ |- context [modemOutNotify ?x] =>
             rewrite H
         | H : brspModeChar ?x = _ |- context [brspModeChar ?x] => rewrite H
         | H : m ?x = _ |- context [m ?x] => rewrite H
         end.

Ltac resolved_close G1 G2 K :=
  rewrite_fields; cbn in *;
  repeat match goal with |- _ /\ _ => split end;
  first
    [ exact G1
    | exact G2
    | exact K
    | apply characteristic_cases
    | apply descriptor_characteristic_cases
    | match goal with
      | |- _ \/ (exists mf, descriptor ?d (characteristic ?d (MODEM_OUT (CHARACTERISTIC ?x))) = _) =>
          destruct (descriptor_characteristic_cases d (MODEM_OUT (CHARACTERISTIC x)));
          [left; assumption | right; exists x; assumption]
      end
    | intros; first [discriminate | apply K; first [assumption|reflexivity|congruence]
                    | apply descriptor_characteristic_cases ] ].

Lemma dispatch_handlesResolved (e : Event) (s s' : QVSPSocket)
    (o : list Obs) :
  handlesResolved s -> dispatch e s = Some (tt, s', o) -> handlesResolved s'.
Proof.
  intros [G1 [G2 K]] H. unfold handlesResolved.
  destruct e; unfold_slots; unfold_monad;
    unfold detailSlotsConnected, serviceSlotsConnected in *;
    split_paths H; finish_path H; cbn.
  all: try (split; [exact G1|split; [exact G2|exact K]]).
  all: try solve [resolved_close G1 G2 K].
  all: rewrite_fields; cbn in *;
  repeat match goal with |- _ /\ _ => split end.
  all: solve [resolved_close G1 G2 K].
Qed.

Lemma tx_blueradios (mf : Manufacturer) :
  TX_FIFO (CHARACTERISTIC mf) = TX_FIFO (CHARACTERISTIC BlueRadios) ->
  mf = BlueRadios.
Proof. destruct mf; [discriminate|reflexivity]. Qed.

Lemma modemOut_not_tx (mf : Manufacturer) :
  MODEM_OUT (CHARACTERISTIC mf) <> TX_FIFO (CHARACTERISTIC BlueRadios).
Proof. destruct mf; discriminate. Qed.

Lemma Manufacturer_eqb_eq (a b : Manufacturer) :
  Manufacturer_eqb a b = true <-> a = b.
Proof. destruct a, b; cbn; split; intros; congruence. Qed.

(** Where a delivery enables the BlueRadios TX FIFO notifications, it is the
    delivery of a write confirmation for the mode characteristic, to a
    socket whose detail slots are connected to a BlueRadios service. *)
Lemma dispatch_notifyOn (e : Event) (s s' : QVSPSocket) (o : list Obs) :
  handlesResolved s -> dispatch e s = Some (tt, s', o) ->
  In (notifyOnTxFifo BlueRadios) o ->
  (exists v outs,
     o = Recv (characteristicWritten BRSP_MODE_CHARACTERISTIC v) :: outs
     /\ forallb (fun x => negb (isRecv x)) outs = true)
  /\ detailSlotsConnected s = true
  /\ m s = BlueRadios.
Proof.
  intros [G1 [G2 K]] H Hin. unfold notifyOnTxFifo in Hin.
  destruct e; unfold_slots; unfold_monad;
    unfold detailSlotsConnected, serviceSlotsConnected in *;
    split_paths H; finish_path H; cbn in Hin.
  all: repeat (destruct Hin as [Hin|Hin]; try discriminate Hin);
       try contradiction.
  all: repeat match goal with
              | H : txFifoNotify ?x = _ |- _ => rewrite H in Hin
              | H : modemOutNotify ?x = _ |- _ => rewrite H in Hin
              end.
  all: injection Hin as Hx; bool_hyps.
  (* stateChanged, Laird branch *)
  1-4: (exfalso;
        destruct (descriptor_characteristic_cases details
                    (TX_FIFO (CHARACTERISTIC (m s)))) as [Hd|Hd];
        rewrite Hd in Hx; [discriminate Hx|];
        injection Hx as Hx; apply tx_blueradios in Hx;
        rewrite Hx in *; discriminate).
  (* descriptorWritten *)
  1: (exfalso;
      destruct G2 as [G2|[mf G2]]; [congruence|];
      apply (modemOut_not_tx mf); rewrite G2 in Hx; injection Hx as Hx;
      exact Hx).
  (* characteristicWritten *)
  all: match goal with
       | Hb : brspModeChar _ = Some ?q, He : (?i =? ?q)%string = true |- _ =>
           apply String.eqb_eq in He; subst i
       end.
  all: destruct G1 as [G1|G1]; [discriminate G1|]; injection G1 as G1; subst.
  all: split; [eexists; eexists; split; reflexivity|].
  all: split; [reflexivity|].
  all: destruct (K eq_refl) as [K1|K1]; rewrite K1 in Hx; [discriminate Hx|].
  all: injection Hx as Hx; apply tx_blueradios; exact Hx.
Qed.

(** Where a delivery leaves the detail slots connected to a BlueRadios
    service, they were so before, or the delivery wrote the mode switch. *)
Lemma dispatch_modeSwitch (e : Event) (s s' : QVSPSocket) (o : list Obs) :
  dispatch e s = Some (tt, s', o) ->
  detailSlotsConnected s' = true -> m s' = BlueRadios ->
  (detailSlotsConnected s = true /\ m s = BlueRadios) \/ In modeSwitch o.
Proof.
  intros H Hs Hm. unfold modeSwitch.
  destruct e; unfold_slots; unfold_monad;
    unfold detailSlotsConnected, serviceSlotsConnected in *;
    split_paths H; finish_path H; cbn in Hs, Hm |- *.
  all: repeat match goal with
              | H : service ?x = _ |- _ => rewrite H in Hs
              end; cbn in Hs; try discriminate Hs.
  all: try (left; split; first [assumption|reflexivity]).
  all: cbn [andb] in *; bool_hyps.
  all: try (rewrite Hm in *; cbn in *; discriminate).
  all: try (right; right; left;
            match goal with
            | Hv : isValid (characteristic ?d BRSP_MODE_CHARACTERISTIC) = true
              |- _ =>
                rewrite (isValid_Some _ BRSP_MODE_CHARACTERISTIC Hv
                           (characteristic_cases d BRSP_MODE_CHARACTERISTIC))
            end; reflexivity).
  all: congruence.
Qed.

Lemma modeSwitchFirst_app (tr o : list Obs) :
  modeSwitchFirst tr ->
  (In (notifyOnTxFifo BlueRadios) o ->
   (exists v outs,
      o = Recv (characteristicWritten BRSP_MODE_CHARACTERISTIC v) :: outs
      /\ forallb (fun x => negb (isRecv x)) outs = true)
   /\ In modeSwitch tr) ->
  modeSwitchFirst (tr ++ o).
Proof.
  intros Htr Ho pre post Heq.
  apply app_eq_app in Heq. destruct Heq as [l [[H1 H2]|[H1 H2]]].
  - destruct l as [|x l].
    + cbn [app] in H2. rewrite app_nil_r in H1. subst pre.
      destruct Ho as [[v [outs [Hv _]]] _];
        [rewrite <- H2; left; reflexivity|].
      rewrite <- H2 in Hv. discriminate Hv.
    + cbn [app] in H2. injection H2 as Hx Hpost. subst x.
      apply (Htr pre l). exact H1.
  - destruct Ho as [[v [outs [Hv Hno]]] Hms];
      [rewrite H2; apply in_or_app; right; left; reflexivity|].
    rewrite Hv in H2. destruct l as [|x l]; [discriminate H2|].
    cbn [app] in H2. injection H2 as Hx Houts. subst x.
    exists tr, v, l. split; [exact H1|]. split; [|exact Hms].
    rewrite Houts, forallb_app in Hno.
    apply andb_true_iff in Hno. apply Hno.
Qed.


Lemma valid_characteristic (details : ServiceDetails) (u : QBluetoothUuid) :
  isValid (characteristic details u) = true ->
  characteristic details u = Some u.
Proof. intros H. apply isValid_Some; [exact H|apply characteristic_cases]. Qed.

Lemma valid_descriptor (details : ServiceDetails) (u : QBluetoothUuid) :
  isValid (descriptor details (characteristic details u)) = true ->
  descriptor details (characteristic details u) = Some u.
Proof.
  intros H. apply isValid_Some; [exact H|].
  apply descriptor_characteristic_cases.
Qed.

Lemma offers_facts (details : ServiceDetails) (mf : Manufacturer) :
  offers details mf = true ->
  characteristic details (RX_FIFO (CHARACTERISTIC mf))
  = Some (RX_FIFO (CHARACTERISTIC mf))
  /\ characteristic details (TX_FIFO (CHARACTERISTIC mf))
     = Some (TX_FIFO (CHARACTERISTIC mf))
  /\ characteristic details (MODEM_IN (CHARACTERISTIC mf))
     = Some (MODEM_IN (CHARACTERISTIC mf))
  /\ characteristic details (MODEM_OUT (CHARACTERISTIC mf))
     = Some (MODEM_OUT (CHARACTERISTIC mf))
  /\ hasNotify details (TX_FIFO (CHARACTERISTIC mf)) = true
  /\ hasNotify details (MODEM_OUT (CHARACTERISTIC mf)) = true
  /\ (mf = BlueRadios ->
      characteristic details BRSP_MODE_CHARACTERISTIC
      = Some BRSP_MODE_CHARACTERISTIC).
Proof.
  unfold offers. intros H.
  apply andb_true_iff in H. destruct H as [H H7].
  apply andb_true_iff in H. destruct H as [H H6].
  apply andb_true_iff in H. destruct H as [H H5].
  apply andb_true_iff in H. destruct H as [H H4].
  apply andb_true_iff in H. destruct H as [H H3].
  apply andb_true_iff in H. destruct H as [H1 H2].
  apply valid_characteristic in H1, H2, H3, H4.
  rewrite H2 in H5. rewrite H4 in H6. cbn [descriptor] in H5, H6.
  repeat split; try assumption.
  - destruct (hasNotify details (TX_FIFO (CHARACTERISTIC mf)));
      [reflexivity|discriminate H5].
  - destruct (hasNotify details (MODEM_OUT (CHARACTERISTIC mf)));
      [reflexivity|discriminate H6].
  - intros ->. apply valid_characteristic. exact H7.
Qed.

Lemma handle_eqb_refl (u : QBluetoothUuid) : handle_eqb (Some u) (Some u) = true.
Proof. cbn. apply String.eqb_refl. Qed.

Lemma brsp_not_rx : handle_eqb (Some BRSP_MODE_CHARACTERISTIC) (Some (RX_FIFO (CHARACTERISTIC BlueRadios))) = false.
Proof. vm_compute. reflexivity. Qed.

Lemma brsp_not_modemIn : handle_eqb (Some BRSP_MODE_CHARACTERISTIC) (Some (MODEM_IN (CHARACTERISTIC BlueRadios))) = false.
Proof. vm_compute. reflexivity. Qed.

Lemma on_characteristicWritten_eq (info : QLowEnergyCharacteristic) (value : QByteArray) (s : QVSPSocket) :
  on_characteristicWritten info value s =
  if handle_eqb info (rxFifoChar s) then writeInternal s
  else if handle_eqb info (modemInChar s) then
    let s1 := set_rts (QByteArray_eqb value (MODEM_SET_BIT (m s))) s in
    if rts s1 && negb (isOpen s1) then
      match service s with
      | Some _ => Some (tt, s1, [Req (readCharacteristic (modemOutChar s))])
      | None => None
      end
    else Some (tt, s1, [])
  else if handle_eqb info (brspModeChar s) then
    match service s with
    | Some _ => Some (tt, s, [Req (writeDescriptor (txFifoNotify s) DESC_NOTIFY_ON)])
    | None => None
    end
  else Some (tt, s, []).
Proof.
  unfold on_characteristicWritten. unfold_monad.
  destruct (handle_eqb info (rxFifoChar s)).
  - destruct (writeInternal s) as [[[[] s'] o]|]; reflexivity.
  - destruct (handle_eqb info (modemInChar s)).
    + cbn. destruct (QByteArray_eqb value (MODEM_SET_BIT (m s)) && negb (openMode s)); cbn;
        [destruct (service s)|]; reflexivity.
    + destruct (handle_eqb info (brspModeChar s)); [|reflexivity].
      destruct (service s); reflexivity.
Qed.

Lemma modeSwitch_confirmed (s : QVSPSocket) (v : QByteArray) :
  detailSlotsConnected s = true ->
  rxFifoChar s = Some (RX_FIFO (CHARACTERISTIC BlueRadios)) ->
  modemInChar s = Some (MODEM_IN (CHARACTERISTIC BlueRadios)) ->
  brspModeChar s = Some BRSP_MODE_CHARACTERISTIC ->
  txFifoNotify s = Some (TX_FIFO (CHARACTERISTIC BlueRadios)) ->
  dispatch (characteristicWritten BRSP_MODE_CHARACTERISTIC v) s
  = Some (tt, s, [Recv (characteristicWritten BRSP_MODE_CHARACTERISTIC v);
                  notifyOnTxFifo BlueRadios]).
Proof.
  intros Hs Hrx Hmi Hb Htx.
  unfold dispatch. unfold bind at 1 2. unfold tell at 1, get at 1.
  rewrite Hs. cbn [when]. rewrite on_characteristicWritten_eq.
  rewrite Hrx, Hmi, Hb, Htx, brsp_not_rx, brsp_not_modemIn, handle_eqb_refl.
  unfold detailSlotsConnected in Hs.
  destruct (service s); [reflexivity|discriminate].
Qed.

(** The [stateChanged] slot on a service that offers everything: the
    handles are resolved, the detail slots connected, and the first write of
    the handshake is issued. *)
Lemma discovered (details : ServiceDetails) (s : QVSPSocket) :
  serviceSlotsConnected s = true ->
  offers details (m s) = true ->
  exists s',
    dispatch (service_stateChanged ServiceDiscovered details) s
    = Some (tt, s',
            [Recv (service_stateChanged ServiceDiscovered details);
             match m s with
             | BlueRadios => modeSwitch
             | Laird => notifyOnTxFifo Laird
             end])
    /\ detailSlotsConnected s' = true
    /\ m s' = m s
    /\ rxFifoChar s' = Some (RX_FIFO (CHARACTERISTIC (m s)))
    /\ txFifoChar s' = Some (TX_FIFO (CHARACTERISTIC (m s)))
    /\ modemInChar s' = Some (MODEM_IN (CHARACTERISTIC (m s)))
    /\ modemOutChar s' = Some (MODEM_OUT (CHARACTERISTIC (m s)))
    /\ txFifoNotify s' = Some (TX_FIFO (CHARACTERISTIC (m s)))
    /\ modemOutNotify s' = Some (MODEM_OUT (CHARACTERISTIC (m s)))
    /\ (m s = BlueRadios -> brspModeChar s' = Some BRSP_MODE_CHARACTERISTIC).
Proof.
  intros Hslots Hoff.
  destruct (offers_facts details (m s) Hoff)
    as [C1 [C2 [C3 [C4 [N1 [N2 C5]]]]]].
  destruct (dispatch_total (service_stateChanged ServiceDiscovered details) s)
    as [s' [o H]].
  exists s'. rewrite H.
  unfold dispatch, on_service_stateChanged, connectDetailSlots in H.
  unfold_monad.
  rewrite Hslots in H.
  unfold serviceSlotsConnected, detailSlotsConnected in *.
  split_paths H; finish_path H.
  all: bool_hyps.
  all: destruct (m s) eqn:Hm; try discriminate.
  all: try specialize (C5 eq_refl).
  all: repeat match goal with
              | H : context [characteristic ?d ?u],
                C : characteristic ?d ?u = _ |- _ =>
                  rewrite C in H; cbn [descriptor isValid negb orb andb] in H
              | H : context [hasNotify ?d ?u], C : hasNotify ?d ?u = _ |- _ =>
                  rewrite C in H; cbn [descriptor isValid negb orb andb] in H
              end.
  all: try discriminate.
  all: rewrite ?C1, ?C2, ?C3, ?C4, ?C5; cbn [descriptor];
       rewrite ?N1, ?N2.
  all: (split; [reflexivity|]); cbn; repeat split; try discriminate;
       exact Hm.
Qed.

Ltac notin_list H :=
  cbn in H; repeat (destruct H as [H|H]; [discriminate H|]); contradiction.

(** A member function called by the application enables no notification
    and connects no slot. *)
Lemma call_quiet (i : Input) (s s' : QVSPSocket) (o : list Obs) :
  match i with
  | call_readData _ _ => isOpen s = false
  | deliver _ => False
  | _ => True
  end ->
  handlesResolved s -> step i s = Some (tt, s', o) ->
  handlesResolved s'
  /\ ~ In (notifyOnTxFifo BlueRadios) o
  /\ (detailSlotsConnected s' = true -> m s' = BlueRadios ->
      detailSlotsConnected s = true /\ m s = BlueRadios).
Proof.
  intros Hi HR E. unfold notifyOnTxFifo, handlesResolved in *.
  destruct HR as [G1 [G2 K]].
  destruct i; try contradiction;
    try (cbn [step] in E; unfold bind in E; rewrite readData_eq, Hi in E);
    unfold_calls; unfold_monad; unfold detailSlotsConnected in *;
    split_paths E; finish_path E; cbn.
  all: (split; [split; [exact G1|split; [exact G2|]]|split]).
  all: try (intros Hin; notin_list Hin).
  all: try exact K.
  all: try (intros; split; assumption).
  all: try discriminate.
  all: rewrite_fields; cbn; first [exact K | intros; split; assumption].
Qed.

Lemma drain_quiet (maxlen : Z) (s s' : QVSPSocket) (r : Z * QByteArray)
    (o : list Obs) :
  handlesResolved s -> drain maxlen s = Some (r, s', o) ->
  handlesResolved s'
  /\ ~ In (notifyOnTxFifo BlueRadios)
         (o ++ [ReadReturned (fst r) (snd r)])
  /\ (detailSlotsConnected s' = true -> m s' = BlueRadios ->
      detailSlotsConnected s = true /\ m s = BlueRadios).
Proof.
  intros HR E. unfold notifyOnTxFifo, handlesResolved in *.
  destruct HR as [G1 [G2 K]].
  rewrite drain_eq in E. cbn zeta in E. unfold detailSlotsConnected in *.
  split_paths E; finish_path E; cbn.
  all: (split; [split; [exact G1|split; [exact G2|]]|split]).
  all: try (intros Hin; notin_list Hin).
  all: rewrite_fields; cbn; first [exact K | intros; split; assumption].
Qed.

Lemma handshakeInv_quiet (s s' : QVSPSocket) (tr o : list Obs) :
  handshakeInv s tr ->
  handlesResolved s' ->
  ~ In (notifyOnTxFifo BlueRadios) o ->
  (detailSlotsConnected s' = true -> m s' = BlueRadios ->
   detailSlotsConnected s = true /\ m s = BlueRadios) ->
  handshakeInv s' (tr ++ o).
Proof.
  intros [_ [Hms Hord]] HR Hno Hsl. unfold handshakeInv.
  split; [exact HR|]. split.
  - intros H1 H2. destruct (Hsl H1 H2) as [H3 H4].
    apply in_or_app. left. apply Hms; assumption.
  - apply modeSwitchFirst_app; [exact Hord|].
    intros Hin. contradiction.
Qed.

Lemma handshakeInv_new (max : Z) : handshakeInv (QVSPSocket_new max) [].
Proof.
  unfold handshakeInv, handlesResolved, modeSwitchFirst. cbn.
  split; [repeat split; try (left; reflexivity); discriminate|].
  split; [discriminate|].
  intros pre post H. destruct pre; discriminate H.
Qed.

Lemma handshakeInv_run (max : Z) (ins : list Input) (s : QVSPSocket)
    (tr : list Obs) :
  run ins (QVSPSocket_new max) = Some (tt, s, tr) -> handshakeInv s tr.
Proof.
  intros H.
  apply (Inv_run handshakeInv) with (tr := []) in H;
    [exact H| | | |apply handshakeInv_new].
  - intros e s0 tr0 s' o HI E.
    pose proof HI as [HR [Hms Hord]].
    unfold handshakeInv.
    split; [exact (dispatch_handlesResolved e s0 s' o HR E)|]. split.
    + intros H1 H2.
      destruct (dispatch_modeSwitch e s0 s' o E H1 H2) as [[H3 H4]|H3];
        apply in_or_app; [left; apply Hms; assumption|right; exact H3].
    + apply modeSwitchFirst_app; [exact Hord|].
      intros Hin.
      destruct (dispatch_notifyOn e s0 s' o HR E Hin) as [Hshape [H1 H2]].
      split; [exact Hshape|apply Hms; assumption].
  - intros maxlen s0 tr0 r s' o HI E.
    destruct (drain_quiet maxlen s0 s' r o (proj1 HI) E) as [HR [Hno Hsl]].
    apply handshakeInv_quiet with (s := s0); assumption.
  - intros i s0 tr0 s' o Hi HI E.
    destruct (call_quiet i s0 s' o Hi (proj1 HI) E) as [HR [Hno Hsl]].
    apply handshakeInv_quiet with (s := s0); assumption.
Qed.

(** C8. In every execution the write that enables notifications on the
    BlueRadios TX FIFO descriptor is issued only in the slot run for a write
    confirmation of the mode characteristic, and the mode-switch write
    precedes that confirmation.  When the service is discovered with
    everything on offer, a BlueRadios socket writes the mode-switch payload
    and nothing else, and enables the TX FIFO notifications on the
    confirmation; a Laird socket enables them at once, with no mode-switch
    write. *)
Theorem mode_switch_before_notify
    (max : Z) (ins : list Input) (s : QVSPSocket) (tr : list Obs) :
  run ins (QVSPSocket_new max) = Some (tt, s, tr) ->
  modeSwitchFirst tr
  /\ forall details,
       serviceSlotsConnected s = true ->
       offers details (m s) = true ->
       exists s',
         dispatch (service_stateChanged ServiceDiscovered details) s
         = Some (tt, s',
                 [Recv (service_stateChanged ServiceDiscovered details);
                  match m s with
                  | BlueRadios => modeSwitch
                  | Laird => notifyOnTxFifo Laird
                  end])
         /\ (m s = BlueRadios ->
             forall v,
               dispatch (characteristicWritten BRSP_MODE_CHARACTERISTIC v) s'
               = Some (tt, s',
                       [Recv (characteristicWritten
                                BRSP_MODE_CHARACTERISTIC v);
                        notifyOnTxFifo BlueRadios])).
Proof.
  intros Hrun. split.
  - apply (handshakeInv_run max ins s tr Hrun).
  - intros details Hslots Hoff.
    destruct (discovered details s Hslots Hoff)
      as [s' [E [H1 [H2 [H3 [_ [H5 [_ [H7 [_ H9]]]]]]]]]].
    exists s'. split; [exact E|].
    intros Hm v. rewrite Hm in *.
    apply modeSwitch_confirmed; auto.
Qed.

Lemma mode_switch_before_notify_witness :
  exists s tr,
    run blueradios_handshake QVSPSocket_default = Some (tt, s, tr)
    /\ In modeSwitch tr
    /\ In (notifyOnTxFifo BlueRadios) tr
    /\ modeSwitchFirst tr.
Proof.
  eexists. eexists.
  assert (Hrun : run blueradios_handshake (QVSPSocket_new 4096)
                 = Some (tt, _, _)) by (vm_compute; reflexivity).
  split; [exact Hrun|].
  split; [cbn; tauto|]. split; [cbn; tauto|].
  destruct (mode_switch_before_notify 4096 blueradios_handshake _ _ Hrun)
    as [H _].
  exact H.
Defined.

(** * Further properties of the socket *)

(** ** The write buffer stays below [maxBufferSize] *)

Lemma writeBounded_run (max : Z) (ins : list Input) (s : QVSPSocket)
    (tr : list Obs) :
  0 < max ->
  run ins (QVSPSocket_new max) = Some (tt, s, tr) ->
  size (writeBuffer s) < maxBufferSize s.
Proof.
  intros Hmax H.
  apply (Inv_run (fun s _ => size (writeBuffer s) < maxBufferSize s))
    with (tr := []) in H; [exact H| | | |exact Hmax].
  - intros e s0 _ s' o HI E.
    destruct e; unfold_slots; unfold_monad; split_paths E; finish_path E;
      cbn; try exact HI.
    all: match goal with
         | |- size (skipn ?n ?b) < _ => pose proof (size_skipn n b); lia
         end.
  - intros maxlen s0 _ r s' o HI E. rewrite drain_eq in E. cbn zeta in E.
    split_paths E; finish_path E; exact HI.
  - intros i s0 _ s' o Hi HI E.
    destruct i; try contradiction;
      try (cbn [step] in E; unfold bind in E; rewrite readData_eq, Hi in E);
      unfold_calls; unfold_monad; split_paths E; finish_path E;
      cbn; try exact HI.
    all: zbool; rewrite ?size_app.
    all: try match goal with
             | |- size (skipn ?n ?b) < _ =>
                 pose proof (size_skipn n b); rewrite size_app in *; lia
             end.
    all: try lia.
    all: pose proof (size_nonneg (writeBuffer s0));
         change (size []) with 0; lia.
Qed.

(** X1. At every point an execution of a socket built with a positive
    [maxBufferSize] can reach, fewer than [maxBufferSize] bytes wait to be
    written: [bytesToWrite] never reaches the bound. *)
Theorem bytesToWrite_bounded
    (max : Z) (ins : list Input) (s : QVSPSocket) (tr : list Obs) :
  0 < max ->
  run ins (QVSPSocket_new max) = Some (tt, s, tr) ->
  0 <= bytesToWrite s < max.
Proof.
  intros Hmax Hrun. unfold bytesToWrite.
  pose proof (writeBounded_run max ins s tr Hmax Hrun) as Hw.
  assert (Hinit : bounded (QVSPSocket_new max)) by exact Hmax.
  destruct (run_bounded _ _ _ _ Hinit Hrun) as [_ Hm].
  cbn in Hm. pose proof (size_nonneg (writeBuffer s)). lia.
Qed.

Lemma bytesToWrite_bounded_witness :
  0 < 4096
  /\ exists s tr,
       run laird_cts_cleared_write (QVSPSocket_new 4096) = Some (tt, s, tr)
       /\ bytesToWrite s = 30
       /\ 0 <= bytesToWrite s < 4096.
Proof.
  split; [reflexivity|].
  eexists. eexists.
  assert (Hrun : run laird_cts_cleared_write (QVSPSocket_new 4096)
                 = Some (tt, _, _)) by (vm_compute; reflexivity).
  split; [exact Hrun|]. split; [reflexivity|].
  exact (bytesToWrite_bounded 4096 laird_cts_cleared_write _ _
           (eq_refl : 0 < 4096) Hrun).
Defined.

(** ** [_error] and [_state] are what the signals announce *)

Lemma lastError_app (e0 : ServiceError) (l1 l2 : list Obs) :
  lastError e0 (l1 ++ l2) = lastError (lastError e0 l1) l2.
Proof.
  revert e0. induction l1 as [|o l1 IH]; intros e0; [reflexivity|].
  cbn [app lastError]. destruct o as [| g | | |]; try apply IH.
  destruct g; apply IH.
Qed.

Lemma lastState_app (st0 : SocketState) (l1 l2 : list Obs) :
  lastState st0 (l1 ++ l2) = lastState (lastState st0 l1) l2.
Proof.
  revert st0. induction l1 as [|o l1 IH]; intros st0; [reflexivity|].
  cbn [app lastState]. destruct o as [| g | | |]; try apply IH.
  destruct g; apply IH.
Qed.

Lemma signals_run (max : Z) (ins : list Input) (s : QVSPSocket)
    (tr : list Obs) :
  run ins (QVSPSocket_new max) = Some (tt, s, tr) ->
  _error s = lastError NoError tr /\ _state s = lastState UnconnectedState tr.
Proof.
  intros H.
  apply (Inv_run (fun s tr => _error s = lastError NoError tr
                              /\ _state s = lastState UnconnectedState tr))
    with (tr := []) in H; [exact H| | | |split; reflexivity].
  - intros e s0 tr0 s' o [HE HS] E.
    rewrite lastError_app, lastState_app, <- HE, <- HS.
    destruct e; unfold_slots; unfold_monad; split_paths E; finish_path E;
      cbn; split; reflexivity.
  - intros maxlen s0 tr0 r s' o [HE HS] E.
    rewrite lastError_app, lastState_app, <- HE, <- HS.
    rewrite drain_eq in E. cbn zeta in E.
    split_paths E; finish_path E; cbn; split; reflexivity.
  - intros i s0 tr0 s' o Hi [HE HS] E.
    rewrite lastError_app, lastState_app, <- HE, <- HS.
    destruct i; try contradiction;
      try (cbn [step] in E; unfold bind in E; rewrite readData_eq, Hi in E);
      unfold_calls; unfold_monad; split_paths E; finish_path E;
      cbn; split; reflexivity.
Qed.

Lemma restState_run (max : Z) (ins : list Input) (s : QVSPSocket)
    (tr : list Obs) :
  run ins (QVSPSocket_new max) = Some (tt, s, tr) ->
  _state s = UnconnectedState \/ _state s = ConnectingState
  \/ _state s = ConnectedState.
Proof.
  intros H.
  apply (Inv_run (fun s _ => _state s = UnconnectedState
                             \/ _state s = ConnectingState
                             \/ _state s = ConnectedState))
    with (tr := []) in H; [exact H| | | |left; reflexivity].
  - intros e s0 _ s' o HI E.
    destruct e; unfold_slots; unfold_monad; split_paths E; finish_path E;
      cbn; try exact HI; tauto.
  - intros maxlen s0 _ r s' o HI E. rewrite drain_eq in E. cbn zeta in E.
    split_paths E; finish_path E; exact HI.
  - intros i s0 _ s' o Hi HI E.
    destruct i; try contradiction;
      try (cbn [step] in E; unfold bind in E; rewrite readData_eq, Hi in E);
      unfold_calls; unfold_monad; split_paths E; finish_path E;
      cbn; try exact HI; tauto.
Qed.

(** X2. The last error, [_error], is always the error of the last [error]
    signal emitted, and [NoError] as long as none was: no error is recorded
    silently and none is signalled without being recorded. *)
Theorem error_is_last_signalled
    (max : Z) (ins : list Input) (s : QVSPSocket) (tr : list Obs) :
  run ins (QVSPSocket_new max) = Some (tt, s, tr) ->
  _error s = lastError NoError tr.
Proof. intros H. apply (signals_run max ins s tr H). Qed.

Lemma error_is_last_signalled_witness :
  exists s tr,
    run (laird_one_packet
         ++ [deliver (characteristicChanged (TX_FIFO (CHARACTERISTIC Laird))
                        [x42]);
             deliver (service_error DescriptorWriteError)])
        (QVSPSocket_new 21)
    = Some (tt, s, tr)
    /\ _error s = DescriptorWriteError
    /\ _error s = lastError NoError tr.
Proof.
  eexists. eexists.
  match goal with
  | |- run ?i ?s0 = _ /\ _ =>
      assert (Hrun : run i s0 = Some (tt, _, _)) by (vm_compute; reflexivity)
  end.
  split; [exact Hrun|]. split; [reflexivity|].
  exact (error_is_last_signalled 21 _ _ _ Hrun).
Defined.

(** X3. [state()] is always the state of the last [stateChanged] signal
    emitted ([UnconnectedState] as long as none was); between calls and
    deliveries it is one of [UnconnectedState], [ConnectingState] and
    [ConnectedState] -- [ClosingState] is only passed through inside
    [close] -- and it is [ConnectedState] exactly when the device is
    open. *)
Theorem state_is_last_signalled
    (max : Z) (ins : list Input) (s : QVSPSocket) (tr : list Obs) :
  run ins (QVSPSocket_new max) = Some (tt, s, tr) ->
  state s = lastState UnconnectedState tr
  /\ (state s = UnconnectedState \/ state s = ConnectingState
      \/ state s = ConnectedState)
  /\ (isOpen s = true <-> state s = ConnectedState).
Proof.
  intros H. unfold state.
  split; [apply (signals_run max ins s tr H)|].
  split; [apply (restState_run max ins s tr H)|].
  apply (coherent_run max ins s tr H).
Qed.

Lemma state_is_last_signalled_witness :
  exists s tr,
    run (laird_handshake ++ [call_close; call_connectToDevice "00:16:A4:00:00:02"])
        (QVSPSocket_new 4096)
    = Some (tt, s, tr)
    /\ In (Emit (stateChanged ClosingState)) tr
    /\ state s = ConnectingState
    /\ state s = lastState UnconnectedState tr.
Proof.
  eexists. eexists.
  match goal with
  | |- run ?i ?s0 = _ /\ _ =>
      assert (Hrun : run i s0 = Some (tt, _, _)) by (vm_compute; reflexivity)
  end.
  split; [exact Hrun|]. split; [cbn; tauto|]. split; [reflexivity|].
  destruct (state_is_last_signalled 4096 _ _ _ Hrun) as [H _]. exact H.
Defined.

(** ** Null pointers *)

Lemma skipn_nil_bytes (n : nat) : skipn n (@nil byte) = [].
Proof. destruct n; reflexivity. Qed.

(** Invariants of the executions that start every connection attempt in
    [UnconnectedState]. *)
Section SingleAttempts.

Variable Inv : QVSPSocket -> list Obs -> Prop.

Hypothesis Inv_dispatch :
  forall e s tr s' o,
    Inv s tr -> dispatch e s = Some (tt, s', o) -> Inv s' (tr ++ o).

Hypothesis Inv_drain :
  forall maxlen s tr r s' o,
    Inv s tr -> drain maxlen s = Some (r, s', o) ->
    Inv s' (tr ++ o ++ [ReadReturned (fst r) (snd r)]).

Hypothesis Inv_call :
  forall i s tr s' o,
    match i with
    | call_connectToDevice _ =>
        state s = UnconnectedState \/ isOpen s = true
    | call_readData _ _ => isOpen s = false
    | deliver _ => False
    | _ => True
    end ->
    Inv s tr -> step i s = Some (tt, s', o) -> Inv s' (tr ++ o).

Lemma attempt_guard (dev : QBluetoothDeviceInfo) (s : QVSPSocket) :
  match state s with UnconnectedState => true | _ => isOpen s end = true ->
  state s = UnconnectedState \/ isOpen s = true.
Proof. destruct (state s); intros H; auto. Qed.

Lemma single_step (i : Input) (rest : list Input) (s : QVSPSocket)
    (tr : list Obs) (s' : QVSPSocket) (o : list Obs) :
  connectsWhenUnconnected (i :: rest) s = true ->
  Inv s tr -> step i s = Some (tt, s', o) ->
  Inv s' (tr ++ o) /\ connectsWhenUnconnected rest s' = true.
Proof.
  intros Hg HI H. cbn [connectsWhenUnconnected] in Hg.
  apply andb_true_iff in Hg. destruct Hg as [Hg Hrest].
  rewrite H in Hrest. split; [|exact Hrest]. clear Hrest.
  destruct i; try (eapply Inv_call; [|exact HI|exact H]; exact I).
  - eapply Inv_call; [|exact HI|exact H].
    exact (attempt_guard remoteDeviceInfo s Hg).
  - destruct (isOpen s) eqn:Hopen.
    + cbn [step] in H. unfold bind in H. rewrite readData_eq in H.
      rewrite Hopen in H. cbn [negb] in H.
      destruct (processEvents pending s) as [[[[] s1] o1]|] eqn:E1;
        [|discriminate].
      destruct (drain maxlen s1) as [[[r s2] o2]|] eqn:E2; [|discriminate].
      cbn in H. inversion H; subst.
      rewrite <- app_assoc, app_assoc.
      eapply Inv_drain; [|exact E2].
      eapply (Inv_processEvents Inv Inv_dispatch); eauto.
    + eapply Inv_call; [|exact HI|exact H]. exact Hopen.
  - cbn [step] in H. eapply Inv_dispatch; eauto.
Qed.

Lemma single_run (ins : list Input) :
  forall s tr s' o,
    connectsWhenUnconnected ins s = true ->
    Inv s tr -> run ins s = Some (tt, s', o) -> Inv s' (tr ++ o).
Proof.
  induction ins as [|i rest IH]; intros s tr s' o Hg HI H.
  - cbn in H. inversion H; subst. rewrite app_nil_r. exact HI.
  - cbn [run] in H. unfold bind in H.
    destruct (step i s) as [[[[] s1] o1]|] eqn:E1; [|discriminate].
    destruct (run rest s1) as [[[[] s2] o2]|] eqn:E2; [|discriminate].
    inversion H; subst. rewrite app_assoc.
    destruct (single_step i rest s tr s1 o1 Hg HI E1) as [HI1 Hg1].
    eapply IH; [exact Hg1|exact HI1|exact E2].
Qed.

End SingleAttempts.

Ltac unserviced_solve HI :=
  unfold unserviced, state, isOpen in *; cbn in *;
  destruct HI as (HA & HB & HC);
  repeat match goal with |- _ /\ _ => split end;
  intros;
  try discriminate; try congruence; try tauto;
  try solve [intuition (try congruence; try discriminate)].

Lemma unserviced_run (max : Z) (ins : list Input) (s : QVSPSocket)
    (tr : list Obs) :
  connectsWhenUnconnected ins (QVSPSocket_new max) = true ->
  run ins (QVSPSocket_new max) = Some (tt, s, tr) ->
  unserviced s.
Proof.
  intros Hg H.
  set (P := fun (s : QVSPSocket) (_ : list Obs) => unserviced s).
  change (P s ([] ++ tr)).
  apply (single_run P) with (ins := ins) (s := QVSPSocket_new max);
    [| | |exact Hg| |exact H]; unfold P; clear P.
  - intros e s0 _ s' o HI E.
    destruct e; unfold_slots; unfold_monad;
      unfold detailSlotsConnected, serviceSlotsConnected,
        controllerExists in *;
      split_paths E; finish_path E; unserviced_solve HI.
  - intros maxlen s0 _ r s' o HI E. rewrite drain_eq in E. cbn zeta in E.
    split_paths E; finish_path E; unserviced_solve HI.
    all: match goal with
         | H0 : service _ = None |- _ =>
             destruct (HA H0) as [Hr Ht]; rewrite Hr, ?skipn_nil_bytes;
             split; [reflexivity|exact Ht]
         end.
  - intros i s0 _ s' o Hi HI E.
    destruct i; try contradiction;
      try (cbn [step] in E; unfold bind in E; rewrite readData_eq, Hi in E);
      unfold_calls; unfold_monad; split_paths E; finish_path E;
      unserviced_solve HI.
    all: destruct Hi as [Hu|Hf]; [|discriminate Hf]; apply HA.
    all: match goal with
         | |- service ?x = None =>
             destruct (service x) eqn:Es; [exfalso|reflexivity]
         end.
    all: apply HC; [apply HB; discriminate|exact Hu].
  - unfold unserviced. cbn. repeat split; intros; congruence.
Qed.

(** X4. The only null pointer an execution can dereference is [service] in
    [setRTS].  In an execution that starts every connection attempt in
    [UnconnectedState], at any point it can reach, a call or a delivery
    fails exactly when it is [setRTS] on a socket that has no service object
    and whose [maxBufferSize] is at least [PACKET_SIZE + 1].  [close],
    [readData], [writeData], [unsetRTS], [connectToDevice] and every slot
    find the objects they use. *)
Theorem only_setRTS_dereferences_null
    (max : Z) (ins : list Input) (s : QVSPSocket) (tr : list Obs) :
  connectsWhenUnconnected ins (QVSPSocket_new max) = true ->
  run ins (QVSPSocket_new max) = Some (tt, s, tr) ->
  forall i,
    step i s = None
    <-> i = call_setRTS /\ service s = None
        /\ PACKET_SIZE + 1 <= maxBufferSize s.
Proof.
  intros Hg Hrun i.
  destruct (coherent_run max ins s tr Hrun) as [Hco [Hsv Hct]].
  pose proof (proj1 (unserviced_run max ins s tr Hg Hrun)) as Hun.
  split.
  - intros Hnone. destruct i; cbn [step] in Hnone.
    + exfalso. destruct (isOpen s) eqn:Ho.
      * rewrite (connectToDevice_open _ _ Ho) in Hnone. discriminate.
      * rewrite (connectToDevice_not_open _ _ Ho) in Hnone. discriminate.
    + exfalso. destruct (isOpen s) eqn:Ho.
      * rewrite (close_open s Ho (Hct (Hsv eq_refl))) in Hnone. discriminate.
      * rewrite (close_not_open s Ho) in Hnone. discriminate.
    + exfalso. unfold bind in Hnone. rewrite readData_eq in Hnone.
      destruct (isOpen s) eqn:Ho; cbn [negb] in Hnone; [|discriminate].
      destruct (processEvents_total pending s) as [s1 [o1 E1]].
      rewrite E1 in Hnone.
      pose proof (processEvents_service _ _ _ _ (Hsv eq_refl) E1) as Hs1.
      rewrite drain_eq in Hnone. cbn zeta in Hnone.
      destruct (service s1); [|congruence].
      destruct (_ && _) in Hnone; discriminate.
    + exfalso. unfold bind in Hnone. rewrite writeData_eq in Hnone.
      destruct (isOpen s) eqn:Ho; cbn [negb] in Hnone; [|discriminate].
      destruct (_ >? _) in Hnone; [discriminate|].
      rewrite writeInternal_eq in Hnone. cbn zeta in Hnone.
      change (service (set_writeBuffer (writeBuffer s ++ data) s))
        with (service s) in Hnone.
      destruct (service s); [|apply (Hsv eq_refl); reflexivity].
      destruct (_ && _) in Hnone; discriminate.
    + exfalso. rewrite unsetRTS_eq in Hnone.
      destruct (rts s) eqn:Hr; [|discriminate].
      destruct (service s) eqn:Hs; [discriminate|].
      destruct (Hun eq_refl) as [_ Hf]. congruence.
    + rewrite setRTS_eq in Hnone.
      destruct (negb (rts s)
                && (size (readBuffer s) + PACKET_SIZE + 1
                    <=? maxBufferSize s)) eqn:Hc; [|discriminate].
      destruct (service s) eqn:Hs; [discriminate|].
      apply andb_true_iff in Hc. destruct Hc as [_ Hc]. zbool.
      destruct (Hun eq_refl) as [Hr _]. rewrite Hr in Hc.
      change (size []) with 0 in Hc.
      split; [reflexivity|]. split; [reflexivity|lia].
    + exfalso. destruct (dispatch_total e s) as [s' [o E]]. congruence.
  - intros [Hi [Hs Hm]]. subst i. cbn [step]. rewrite setRTS_eq, Hs.
    destruct (Hun Hs) as [Hr Ht]. rewrite Hr, Ht.
    change (size []) with 0. rewrite leb_true by lia. reflexivity.
Qed.

Lemma only_setRTS_dereferences_null_witness :
  exists s tr,
    run (laird_handshake ++ [call_close]) (QVSPSocket_new 4096)
    = Some (tt, s, tr)
    /\ step call_setRTS s = None
    /\ step call_unsetRTS s <> None.
Proof.
  eexists. eexists.
  match goal with
  | |- ?c = _ /\ _ =>
      assert (Hrun : c = Some (tt, _, _)) by (vm_compute; reflexivity)
  end.
  split; [exact Hrun|].
  pose proof (only_setRTS_dereferences_null 4096
                (laird_handshake ++ [call_close]) _ _ eq_refl Hrun) as H.
  split.
  - apply (H call_setRTS). split; [reflexivity|].
    split; [reflexivity|]. vm_compute. discriminate.
  - intros Hn. apply (H call_unsetRTS) in Hn. destruct Hn as [Hn _].
    discriminate Hn.
Defined.

(** ** Service discovery *)

Lemma firstVspService_None (services : list QBluetoothUuid) :
  firstVspService services = None
  <-> Forall (fun u => VSP_SERVICE u = None) services.
Proof.
  induction services as [|u rest IH]; cbn [firstVspService].
  - split; [constructor|reflexivity].
  - destruct (VSP_SERVICE u) eqn:Hu.
    + split; [discriminate|]. intros H. inversion H; subst. congruence.
    + rewrite IH. split; [intros H; constructor; assumption|].
      intros H. inversion H; assumption.
Qed.

Lemma firstVspService_first (pre post : list QBluetoothUuid)
    (uuid : QBluetoothUuid) (mf : Manufacturer) :
  Forall (fun u => VSP_SERVICE u = None) pre ->
  VSP_SERVICE uuid = Some mf ->
  firstVspService (pre ++ uuid :: post) = Some (uuid, mf).
Proof.
  intros Hpre Hu. induction Hpre as [|u pre Hn _ IH]; cbn [app firstVspService].
  - rewrite Hu. reflexivity.
  - rewrite Hn. exact IH.
Qed.

Lemma discoveryFinished_found (services : list QBluetoothUuid)
    (uuid : QBluetoothUuid) (mf : Manufacturer) (s : QVSPSocket) :
  controller s <> None ->
  firstVspService services = Some (uuid, mf) ->
  dispatch (discoveryFinished services) s
  = Some (tt, set_service (Some (mkService uuid true false)) (set_m mf s),
          [Recv (discoveryFinished services); Req (discoverDetails uuid)]).
Proof.
  intros Hc Hf. unfold dispatch, on_discoveryFinished, controllerExists.
  unfold_monad. cbn. destruct (controller s); [|congruence].
  cbn. rewrite Hf. reflexivity.
Qed.

(** X5. When the controller has finished its discovery, the socket takes
    the first UUID of the reported list that is in [VSP_SERVICE], in list
    order: it creates the service object for it, sets the manufacturer to
    the one the table gives, and asks for the details of that service.
    Later VSP services of the list are not looked at. *)
Theorem discovery_takes_first_vsp_service
    (pre post : list QBluetoothUuid) (uuid : QBluetoothUuid)
    (mf : Manufacturer) (s : QVSPSocket) :
  controller s <> None ->
  Forall (fun u => VSP_SERVICE u = None) pre ->
  VSP_SERVICE uuid = Some mf ->
  dispatch (discoveryFinished (pre ++ uuid :: post)) s
  = Some (tt, set_service (Some (mkService uuid true false)) (set_m mf s),
          [Recv (discoveryFinished (pre ++ uuid :: post));
           Req (discoverDetails uuid)]).
Proof.
  intros Hc Hpre Hu. apply discoveryFinished_found; [exact Hc|].
  apply firstVspService_first; assumption.
Qed.

Lemma discovery_takes_first_vsp_service_witness :
  dispatch
    (discoveryFinished
       (["00001800-0000-1000-8000-00805f9b34fb"]
        ++ "da2b84f1-6279-48de-bdc0-afbea0226079"
        :: ["569a1101-b87f-490c-92cb-11ba5ea5167c"]))
    (set_controller (Some (mkController "EC:FE:7E:00:00:01"))
       QVSPSocket_default)
  = Some (tt,
          set_service
            (Some (mkService "da2b84f1-6279-48de-bdc0-afbea0226079" true false))
            (set_m BlueRadios
               (set_controller (Some (mkController "EC:FE:7E:00:00:01"))
                  QVSPSocket_default)),
          [Recv (discoveryFinished
                   (["00001800-0000-1000-8000-00805f9b34fb"]
                    ++ "da2b84f1-6279-48de-bdc0-afbea0226079"
                    :: ["569a1101-b87f-490c-92cb-11ba5ea5167c"]));
           Req (discoverDetails "da2b84f1-6279-48de-bdc0-afbea0226079")]).
Proof.
  apply (discovery_takes_first_vsp_service
           ["00001800-0000-1000-8000-00805f9b34fb"]
           ["569a1101-b87f-490c-92cb-11ba5ea5167c"]
           "da2b84f1-6279-48de-bdc0-afbea0226079" BlueRadios).
  - discriminate.
  - constructor; [reflexivity|constructor].
  - reflexivity.
Defined.

(** X6. The discovery ends with the error "No VSP service found" exactly
    when the reported list has no VSP service and the socket holds no
    service object from an earlier discovery; then [OperationError] is
    signalled, nothing is asked of the transport and nothing else changes.
    In every other case the details of the service object are requested. *)
Theorem no_vsp_service_found
    (services : list QBluetoothUuid) (s s' : QVSPSocket) (o : list Obs) :
  controller s <> None ->
  dispatch (discoveryFinished services) s = Some (tt, s', o) ->
  (Forall (fun u => VSP_SERVICE u = None) services /\ service s = None ->
   s' = set_error OperationError (set_errorString "No VSP service found" s)
   /\ o = [Recv (discoveryFinished services); Emit (error OperationError)])
  /\ (~ (Forall (fun u => VSP_SERVICE u = None) services /\ service s = None)
      -> exists svc,
           service s' = Some svc
           /\ o = [Recv (discoveryFinished services);
                   Req (discoverDetails (serviceUuid svc))]).
Proof.
  intros Hc H. split.
  - intros [Hn Hs]. apply firstVspService_None in Hn.
    unfold dispatch, on_discoveryFinished, controllerExists in H.
    unfold_monad. cbn in H. destruct (controller s); [|congruence].
    cbn in H. rewrite Hn in H. cbn in H. rewrite Hs in H. cbn in H.
    inversion H; subst. split; reflexivity.
  - intros Hnot.
    destruct (firstVspService services) as [[uuid mf]|] eqn:Hf.
    + rewrite (discoveryFinished_found services uuid mf s Hc Hf) in H.
      inversion H; subst. eexists. split; reflexivity.
    + destruct (service s) as [svc|] eqn:Hs.
      * unfold dispatch, on_discoveryFinished, controllerExists in H.
        unfold_monad. cbn in H. destruct (controller s); [|congruence].
        cbn in H. rewrite Hf in H. cbn in H. rewrite Hs in H. cbn in H.
        inversion H; subst. eexists. split; reflexivity.
      * exfalso. apply Hnot. split; [|reflexivity].
        apply firstVspService_None. exact Hf.
Qed.

Lemma no_vsp_service_found_witness :
  exists s' o,
    dispatch
      (discoveryFinished ["00001800-0000-1000-8000-00805f9b34fb";
                          "00001801-0000-1000-8000-00805f9b34fb"])
      (set_controller (Some (mkController "EC:FE:7E:00:00:01"))
         QVSPSocket_default)
    = Some (tt, s', o)
    /\ _error s' = OperationError
    /\ o = [Recv (discoveryFinished
                    ["00001800-0000-1000-8000-00805f9b34fb";
                     "00001801-0000-1000-8000-00805f9b34fb"]);
            Emit (error OperationError)].
Proof.
  eexists. eexists.
  match goal with
  | |- ?c = _ /\ _ => assert (H : c = Some (tt, _, _)) by (vm_compute; reflexivity)
  end.
  split; [exact H|].
  assert (Hc : controller
                 (set_controller (Some (mkController "EC:FE:7E:00:00:01"))
                    QVSPSocket_default) <> None) by discriminate.
  destruct (no_vsp_service_found _ _ _ _ Hc H) as [Hyes _].
  destruct Hyes as [Hs Ho].
  - split; [|reflexivity].
    constructor; [reflexivity|]. constructor; [reflexivity|constructor].
  - split; [reflexivity|exact Ho].
Defined.

(** ** The discovered service is checked before it is used *)

Lemma stateChanged_rejected (details : ServiceDetails)
    (s s' : QVSPSocket) (o : list Obs) :
  serviceSlotsConnected s = true ->
  offers details (m s) = false ->
  dispatch (service_stateChanged ServiceDiscovered details) s
  = Some (tt, s', o) ->
  o = [Recv (service_stateChanged ServiceDiscovered details);
       Emit (error OperationError)]
  /\ _error s' = OperationError
  /\ (errorString s' = "Cannot retrieve the VSP service characteristics"
      \/ errorString s' = "Cannot detect VSP service notifications")
  /\ service s' = service s
  /\ _state s' = _state s
  /\ isOpen s' = isOpen s.
Proof.
  intros Hslots Hoff H.
  unfold dispatch, on_service_stateChanged, connectDetailSlots in H.
  unfold_monad. rewrite Hslots in H.
  unfold serviceSlotsConnected in Hslots. unfold offers in Hoff.
  split_paths H; finish_path H.
  all: try (cbn; repeat split;
            first [left; reflexivity | right; reflexivity]).
  all: exfalso.
  all: destruct (m _) eqn:Hm; cbn [Manufacturer_eqb andb] in *;
       try discriminate.
  all: bool_hyps.
  all: repeat match goal with
              | E : isValid _ = true |- _ => rewrite E in Hoff; clear E
              end.
  all: discriminate Hoff.
Qed.

(** X7. The [stateChanged] lambda acts only on [ServiceDiscovered].  Then
    it starts the handshake -- the mode switch for BlueRadios, the TX FIFO
    notifications for Laird -- and connects the four detail slots exactly
    when the service offers the four characteristics of the manufacturer,
    the notification descriptors of TX FIFO and MODEM_OUT and, for
    BlueRadios, the mode characteristic.  If anything is missing it signals
    [OperationError], asks nothing of the transport, connects no slot and
    leaves the state as it is. *)
Theorem service_details_checked
    (newState : ServiceState) (details : ServiceDetails)
    (s s' : QVSPSocket) (o : list Obs) :
  serviceSlotsConnected s = true ->
  dispatch (service_stateChanged newState details) s = Some (tt, s', o) ->
  match newState with
  | ServiceDiscovered =>
      if offers details (m s) then
        o = [Recv (service_stateChanged ServiceDiscovered details);
             match m s with
             | BlueRadios => modeSwitch
             | Laird => notifyOnTxFifo Laird
             end]
        /\ detailSlotsConnected s' = true
      else
        o = [Recv (service_stateChanged ServiceDiscovered details);
             Emit (error OperationError)]
        /\ _error s' = OperationError
        /\ (errorString s'
            = "Cannot retrieve the VSP service characteristics"
            \/ errorString s' = "Cannot detect VSP service notifications")
        /\ service s' = service s
        /\ _state s' = _state s
        /\ isOpen s' = isOpen s
  | _ => s' = s /\ o = [Recv (service_stateChanged newState details)]
  end.
Proof.
  intros Hslots H.
  destruct newState;
    try (unfold dispatch, on_service_stateChanged in H; unfold_monad;
         rewrite Hslots in H; cbn in H; inversion H; subst;
         split; reflexivity).
  destruct (offers details (m s)) eqn:Hoff.
  - destruct (discovered details s Hslots Hoff) as [s1 [E [Hd _]]].
    rewrite E in H. inversion H; subst. split; [reflexivity|exact Hd].
  - exact (stateChanged_rejected details s s' o Hslots Hoff H).
Qed.

Lemma service_details_checked_witness :
  exists s' o,
    dispatch (service_stateChanged ServiceDiscovered
                laird_details_no_cts_notify) laird_discovering
    = Some (tt, s', o)
    /\ o = [Recv (service_stateChanged ServiceDiscovered
                    laird_details_no_cts_notify);
            Emit (error OperationError)]
    /\ errorString s' = "Cannot detect VSP service notifications"
    /\ detailSlotsConnected s' = false.
Proof.
  eexists. eexists.
  match goal with
  | |- ?c = _ /\ _ =>
      assert (H : c = Some (tt, _, _)) by (vm_compute; reflexivity)
  end.
  split; [exact H|].
  pose proof (service_details_checked ServiceDiscovered
                laird_details_no_cts_notify laird_discovering _ _
                eq_refl H) as K.
  cbn in K. destruct K as [Ko _].
  split; [exact Ko|]. split; reflexivity.
Defined.

(** ** The life cycle of a connection *)

Lemma phases_app (p : Phase) (l1 l2 : list Obs) :
  phases p (l1 ++ l2)
  = match phases p l1 with
    | Some q => phases q l2
    | None => None
    end.
Proof.
  revert p. induction l1 as [|o l1 IH]; intros p; [reflexivity|].
  cbn [app phases]. destruct (advance p o); [apply IH|reflexivity].
Qed.

Ltac lifecycle_solve HJ :=
  unfold atRest, isOpen in *; cbn in *;
  destruct HJ as (HO & HW & HR & HSC & HCS);
  destruct HR as [HR|[HR|HR]]; rewrite HR in *; cbn;
  repeat match goal with |- _ /\ _ => split end;
  try reflexivity; try assumption; try tauto; try congruence;
  try (intros; discriminate);
  try solve [intuition (try congruence; try discriminate)].

(** No packet leaves a socket that is not open: its write buffer is
    empty. *)
Ltac idle_write HO HW :=
  match goal with
  | Hw : negb (isEmpty (firstn _ (writeBuffer ?s0))) = true |- _ =>
      let Hop := fresh "Hop" in
      destruct (openMode s0) eqn:Hop;
      [ first [ exfalso; discriminate (proj1 HO eq_refl)
              | intros; discriminate ]
      | exfalso; rewrite (HW eq_refl), firstn_nil in Hw; discriminate Hw ]
  end.

Lemma lifecycle_run (max : Z) (ins : list Input) (s : QVSPSocket)
    (tr : list Obs) :
  run ins (QVSPSocket_new max) = Some (tt, s, tr) ->
  atRest s /\ phases Idle tr = Some (restingPhase (_state s)).
Proof.
  intros H.
  apply (Inv_run (fun s tr => atRest s
                              /\ phases Idle tr
                                 = Some (restingPhase (_state s))))
    with (tr := []) in H; [exact H| | | |].
  - intros e s0 tr0 s' o [HJ HP] E.
    rewrite phases_app, HP. clear HP.
    destruct e; unfold_slots; unfold_monad;
      unfold detailSlotsConnected, serviceSlotsConnected,
        controllerExists in *;
      split_paths E; finish_path E; lifecycle_solve HJ.
    all: try idle_write HO HW.
    all: exfalso; bool_hyps;
         match goal with
         | Hn : openMode _ = false |- _ =>
             rewrite (proj2 HO eq_refl) in Hn; discriminate Hn
         end.
  - intros maxlen s0 tr0 r s' o [HJ HP] E.
    rewrite phases_app, HP. clear HP.
    rewrite drain_eq in E. cbn zeta in E.
    split_paths E; finish_path E; lifecycle_solve HJ.
  - intros i s0 tr0 s' o Hi [HJ HP] E.
    rewrite phases_app, HP. clear HP.
    destruct i; try contradiction;
      try (cbn [step] in E; unfold bind in E; rewrite readData_eq, Hi in E);
      unfold_calls; unfold_monad; split_paths E; finish_path E;
      lifecycle_solve HJ.
    all: try intro; exfalso; bool_hyps;
         first [ congruence
               | discriminate (proj1 HO ltac:(assumption)) ].
  - split; [|reflexivity]. unfold atRest. cbn.
    repeat split; try tauto; try congruence; try discriminate.
Qed.



(** X9. In every state other than [ConnectedState] that an execution can
    reach, nothing waits to be written, and [readData] and [writeData] fail:
    they return [-1], signal [OperationError] with their message, and do
    nothing else -- [readData] does not pump the event loop, so the pending
    transport signals stay undelivered, and no buffer changes. *)
Theorem io_requires_connected
    (max : Z) (ins : list Input) (s : QVSPSocket) (tr : list Obs) :
  run ins (QVSPSocket_new max) = Some (tt, s, tr) ->
  state s <> ConnectedState ->
  bytesToWrite s = 0
  /\ (forall pending maxlen,
        step (call_readData pending maxlen) s
        = Some (tt,
                set_error OperationError
                  (set_errorString "Cannot read while not connected" s),
                [Emit (error OperationError); ReadReturned (-1) []]))
  /\ (forall data,
        step (call_writeData data) s
        = Some (tt,
                set_error OperationError
                  (set_errorString "Cannot write while not connected" s),
                [Emit (error OperationError); WriteReturned (-1)])).
Proof.
  intros Hrun Hst.
  destruct (lifecycle_run max ins s tr Hrun) as [[HO [HW _]] _].
  assert (Hopen : isOpen s = false).
  { destruct (isOpen s) eqn:E; [|reflexivity].
    exfalso. apply Hst. apply HO. reflexivity. }
  split; [unfold bytesToWrite; rewrite (HW Hopen); reflexivity|].
  split.
  - intros pending maxlen. cbn [step]. unfold bind.
    rewrite readData_eq, Hopen. reflexivity.
  - intros data. cbn [step]. unfold bind.
    rewrite writeData_eq, Hopen. reflexivity.
Qed.

Lemma io_requires_connected_witness :
  exists s tr,
    run laird_connecting (QVSPSocket_new 4096) = Some (tt, s, tr)
    /\ readBuffer s = [x41]
    /\ exists s',
         step (call_readData
                 [characteristicChanged (TX_FIFO (CHARACTERISTIC Laird)) [x42]]
                 10) s
         = Some (tt, s', [Emit (error OperationError); ReadReturned (-1) []])
         /\ readBuffer s' = [x41].
Proof.
  eexists. eexists.
  match goal with
  | |- ?c = _ /\ _ =>
      assert (Hrun : c = Some (tt, _, _)) by (vm_compute; reflexivity)
  end.
  split; [exact Hrun|]. split; [reflexivity|].
  eexists. split.
  - refine (proj1 (proj2 (io_requires_connected 4096 laird_connecting _ _
                            Hrun _)) _ _).
    discriminate.
  - reflexivity.
Defined.

(** ** Errors of the transport *)

(** X10. An error signalled by the controller or by the service is passed
    on and nothing more: the socket signals the service's error code as it
    got it ([OperationError] with the controller's own text for a controller
    error), records it, and otherwise stays as it was -- same state, still
    open if it was open, same controller and service objects, same flow
    control flags, same buffers -- and asks nothing of the transport. *)
Theorem transport_errors_are_only_reported
    (e : Event) (s s' : QVSPSocket) (o : list Obs) :
  match e with controller_error _ | service_error _ => True | _ => False end ->
  dispatch e s = Some (tt, s', o) ->
  (_state s' = _state s /\ isOpen s' = isOpen s
   /\ controller s' = controller s /\ service s' = service s
   /\ cts s' = cts s /\ rts s' = rts s
   /\ readBuffer s' = readBuffer s /\ writeBuffer s' = writeBuffer s)
  /\ (forall r, ~ In (Req r) o)
  /\ match e with
     | controller_error str =>
         controller s <> None ->
         o = [Recv e; Emit (error OperationError)]
         /\ _error s' = OperationError /\ errorString s' = str
     | service_error err =>
         serviceSlotsConnected s = true ->
         o = [Recv e; Emit (error err)] /\ _error s' = err
     | _ => True
     end.
Proof.
  intros He H.
  destruct e; try contradiction; unfold_slots; unfold_monad;
    unfold controllerExists, serviceSlotsConnected in *;
    split_paths H; finish_path H; cbn.
  all: split; [repeat split; first [reflexivity|assumption]|].
  all: split;
    [intros r [Hr|Hr]; [discriminate Hr|];
     repeat (destruct Hr as [Hr|Hr]; [discriminate Hr|]); exact Hr|].
  all: try (intros Hc; repeat split; reflexivity).
  all: intros Hc; exfalso; congruence.
Qed.

Lemma transport_errors_are_only_reported_witness :
  exists s',
    dispatch (service_error CharacteristicWriteError) (laird_connected 4096)
    = Some (tt, s',
            [Recv (service_error CharacteristicWriteError);
             Emit (error CharacteristicWriteError)])
    /\ errorString s' = "Characteristic write error"
    /\ _state s' = ConnectedState /\ isOpen s' = true.
Proof.
  eexists.
  match goal with
  | |- ?c = _ /\ _ =>
      assert (H : c = Some (tt, _, _)) by (vm_compute; reflexivity)
  end.
  split; [exact H|]. split; [reflexivity|].
  destruct (transport_errors_are_only_reported
              (service_error CharacteristicWriteError) _ _ _ I H)
    as [[Hst [Hop _]] _].
  split; [exact Hst|exact Hop].
Defined.

(** ** The handshake *)

Lemma run_cons_eq (i : Input) (rest : list Input)
    (s s1 s2 : QVSPSocket) (o1 o2 : list Obs) :
  step i s = Some (tt, s1, o1) ->
  run rest s1 = Some (tt, s2, o2) ->
  run (i :: rest) s = Some (tt, s2, o1 ++ o2).
Proof. intros E1 E2. cbn [run]. unfold bind. rewrite E1, E2. reflexivity. Qed.

Lemma controller_connected_step (s : QVSPSocket) :
  controller s <> None ->
  dispatch controller_connected s
  = Some (tt, s, [Recv controller_connected; Req discoverServices]).
Proof.
  intros Hc. unfold dispatch, on_controller_connected, controller_request,
    controllerExists. unfold_monad.
  destruct (controller s) eqn:E; [|congruence]. cbn. rewrite E. reflexivity.
Qed.

Ltac handshaking_fields H :=
  destruct H as (Ho & Hd & Hm & Hrx & Htx & Hmi & Hmo & Htn & Hmn);
  unfold dispatch; unfold bind at 1 2; unfold tell at 1, get at 1;
  rewrite Hd; cbn [when].

Lemma txFifo_notifications_enabled (mf : Manufacturer) (s : QVSPSocket) :
  handshaking mf s ->
  dispatch (descriptorWritten (TX_FIFO (CHARACTERISTIC mf)) DESC_NOTIFY_ON) s
  = Some (tt, s,
          [Recv (descriptorWritten (TX_FIFO (CHARACTERISTIC mf))
                   DESC_NOTIFY_ON);
           Req (writeDescriptor (Some (MODEM_OUT (CHARACTERISTIC mf)))
                  DESC_NOTIFY_ON)]).
Proof.
  intros H. handshaking_fields H.
  unfold on_descriptorWritten, service_request. unfold_monad.
  rewrite Htn, Hmn, handle_eqb_refl, QByteArray_eqb_refl. cbn [andb].
  unfold detailSlotsConnected in Hd.
  destruct (service s); [reflexivity|discriminate].
Qed.

Lemma modemOut_notifications_enabled (mf : Manufacturer) (s : QVSPSocket) :
  handshaking mf s ->
  dispatch (descriptorWritten (MODEM_OUT (CHARACTERISTIC mf)) DESC_NOTIFY_ON) s
  = Some (tt, s,
          [Recv (descriptorWritten (MODEM_OUT (CHARACTERISTIC mf))
                   DESC_NOTIFY_ON);
           Req (writeCharacteristic (Some (MODEM_IN (CHARACTERISTIC mf)))
                  (MODEM_SET_BIT mf))]).
Proof.
  intros H. handshaking_fields H.
  unfold on_descriptorWritten, service_request. unfold_monad.
  rewrite Htn, Hmn, Hmi, Hm. cbn [handle_eqb].
  rewrite modemOut_not_txFifo, String.eqb_refl, QByteArray_eqb_refl.
  cbn [andb].
  unfold detailSlotsConnected in Hd.
  destruct (service s); [reflexivity|discriminate].
Qed.

Lemma rts_confirmed (mf : Manufacturer) (s : QVSPSocket) :
  handshaking mf s ->
  dispatch (characteristicWritten (MODEM_IN (CHARACTERISTIC mf))
              (MODEM_SET_BIT mf)) s
  = Some (tt, set_rts true s,
          [Recv (characteristicWritten (MODEM_IN (CHARACTERISTIC mf))
                   (MODEM_SET_BIT mf));
           Req (readCharacteristic (Some (MODEM_OUT (CHARACTERISTIC mf))))]).
Proof.
  intros H. handshaking_fields H.
  rewrite on_characteristicWritten_eq.
  rewrite Hrx, Hmi, Hmo, Hm. cbn [handle_eqb].
  rewrite modemIn_not_rxFifo, String.eqb_refl, QByteArray_eqb_refl.
  cbn zeta. unfold isOpen in *. cbn [rts openMode set_rts].
  rewrite Ho. cbn [andb negb].
  unfold detailSlotsConnected in Hd.
  destruct (service s); [reflexivity|discriminate].
Qed.

Lemma cts_read (mf : Manufacturer) (v : QByteArray) (s : QVSPSocket) :
  handshaking mf s ->
  dispatch (characteristicRead (MODEM_OUT (CHARACTERISTIC mf)) v) s
  = Some (tt,
          set_state ConnectedState
            (set_errorString ""
               (set_openMode true
                  (set_cts (QByteArray_eqb v (MODEM_SET_BIT mf)) s))),
          [Recv (characteristicRead (MODEM_OUT (CHARACTERISTIC mf)) v);
           Emit (stateChanged ConnectedState); Emit connected]
          ++ (if negb (isEmpty (readBuffer s)) then [Emit readyRead]
              else [])).
Proof.
  intros H. handshaking_fields H.
  unfold on_characteristicRead, QIODevice_open, emit_stateChanged.
  unfold_monad. unfold isOpen in *.
  rewrite Hmo, Hm, Ho, handle_eqb_refl. cbn.
  destruct (isEmpty (readBuffer s)); reflexivity.
Qed.

Lemma stateChanged_frame (st : ServiceState) (details : ServiceDetails)
    (s s' : QVSPSocket) (o : list Obs) :
  dispatch (service_stateChanged st details) s = Some (tt, s', o) ->
  isOpen s' = isOpen s /\ _state s' = _state s
  /\ cts s' = cts s /\ rts s' = rts s
  /\ readBuffer s' = readBuffer s /\ writeBuffer s' = writeBuffer s
  /\ maxBufferSize s' = maxBufferSize s.
Proof.
  intros H. unfold dispatch, on_service_stateChanged, connectDetailSlots in H.
  unfold_monad. unfold serviceSlotsConnected in H.
  destruct st; split_paths H; finish_path H; cbn; repeat split.
Qed.

Lemma handshaking_rts (mf : Manufacturer) (b : bool) (s : QVSPSocket) :
  handshaking mf s -> handshaking mf (set_rts b s).
Proof. intros H. exact H. Qed.

Lemma handshake_run (dev : QBluetoothDeviceInfo)
    (services : list QBluetoothUuid) (details : ServiceDetails)
    (uuid : QBluetoothUuid) (mf : Manufacturer) (v : QByteArray)
    (s : QVSPSocket) :
  isOpen s = false ->
  firstVspService services = Some (uuid, mf) ->
  offers details mf = true ->
  exists s4,
    handshaking mf s4
    /\ cts s4 = cts s
    /\ readBuffer s4 = readBuffer s /\ writeBuffer s4 = writeBuffer s
    /\ maxBufferSize s4 = maxBufferSize s
    /\ run (handshake dev services details mf v) s
       = Some (tt,
               set_state ConnectedState
                 (set_errorString ""
                    (set_openMode true
                       (set_cts (QByteArray_eqb v (MODEM_SET_BIT mf))
                          (set_rts true s4)))),
               handshakeTrace dev services details uuid mf v
                 (negb (isEmpty (readBuffer s)))).
Proof.
  intros Hopen Hf Hoff.
  pose (s1 := set_state ConnectingState
                (set_service None
                   (set_controller (Some (mkController dev)) s))).
  pose (s3 := set_service (Some (mkService uuid true false)) (set_m mf s1)).
  pose proof (connectToDevice_not_open dev s Hopen) as E1.
  assert (Hc1 : controller s1 <> None) by discriminate.
  pose proof (controller_connected_step s1 Hc1) as E2.
  pose proof (discoveryFinished_found services uuid mf s1 Hc1 Hf) as E3.
  destruct (discovered details s3 eq_refl Hoff)
    as [s4 [E4 [Hd [Hm [Hrx [Htx [Hmi [Hmo [Htn [Hmn Hbr]]]]]]]]]].
  destruct (stateChanged_frame _ _ _ _ _ E4)
    as [Fo [_ [Fc [_ [Fr [Fw Fm]]]]]].
  assert (Hh : handshaking mf s4).
  { unfold handshaking. rewrite Fo. repeat split; assumption. }
  exists s4. split; [exact Hh|].
  split; [exact Fc|]. split; [exact Fr|]. split; [exact Fw|].
  split; [exact Fm|].
  pose proof (txFifo_notifications_enabled mf s4 Hh) as E6.
  pose proof (modemOut_notifications_enabled mf s4 Hh) as E7.
  pose proof (rts_confirmed mf s4 Hh) as E8.
  pose proof (cts_read mf v (set_rts true s4) (handshaking_rts mf true s4 Hh))
    as E9.
  change (readBuffer (set_rts true s4)) with (readBuffer s4) in E9.
  rewrite Fr in E9.
  unfold handshake, handshakeTrace.
  destruct mf.
  - cbn [app].
    eapply eq_trans;
      [ eapply run_cons_eq; [exact E1|];
        eapply run_cons_eq; [exact E2|];
        eapply run_cons_eq; [exact E3|];
        eapply run_cons_eq; [exact E4|];
        eapply run_cons_eq; [exact E6|];
        eapply run_cons_eq; [exact E7|];
        eapply run_cons_eq; [exact E8|];
        eapply run_cons_eq; [exact E9|];
        reflexivity
      |].
    cbn [app m s3 set_service set_m]. rewrite app_nil_r. reflexivity.
  - assert (E5 : dispatch (characteristicWritten BRSP_MODE_CHARACTERISTIC
                             BRSP_MODE_DATA) s4
                 = Some (tt, s4,
                         [Recv (characteristicWritten BRSP_MODE_CHARACTERISTIC
                                  BRSP_MODE_DATA);
                          notifyOnTxFifo BlueRadios])).
    { apply modeSwitch_confirmed; try assumption. apply Hbr. reflexivity. }
    cbn [app].
    eapply eq_trans;
      [ eapply run_cons_eq; [exact E1|];
        eapply run_cons_eq; [exact E2|];
        eapply run_cons_eq; [exact E3|];
        eapply run_cons_eq; [exact E4|];
        eapply run_cons_eq; [exact E5|];
        eapply run_cons_eq; [exact E6|];
        eapply run_cons_eq; [exact E7|];
        eapply run_cons_eq; [exact E8|];
        eapply run_cons_eq; [exact E9|];
        reflexivity
      |].
    cbn [app m s3 set_service set_m]. rewrite app_nil_r. reflexivity.
Qed.

(** X11. The handshake succeeds for both manufacturers, from any socket
    that is not open -- a new one, one that was closed, one whose earlier
    attempt got stuck.  If the discovery reports a list whose first VSP
    service is [uuid] of manufacturer [mf], the service offers what [offers]
    asks for and the device answers each request in turn, then the socket
    issues exactly the requests of [handshakeTrace] in that order, ends in
    [ConnectedState] with [connected] emitted, open, RTS set, CTS as read
    from MODEM_OUT, its characteristics resolved to those of [mf], and its
    buffers and [maxBufferSize] as before; [readyRead] follows [connected]
    exactly when the read buffer holds data. *)
Theorem handshake_completes (dev : QBluetoothDeviceInfo)
    (services : list QBluetoothUuid) (details : ServiceDetails)
    (uuid : QBluetoothUuid) (mf : Manufacturer) (ctsValue : QByteArray)
    (s : QVSPSocket) :
  isOpen s = false ->
  firstVspService services = Some (uuid, mf) ->
  offers details mf = true ->
  exists s',
    run (handshake dev services details mf ctsValue) s
    = Some (tt, s',
            handshakeTrace dev services details uuid mf ctsValue
              (negb (isEmpty (readBuffer s))))
    /\ connectedTo mf s'
    /\ state s' = ConnectedState
    /\ rts s' = true
    /\ cts s' = QByteArray_eqb ctsValue (MODEM_SET_BIT mf)
    /\ readBuffer s' = readBuffer s
    /\ writeBuffer s' = writeBuffer s
    /\ maxBufferSize s' = maxBufferSize s.
Proof.
  intros Hopen Hf Hoff.
  destruct (handshake_run dev services details uuid mf ctsValue s
              Hopen Hf Hoff)
    as [s4 [Hh [_ [Fr [Fw [Fm E]]]]]].
  eexists. split; [exact E|].
  destruct Hh as (Ho & Hd & Hm & Hrx & Htx & Hmi & Hmo & Htn & Hmn).
  split; [unfold connectedTo; repeat split; assumption|].
  repeat split; assumption.
Qed.

Lemma handshake_completes_witness :
  exists s',
    run (handshake "EC:FE:7E:00:00:01"
           ["00001800-0000-1000-8000-00805f9b34fb";
            "da2b84f1-6279-48de-bdc0-afbea0226079"]
           blueradios_details BlueRadios (MODEM_SET_BIT BlueRadios))
        (closed (laird_connected 4096))
    = Some (tt, s',
            handshakeTrace "EC:FE:7E:00:00:01"
              ["00001800-0000-1000-8000-00805f9b34fb";
               "da2b84f1-6279-48de-bdc0-afbea0226079"]
              blueradios_details "da2b84f1-6279-48de-bdc0-afbea0226079"
              BlueRadios (MODEM_SET_BIT BlueRadios)
              (negb (isEmpty (readBuffer (closed (laird_connected 4096))))))
    /\ connectedTo BlueRadios s'
    /\ state s' = ConnectedState
    /\ rts s' = true
    /\ cts s' = QByteArray_eqb (MODEM_SET_BIT BlueRadios)
                  (MODEM_SET_BIT BlueRadios)
    /\ readBuffer s' = readBuffer (closed (laird_connected 4096))
    /\ writeBuffer s' = writeBuffer (closed (laird_connected 4096))
    /\ maxBufferSize s' = maxBufferSize (closed (laird_connected 4096)).
Proof.
  apply (handshake_completes "EC:FE:7E:00:00:01"
           ["00001800-0000-1000-8000-00805f9b34fb";
            "da2b84f1-6279-48de-bdc0-afbea0226079"]
           blueradios_details "da2b84f1-6279-48de-bdc0-afbea0226079"
           BlueRadios (MODEM_SET_BIT BlueRadios)
           (closed (laird_connected 4096))).
  - reflexivity.
  - reflexivity.
  - reflexivity.
Defined.

(** ** The inbound stream *)

Lemma arrived_app (mf : Manufacturer) (l1 l2 : list Obs) :
  arrived mf (l1 ++ l2) = arrived mf l1 ++ arrived mf l2.
Proof.
  induction l1 as [|o l1 IH]; [reflexivity|]. cbn [app arrived].
  destruct o as [e| | | |]; try exact IH.
  destruct e; try exact IH.
  destruct (String.eqb _ _); [rewrite IH, app_assoc; reflexivity|exact IH].
Qed.

Lemma readOut_app (l1 l2 : list Obs) :
  readOut (l1 ++ l2) = readOut l1 ++ readOut l2.
Proof.
  induction l1 as [|o l1 IH]; [reflexivity|]. cbn [app readOut].
  destruct o; try exact IH. rewrite IH, app_assoc. reflexivity.
Qed.

(** A delivery to a connected socket that signals no read overflow appends
    what arrived on TX FIFO to the read buffer, and nothing else. *)
Lemma dispatch_inbound (mf : Manufacturer) (e : Event)
    (s s' : QVSPSocket) (o : list Obs) :
  connectedTo mf s ->
  dispatch e s = Some (tt, s', o) ->
  ~ In readOverflow o ->
  readOut o = [] /\ readBuffer s' = readBuffer s ++ arrived mf o.
Proof.
  intros Hc H Hne. use_connected Hc. unfold readOverflow in Hne.
  destruct e; unfold_slots; unfold_monad; unfold isOpen in *;
    rewrite ?Hslots, ?Hopen, ?Hrx, ?Htx, ?Hmi, ?Hmo in H;
    split_paths H; finish_path H; cbn;
    rewrite ?app_nil_r; try (split; reflexivity).
  all: try (exfalso; apply Hne; cbn; tauto).
  all: repeat match goal with
              | E : String.eqb _ _ = _ |- _ => try rewrite E; clear E
              end.
  all: rewrite ?app_nil_r; split; reflexivity.
Qed.

Lemma processEvents_inbound (mf : Manufacturer) (pending : list Event) :
  forall (s s' : QVSPSocket) (o : list Obs),
    connectedTo mf s -> forallb steadyEvent pending = true ->
    processEvents pending s = Some (tt, s', o) ->
    ~ In readOverflow o ->
    connectedTo mf s'
    /\ readOut o = [] /\ readBuffer s' = readBuffer s ++ arrived mf o.
Proof.
  induction pending as [|e rest IH]; intros s s' o Hc Hst H Hne.
  - cbn in H. inversion H; subst. cbn. rewrite app_nil_r. auto.
  - cbn [forallb] in Hst. apply andb_true_iff in Hst. destruct Hst as [He Hr].
    destruct (dispatch_piece mf e s Hc He) as [s1 [o1 [E1 P1]]].
    cbn [processEvents] in H. unfold bind in H. rewrite E1 in H.
    destruct (processEvents rest s1) as [[[[] s2] o2]|] eqn:E2;
      [|discriminate].
    inversion H; subst. clear H.
    assert (Hn1 : ~ In readOverflow o1)
      by (intros Hin; apply Hne; apply in_or_app; left; exact Hin).
    assert (Hn2 : ~ In readOverflow o2)
      by (intros Hin; apply Hne; apply in_or_app; right; exact Hin).
    destruct (dispatch_inbound mf e s s1 o1 Hc E1 Hn1) as [R1 B1].
    destruct (IH s1 s' o2 (proj1 P1) Hr E2 Hn2) as [Hc2 [R2 B2]].
    split; [exact Hc2|].
    rewrite readOut_app, arrived_app, R1, R2, B2, B1, app_assoc.
    split; reflexivity.
Qed.

Lemma read_rest (n : nat) (b : QByteArray) :
  firstn n b ++ skipn (Z.to_nat (size (firstn n b))) b = b.
Proof.
  unfold size. rewrite Nat2Z.id, length_firstn.
  destruct (Nat.le_ge_cases n (List.length b)) as [H|H].
  - rewrite Nat.min_l by exact H. apply firstn_skipn.
  - rewrite Nat.min_r by exact H.
    rewrite firstn_all2 by exact H. rewrite skipn_all. apply app_nil_r.
Qed.

Lemma read_negative (maxlen : Z) (b : QByteArray) :
  maxlen < 0 -> firstn (Z.to_nat maxlen) b = [].
Proof. intros H. destruct maxlen; try lia. reflexivity. Qed.

Lemma drain_inbound (maxlen : Z) (s s' : QVSPSocket) (r : Z * QByteArray)
    (o : list Obs) :
  drain maxlen s = Some (r, s', o) ->
  snd r ++ readBuffer s' = readBuffer s
  /\ readOut o = [] /\ (forall mf, arrived mf o = [])
  /\ ~ In readOverflow o
  /\ (fst r = size (snd r) \/ (maxlen < 0 /\ fst r = -1 /\ snd r = [])).
Proof.
  intros H. rewrite drain_eq in H. cbn zeta in H. unfold readOverflow.
  split_paths H; finish_path H; cbn [fst snd readBuffer set_readBuffer
    readOut arrived].
  all: zbool.
  all: try rewrite (read_negative maxlen (readBuffer s)) by lia.
  all: rewrite ?read_rest.
  all: repeat split; try reflexivity;
       try (intros [Hin|[]]; discriminate Hin); try (intros []).
  all: try (left; reflexivity).
  all: right; repeat split; lia.
Qed.

Lemma step_inbound (mf : Manufacturer) (i : Input)
    (s s' : QVSPSocket) (o : list Obs) :
  connectedTo mf s -> steadyInput i = true ->
  step i s = Some (tt, s', o) ->
  ~ In readOverflow o ->
  readOut o ++ readBuffer s' = readBuffer s ++ arrived mf o.
Proof.
  intros Hc Hst H Hne.
  assert (Hopen : isOpen s = true) by (apply Hc).
  destruct i; cbn [steadyInput] in Hst; try discriminate Hst.
  - cbn [step] in H. rewrite (connectToDevice_open _ _ Hopen) in H.
    inversion H; subst. cbn. rewrite app_nil_r. reflexivity.
  - cbn [step] in H. unfold bind in H. rewrite readData_eq, Hopen in H.
    cbn [negb] in H.
    destruct (processEvents pending s) as [[[[] s1] o1]|] eqn:E1;
      [|discriminate].
    destruct (drain maxlen s1) as [[[r s2] o2]|] eqn:E2; [|discriminate].
    cbn in H. inversion H; subst. clear H.
    assert (Hn1 : ~ In readOverflow o1).
    { intros Hin. apply Hne. apply in_or_app. left.
      apply in_or_app. left. exact Hin. }
    destruct (processEvents_inbound mf pending s s1 o1 Hc Hst E1 Hn1)
      as [_ [R1 B1]].
    destruct (drain_inbound maxlen s1 s' r o2 E2) as [D [R2 [A2 _]]].
    rewrite !readOut_app, !arrived_app, R1, R2, (A2 mf). cbn.
    rewrite !app_nil_r, D, B1. reflexivity.
  - unfold_calls. unfold_monad. unfold isOpen in *. rewrite Hopen in H.
    split_paths H; finish_path H; cbn; rewrite app_nil_r; reflexivity.
  - unfold_calls. unfold_monad.
    split_paths H; finish_path H; cbn; rewrite app_nil_r; reflexivity.
  - unfold_calls. unfold_monad.
    split_paths H; finish_path H; cbn; rewrite app_nil_r; reflexivity.
  - cbn [step] in H.
    destruct (dispatch_inbound mf e s s' o Hc H Hne) as [R B].
    rewrite R, B. reflexivity.
Qed.

(** X12. On an established connection no received byte is lost,
    duplicated or reordered as long as no read overflow is signalled: in
    every execution without [close] and service discovery that signals no
    [CharacteristicReadError], the bytes handed out by the [readData] calls
    followed by the bytes left in the read buffer are the bytes that were
    in the read buffer at the start followed by all bytes notified on TX
    FIFO, in the order of arrival -- whether the notifications were
    delivered between the calls or by the event loop pumped inside
    [readData]. *)
Theorem inbound_stream_intact (mf : Manufacturer) (ins : list Input) :
  forall (s s' : QVSPSocket) (tr : list Obs),
    connectedTo mf s ->
    forallb steadyInput ins = true ->
    run ins s = Some (tt, s', tr) ->
    ~ In readOverflow tr ->
    readOut tr ++ readBuffer s' = readBuffer s ++ arrived mf tr.
Proof.
  induction ins as [|i rest IH]; intros s s' tr Hc Hst H Hne.
  - cbn in H. inversion H; subst. cbn. rewrite app_nil_r. reflexivity.
  - cbn [forallb] in Hst. apply andb_true_iff in Hst. destruct Hst as [Hi Hr].
    destruct (step_piece mf i s Hc Hi) as [s1 [o1 [acc [rets [E1 [P1 _]]]]]].
    cbn [run] in H. unfold bind in H. rewrite E1 in H.
    destruct (run rest s1) as [[[[] s2] o2]|] eqn:E2; [|discriminate].
    inversion H; subst. clear H.
    assert (Hn1 : ~ In readOverflow o1)
      by (intros Hin; apply Hne; apply in_or_app; left; exact Hin).
    assert (Hn2 : ~ In readOverflow o2)
      by (intros Hin; apply Hne; apply in_or_app; right; exact Hin).
    pose proof (step_inbound mf i s s1 o1 Hc Hi E1 Hn1) as B1.
    pose proof (IH s1 s' o2 (proj1 P1) Hr E2 Hn2) as B2.
    rewrite readOut_app, arrived_app, <- app_assoc, B2.
    rewrite !app_assoc, B1. reflexivity.
Qed.

Lemma inbound_stream_intact_witness :
  exists s' tr,
    run laird_reads (laird_connected 4096) = Some (tt, s', tr)
    /\ readOut tr = [x41; x42; x43; x44; x45]
    /\ readOut tr ++ readBuffer s'
       = readBuffer (laird_connected 4096) ++ arrived Laird tr.
Proof.
  eexists. eexists.
  match goal with
  | |- ?c = _ /\ _ =>
      assert (Hrun : c = Some (tt, _, _)) by (vm_compute; reflexivity)
  end.
  split; [exact Hrun|]. split; [reflexivity|].
  apply (inbound_stream_intact Laird laird_reads (laird_connected 4096)
           _ _).
  - unfold connectedTo. repeat split.
  - reflexivity.
  - exact Hrun.
  - unfold readOverflow. cbn. intros Hin.
    repeat (destruct Hin as [Hin|Hin]; [discriminate Hin|]). exact Hin.
Defined.

Lemma size_firstn (maxlen : Z) (b : QByteArray) :
  0 <= maxlen ->
  size (firstn (Z.to_nat maxlen) b) = Z.min maxlen (size b).
Proof.
  intros H. unfold size. rewrite length_firstn, Nat2Z.inj_min, Z2Nat.id by lia.
  reflexivity.
Qed.

Lemma firstn_available (maxlen : Z) (b : QByteArray) :
  0 <= maxlen ->
  firstn (Z.to_nat (Z.min maxlen (size b))) b = firstn (Z.to_nat maxlen) b.
Proof.
  intros H. unfold size.
  destruct (Z.le_ge_cases maxlen (Z.of_nat (List.length b))) as [L|L].
  - rewrite Z.min_l by exact L. reflexivity.
  - rewrite Z.min_r by lia. rewrite Nat2Z.id.
    rewrite firstn_all, firstn_all2 by lia. reflexivity.
Qed.

(** X14. What a [readData] call on an established connection returns.
    The call first lets the event loop deliver the pending transport
    signals; if none of them overflows the read buffer, the bytes available
    to the call are those of the read buffer followed by those notified on
    TX FIFO meanwhile.  For [maxlen >= 0] the call returns the minimum of
    [maxlen] and the number of available bytes, hands out exactly that many
    bytes from the front, and leaves the others in the read buffer. *)
Theorem readData_hands_out_front (mf : Manufacturer)
    (pending : list Event) (maxlen : Z) (s s' : QVSPSocket) (o : list Obs) :
  connectedTo mf s ->
  forallb steadyEvent pending = true ->
  0 <= maxlen ->
  step (call_readData pending maxlen) s = Some (tt, s', o) ->
  ~ In readOverflow o ->
  exists pre,
    o = pre ++ [ReadReturned
                  (Z.min maxlen (size (readBuffer s ++ arrived mf o)))
                  (firstn (Z.to_nat maxlen) (readBuffer s ++ arrived mf o))]
    /\ readBuffer s'
       = skipn (Z.to_nat maxlen) (readBuffer s ++ arrived mf o).
Proof.
  intros Hc Hst Hlen H Hne.
  assert (Hopen : isOpen s = true) by (apply Hc).
  cbn [step] in H. unfold bind in H. rewrite readData_eq, Hopen in H.
  cbn [negb] in H.
  destruct (processEvents pending s) as [[[[] s1] o1]|] eqn:E1;
    [|discriminate].
  destruct (drain maxlen s1) as [[[r s2] o2]|] eqn:E2; [|discriminate].
  cbn in H. inversion H; subst. clear H.
  assert (Hn1 : ~ In readOverflow o1).
  { intros Hin. apply Hne. apply in_or_app. left.
    apply in_or_app. left. exact Hin. }
  destruct (processEvents_inbound mf pending s s1 o1 Hc Hst E1 Hn1)
    as [_ [_ B1]].
  destruct (drain_inbound maxlen s1 s' r o2 E2) as [_ [_ [A2 _]]].
  rewrite !arrived_app, (A2 mf). cbn [arrived]. rewrite !app_nil_r, <- B1.
  exists (o1 ++ o2).
  rewrite drain_eq in E2. cbn zeta in E2.
  assert (Hneg : (maxlen <? 0) = false) by (apply Z.ltb_ge; exact Hlen).
  rewrite Hneg in E2.
  assert (Hskip : skipn (Z.to_nat (size (firstn (Z.to_nat maxlen)
                                          (readBuffer s1)))) (readBuffer s1)
                  = skipn (Z.to_nat maxlen) (readBuffer s1)).
  { rewrite size_firstn by exact Hlen. unfold size.
    destruct (Z.le_ge_cases maxlen (Z.of_nat (List.length (readBuffer s1))))
      as [L|L].
    - rewrite Z.min_l by exact L. reflexivity.
    - rewrite Z.min_r by lia. rewrite Nat2Z.id.
      rewrite skipn_all, skipn_all2 by lia. reflexivity. }
  split_paths E2; finish_path E2; cbn [fst snd readBuffer set_readBuffer];
    (split; [rewrite size_firstn by exact Hlen; reflexivity|exact Hskip]).
Qed.

Lemma readData_hands_out_front_witness :
  exists s' o,
    step (call_readData
            [characteristicChanged (TX_FIFO (CHARACTERISTIC Laird))
               [x43; x44; x45]] 4)
         (set_readBuffer [x41; x42] (laird_connected 4096))
    = Some (tt, s', o)
    /\ (exists pre, o = pre ++ [ReadReturned 4 [x41; x42; x43; x44]])
    /\ readBuffer s' = [x45].
Proof.
  eexists. eexists.
  match goal with
  | |- ?c = _ /\ _ =>
      assert (E : c = Some (tt, _, _)) by (vm_compute; reflexivity)
  end.
  split; [exact E|].
  assert (Hc : connectedTo Laird
                 (set_readBuffer [x41; x42] (laird_connected 4096)))
    by (unfold connectedTo; repeat split).
  destruct (readData_hands_out_front Laird
              [characteristicChanged (TX_FIFO (CHARACTERISTIC Laird))
                 [x43; x44; x45]] 4 _ _ _ Hc eq_refl
              ltac:(discriminate) E) as [pre [Ho Hr]].
  - unfold readOverflow. cbn. intros Hin.
    repeat (destruct Hin as [Hin|Hin]; [discriminate Hin|]). exact Hin.
  - split; [exists pre; exact Ho|exact Hr].
Defined.

(** ** Flow control of the outbound stream *)

Lemma dispatch_cts_clear (mf : Manufacturer) (e : Event)
    (s s' : QVSPSocket) (o : list Obs) :
  connectedTo mf s -> cts s = false ->
  steadyEvent e = true -> isCtsNotification mf e = false ->
  dispatch e s = Some (tt, s', o) ->
  dataWrites mf o = [] /\ cts s' = false.
Proof.
  intros Hc Hcts Hst Hn H. use_connected Hc.
  destruct e; try discriminate Hst; unfold_slots; unfold_monad;
    unfold isOpen, isCtsNotification in *;
    rewrite ?Hslots, ?Hopen, ?Hrx, ?Htx, ?Hmi, ?Hmo, ?Hcts in H;
    split_paths H; finish_path H; try discriminate; try congruence; cbn;
    rewrite ?Hmi, ?Hrx; cbn [handle_eqb];
    rewrite ?modemIn_not_rxFifo; try (split; [reflexivity|assumption]).
  all: rewrite andb_false_r in *; discriminate.
Qed.

Lemma processEvents_cts_clear (mf : Manufacturer) (pending : list Event) :
  forall (s s' : QVSPSocket) (o : list Obs),
    connectedTo mf s -> cts s = false ->
    forallb steadyEvent pending = true ->
    forallb (fun e => negb (isCtsNotification mf e)) pending = true ->
    processEvents pending s = Some (tt, s', o) ->
    connectedTo mf s' /\ dataWrites mf o = [] /\ cts s' = false.
Proof.
  induction pending as [|e rest IH]; intros s s' o Hc Hcts Hst Hn H.
  - cbn in H. inversion H; subst. auto.
  - cbn [forallb] in Hst, Hn.
    apply andb_true_iff in Hst. destruct Hst as [He Hr].
    apply andb_true_iff in Hn. destruct Hn as [Hne Hnr].
    apply negb_true_iff in Hne.
    destruct (dispatch_piece mf e s Hc He) as [s1 [o1 [E1 P1]]].
    cbn [processEvents] in H. unfold bind in H. rewrite E1 in H.
    destruct (processEvents rest s1) as [[[[] s2] o2]|] eqn:E2;
      [|discriminate].
    inversion H; subst. clear H.
    destruct (dispatch_cts_clear mf e s s1 o1 Hc Hcts He Hne E1) as [D1 C1].
    destruct (IH s1 s' o2 (proj1 P1) C1 Hr Hnr E2) as [Hc2 [D2 C2]].
    rewrite dataWrites_app, D1, D2. auto.
Qed.

Lemma step_cts_clear (mf : Manufacturer) (i : Input)
    (s s' : QVSPSocket) (o : list Obs) :
  connectedTo mf s -> cts s = false ->
  steadyInput i = true -> noCtsNews mf i = true ->
  step i s = Some (tt, s', o) ->
  dataWrites mf o = [] /\ cts s' = false.
Proof.
  intros Hc Hcts Hst Hn H.
  assert (Hopen : isOpen s = true) by (apply Hc).
  assert (Hmi : modemInChar s = Some (MODEM_IN (CHARACTERISTIC mf)))
    by (apply Hc).
  destruct i; cbn [steadyInput noCtsNews] in Hst, Hn; try discriminate Hst.
  - cbn [step] in H. rewrite (connectToDevice_open _ _ Hopen) in H.
    inversion H; subst. auto.
  - cbn [step] in H. unfold bind in H. rewrite readData_eq, Hopen in H.
    cbn [negb] in H.
    destruct (processEvents pending s) as [[[[] s1] o1]|] eqn:E1;
      [|discriminate].
    destruct (drain maxlen s1) as [[[r s2] o2]|] eqn:E2; [|discriminate].
    cbn in H. inversion H; subst. clear H.
    destruct (processEvents_cts_clear mf pending s s1 o1 Hc Hcts Hst Hn E1)
      as [Hc1 [D1 C1]].
    assert (Hmi1 : modemInChar s1 = Some (MODEM_IN (CHARACTERISTIC mf)))
      by (apply Hc1).
    rewrite !dataWrites_app, D1.
    rewrite drain_eq in E2. cbn zeta in E2. rewrite Hmi1 in E2.
    split_paths E2; finish_path E2; cbn;
      rewrite ?modemIn_not_rxFifo; split; first [reflexivity|assumption].
  - unfold_calls. unfold_monad. unfold isOpen in *.
    rewrite Hopen in H.
    split_paths H; finish_path H; try congruence; cbn; split;
      first [reflexivity|assumption].
  - unfold_calls. unfold_monad. rewrite Hmi in H.
    split_paths H; finish_path H; cbn;
      rewrite ?modemIn_not_rxFifo; split; first [reflexivity|assumption].
  - unfold_calls. unfold_monad. rewrite Hmi in H.
    split_paths H; finish_path H; cbn;
      rewrite ?modemIn_not_rxFifo; split; first [reflexivity|assumption].
  - cbn [step] in H. apply negb_true_iff in Hn.
    exact (dispatch_cts_clear mf e s s' o Hc Hcts Hst Hn H).
Qed.

Lemma run_cts_clear (mf : Manufacturer) (ins : list Input) :
  forall (s s' : QVSPSocket) (tr : list Obs),
    connectedTo mf s -> cts s = false ->
    forallb steadyInput ins = true ->
    forallb (noCtsNews mf) ins = true ->
    run ins s = Some (tt, s', tr) ->
    dataWrites mf tr = [] /\ cts s' = false.
Proof.
  induction ins as [|i rest IH]; intros s s' tr Hc Hcts Hst Hn H.
  - cbn in H. inversion H; subst. auto.
  - cbn [forallb] in Hst, Hn.
    apply andb_true_iff in Hst. destruct Hst as [Hi Hr].
    apply andb_true_iff in Hn. destruct Hn as [Hni Hnr].
    destruct (step_piece mf i s Hc Hi) as [s1 [o1 [acc [rets [E1 [P1 _]]]]]].
    cbn [run] in H. unfold bind in H. rewrite E1 in H.
    destruct (run rest s1) as [[[[] s2] o2]|] eqn:E2; [|discriminate].
    inversion H; subst. clear H.
    destruct (step_cts_clear mf i s s1 o1 Hc Hcts Hi Hni E1) as [D1 C1].
    destruct (IH s1 s' o2 (proj1 P1) C1 Hr Hnr E2) as [D2 C2].
    rewrite dataWrites_app, D1, D2. auto.
Qed.

(** X13. While the peer keeps CTS clear, no data leaves the socket.  On
    an established connection whose [cts] flag is clear, in every execution
    without [close] and service discovery in which no MODEM_OUT
    notification is delivered, nothing is written to RX FIFO -- not by
    [writeData], not on the confirmation of an earlier write; the flag
    stays clear, and as long as they fit the submitted bytes are all kept,
    in order, at the end of the write buffer, each [writeData] returning
    its length. *)
Theorem cts_clear_holds_data (mf : Manufacturer) (ins : list Input)
    (s s' : QVSPSocket) (tr : list Obs) :
  connectedTo mf s -> cts s = false ->
  forallb steadyInput ins = true ->
  forallb (noCtsNews mf) ins = true ->
  run ins s = Some (tt, s', tr) ->
  dataWrites mf tr = []
  /\ cts s' = false
  /\ (size (writeBuffer s) + size (submitted ins) + 1 <= maxBufferSize s ->
      writeBuffer s' = writeBuffer s ++ submitted ins
      /\ writeReturns tr = writeSizes ins).
Proof.
  intros Hc Hcts Hst Hn H.
  destruct (run_cts_clear mf ins s s' tr Hc Hcts Hst Hn H) as [D C].
  split; [exact D|]. split; [exact C|]. intros Hfit.
  destruct (run_steady mf ins s Hc Hst) as [s2 [o2 [acc [rets [E [P F]]]]]].
  rewrite E in H. inversion H; subst. clear H.
  destruct (F Hfit) as [Ha Hr]. subst acc rets.
  destruct P as [_ [_ [Hw [_ [_ [Hret _]]]]]].
  rewrite D in Hw. cbn [List.concat app] in Hw.
  split; [exact Hw|exact Hret].
Qed.

Lemma cts_clear_holds_data_witness :
  exists s' tr,
    run laird_writes_held (set_cts false (laird_connected 4096))
    = Some (tt, s', tr)
    /\ dataWrites Laird tr = []
    /\ bytesToWrite s' = 35
    /\ writeBuffer s' = repeat x61 30 ++ repeat x62 5.
Proof.
  eexists. eexists.
  match goal with
  | |- ?c = _ /\ _ =>
      assert (Hrun : c = Some (tt, _, _)) by (vm_compute; reflexivity)
  end.
  split; [exact Hrun|].
  assert (Hc : connectedTo Laird (set_cts false (laird_connected 4096)))
    by (unfold connectedTo; repeat split).
  destruct (cts_clear_holds_data Laird laird_writes_held _ _ _ Hc
              eq_refl eq_refl eq_refl Hrun) as [D [_ Hw]].
  split; [exact D|]. split; [reflexivity|].
  destruct Hw as [Hw _]; [vm_compute; discriminate|].
  exact Hw.
Defined.

(** ** [readyRead] *)

Lemma notifications_app (mf : Manufacturer) (l1 l2 : list Obs) :
  notifications mf (l1 ++ l2)
  = (notifications mf l1 + notifications mf l2)%nat.
Proof.
  induction l1 as [|o l1 IH]; [reflexivity|]. cbn [app notifications].
  destruct o as [e| | | |]; try exact IH.
  destruct e; try exact IH.
  destruct (String.eqb _ _); [rewrite IH; reflexivity|exact IH].
Qed.

Lemma readyReads_app (l1 l2 : list Obs) :
  readyReads (l1 ++ l2) = (readyReads l1 + readyReads l2)%nat.
Proof.
  induction l1 as [|o l1 IH]; [reflexivity|]. cbn [app readyReads].
  destruct o as [|g| | |]; try exact IH.
  destruct g; try exact IH. rewrite IH. reflexivity.
Qed.

Lemma dispatch_readyRead (mf : Manufacturer) (e : Event)
    (s s' : QVSPSocket) (o : list Obs) :
  connectedTo mf s ->
  dispatch e s = Some (tt, s', o) ->
  ~ In readOverflow o ->
  readyReads o = notifications mf o.
Proof.
  intros Hc H Hne. use_connected Hc. unfold readOverflow in Hne.
  destruct e; unfold_slots; unfold_monad; unfold isOpen in *;
    rewrite ?Hslots, ?Hopen, ?Hrx, ?Htx, ?Hmi, ?Hmo in H;
    split_paths H; finish_path H; try discriminate; try congruence; cbn;
    try reflexivity.
  all: try (exfalso; apply Hne; cbn; tauto).
  all: repeat match goal with
              | E : String.eqb _ _ = _ |- _ => try rewrite E; clear E
              end.
  all: try reflexivity.
  all: rewrite andb_false_r in *; discriminate.
Qed.

Lemma processEvents_readyRead (mf : Manufacturer) (pending : list Event) :
  forall (s s' : QVSPSocket) (o : list Obs),
    connectedTo mf s -> forallb steadyEvent pending = true ->
    processEvents pending s = Some (tt, s', o) ->
    ~ In readOverflow o ->
    readyReads o = notifications mf o.
Proof.
  induction pending as [|e rest IH]; intros s s' o Hc Hst H Hne.
  - cbn in H. inversion H; subst. reflexivity.
  - cbn [forallb] in Hst. apply andb_true_iff in Hst. destruct Hst as [He Hr].
    destruct (dispatch_piece mf e s Hc He) as [s1 [o1 [E1 P1]]].
    cbn [processEvents] in H. unfold bind in H. rewrite E1 in H.
    destruct (processEvents rest s1) as [[[[] s2] o2]|] eqn:E2;
      [|discriminate].
    inversion H; subst. clear H.
    assert (Hn1 : ~ In readOverflow o1)
      by (intros Hin; apply Hne; apply in_or_app; left; exact Hin).
    assert (Hn2 : ~ In readOverflow o2)
      by (intros Hin; apply Hne; apply in_or_app; right; exact Hin).
    rewrite readyReads_app, notifications_app.
    rewrite (dispatch_readyRead mf e s s1 o1 Hc E1 Hn1).
    rewrite (IH s1 s' o2 (proj1 P1) Hr E2 Hn2). reflexivity.
Qed.

Lemma step_readyRead (mf : Manufacturer) (i : Input)
    (s s' : QVSPSocket) (o : list Obs) :
  connectedTo mf s -> steadyInput i = true ->
  step i s = Some (tt, s', o) ->
  ~ In readOverflow o ->
  readyReads o = notifications mf o.
Proof.
  intros Hc Hst H Hne.
  assert (Hopen : isOpen s = true) by (apply Hc).
  destruct i; cbn [steadyInput] in Hst; try discriminate Hst.
  - cbn [step] in H. rewrite (connectToDevice_open _ _ Hopen) in H.
    inversion H; subst. reflexivity.
  - cbn [step] in H. unfold bind in H. rewrite readData_eq, Hopen in H.
    cbn [negb] in H.
    destruct (processEvents pending s) as [[[[] s1] o1]|] eqn:E1;
      [|discriminate].
    destruct (drain maxlen s1) as [[[r s2] o2]|] eqn:E2; [|discriminate].
    cbn in H. inversion H; subst. clear H.
    assert (Hn1 : ~ In readOverflow o1).
    { intros Hin. apply Hne. apply in_or_app. left.
      apply in_or_app. left. exact Hin. }
    rewrite !readyReads_app, !notifications_app.
    rewrite (processEvents_readyRead mf pending s s1 o1 Hc Hst E1 Hn1).
    rewrite drain_eq in E2. cbn zeta in E2.
    split_paths E2; finish_path E2; reflexivity.
  - unfold_calls. unfold_monad.
    split_paths H; finish_path H; reflexivity.
  - unfold_calls. unfold_monad.
    split_paths H; finish_path H; reflexivity.
  - unfold_calls. unfold_monad.
    split_paths H; finish_path H; reflexivity.
  - cbn [step] in H. exact (dispatch_readyRead mf e s s' o Hc H Hne).
Qed.

(** X15. No wake-up is lost or invented on an established connection: in
    every execution without [close] and service discovery that signals no
    [CharacteristicReadError], [readyRead] is emitted exactly once for each
    notification of TX FIFO -- also for those the event loop delivers while
    [readData] runs, and also when the notification carries no bytes -- and
    for nothing else. *)
Theorem readyRead_once_per_notification (mf : Manufacturer)
    (ins : list Input) :
  forall (s s' : QVSPSocket) (tr : list Obs),
    connectedTo mf s ->
    forallb steadyInput ins = true ->
    run ins s = Some (tt, s', tr) ->
    ~ In readOverflow tr ->
    readyReads tr = notifications mf tr.
Proof.
  induction ins as [|i rest IH]; intros s s' tr Hc Hst H Hne.
  - cbn in H. inversion H; subst. reflexivity.
  - cbn [forallb] in Hst. apply andb_true_iff in Hst. destruct Hst as [Hi Hr].
    destruct (step_piece mf i s Hc Hi) as [s1 [o1 [acc [rets [E1 [P1 _]]]]]].
    cbn [run] in H. unfold bind in H. rewrite E1 in H.
    destruct (run rest s1) as [[[[] s2] o2]|] eqn:E2; [|discriminate].
    inversion H; subst. clear H.
    assert (Hn1 : ~ In readOverflow o1)
      by (intros Hin; apply Hne; apply in_or_app; left; exact Hin).
    assert (Hn2 : ~ In readOverflow o2)
      by (intros Hin; apply Hne; apply in_or_app; right; exact Hin).
    rewrite readyReads_app, notifications_app.
    rewrite (step_readyRead mf i s s1 o1 Hc Hi E1 Hn1).
    rewrite (IH s1 s' o2 (proj1 P1) Hr E2 Hn2). reflexivity.
Qed.

Lemma readyRead_once_per_notification_witness :
  exists s' tr,
    run laird_reads (laird_connected 4096) = Some (tt, s', tr)
    /\ notifications Laird tr = 2%nat
    /\ readyReads tr = notifications Laird tr.
Proof.
  eexists. eexists.
  match goal with
  | |- ?c = _ /\ _ =>
      assert (Hrun : c = Some (tt, _, _)) by (vm_compute; reflexivity)
  end.
  split; [exact Hrun|]. split; [reflexivity|].
  refine (readyRead_once_per_notification Laird laird_reads
            (laird_connected 4096) _ _ _ eq_refl Hrun _).
  - unfold connectedTo. repeat split.
  - unfold readOverflow. cbn. intros Hin.
    repeat (destruct Hin as [Hin|Hin]; [discriminate Hin|]). exact Hin.
Defined.
